(** * hrmgmt / personaldetail: a shallow embedding of [models.py] and [admin.py]

    The Django models of the application are embedded as functions over
    explicit tables.  A table is a finite map from primary keys (UUIDs) to
    rows; an in-memory model instance is a row together with its primary
    key and Django's [_state.adding] flag.  Every method that touches the
    database is a computation in a small state-and-exception monad over the
    table of its own model: a Python exception leaves the table as it was
    when the exception was raised (the models open no transaction).

    What the application takes from outside (the time zone machinery,
    [strftime], the optional [nepali_datetime] package, Django's [slugify])
    is collected in the class [Environment]; the current time and the
    value produced by [uuid.uuid4] are explicit arguments. *)

From Stdlib Require Import Ascii.
From stdpp Require Import gmap strings pretty list fin_maps.

(** ** Python values *)

Abbreviation uuid := N (only parsing).

(** Truth value of a [str]: the empty string is falsy. *)
Definition truthy (s : string) : bool := negb (bool_decide (s = "")).

(** The slice [s[:n]]. *)
Fixpoint slice_to (n : nat) (s : string) : string :=
  match n, s with
  | S n, String c s => String c (slice_to n s)
  | _, _ => ""
  end.

Fixpoint zeros (n : nat) : string :=
  match n with
  | O => ""
  | S n => String "0"%char (zeros n)
  end.

(** The format specification [{n:0<width>d}] on a non-negative integer. *)
Definition format_d (width : nat) (n : N) : string :=
  zeros (width - String.length (pretty n)) +:+ pretty n.

(** ASCII case folding and the substring test behind [__icontains]. *)
Definition lower_char (c : ascii) : ascii :=
  let n := Ascii.N_of_ascii c in
  if ((65 <=? n) && (n <=? 90))%N then Ascii.ascii_of_N (n + 32) else c.

Fixpoint lower (s : string) : string :=
  match s with
  | "" => ""
  | String c s => String (lower_char c) (lower s)
  end.

Fixpoint starts_with (p s : string) : bool :=
  match p, s with
  | "", _ => true
  | String a p, String b s => bool_decide (a = b) && starts_with p s
  | String _ _, "" => false
  end.

Fixpoint contains (needle hay : string) : bool :=
  starts_with needle hay ||
  match hay with
  | "" => false
  | String _ hay => contains needle hay
  end.

Definition icontains (field q : string) : bool := contains (lower q) (lower field).

(** ** What the application imports *)

(** A Bikram Sambat calendar date, as [nepali_datetime.date] exposes it. *)
Record nepali_date := { nd_year : N; nd_month : N; nd_day : N }.

Class Environment := {
  datetime : Type;
  (** [timezone.is_naive] *)
  is_naive : datetime → bool;
  (** [timezone.make_aware(dt, timezone.get_current_timezone())] *)
  make_aware : datetime → datetime;
  (** [timezone.localtime] *)
  localtime : datetime → datetime;
  (** [dt.strftime(fmt)] *)
  strftime : datetime → string → string;
  (** whether [import nepali_datetime] succeeded *)
  _NEPALI_AVAILABLE : bool;
  (** [nepali_datetime.date.from_datetime_date(dt.date())]; [None] when it
      raises *)
  from_datetime_date : datetime → option nepali_date;
  (** [django.utils.text.slugify] *)
  slugify : string → string;
}.

(** ** Utility functions *)

Definition gregorian_to_nepali_string `{!Environment} (dt : option datetime) : string :=
  match dt with
  | None => ""
  | Some dt =>
      let dt := if is_naive dt then make_aware dt else dt in
      let local_dt := localtime dt in
      let gregorian := strftime local_dt "%Y-%m-%d %H:%M:%S" in
      if _NEPALI_AVAILABLE then
        match from_datetime_date local_dt with
        | Some nd =>
            format_d 4 (nd_year nd) +:+ "-" +:+ format_d 2 (nd_month nd) +:+ "-"
              +:+ format_d 2 (nd_day nd) +:+ " " +:+ strftime local_dt "%H:%M:%S"
        | None => gregorian
        end
      else gregorian
  end.

(** ** Rows, instances and tables *)

(** The columns every model inherits from [AuditableModel], followed by the
    columns the model declares itself.  Rows and instances depend on the
    environment through the type of datetimes only. *)
Record Row_ (D F : Type) := {
  created_at : option D;
  updated_at : option D;
  created_at_nepali : string;
  updated_at_nepali : string;
  created_by : option uuid;
  own : F;
}.
Abbreviation Row F := (Row_ datetime F).
Arguments created_at {_ _} _.
Arguments updated_at {_ _} _.
Arguments created_at_nepali {_ _} _.
Arguments updated_at_nepali {_ _} _.
Arguments created_by {_ _} _.
Arguments own {_ _} _.

(** A model object in memory.  [pk] is [None] only when the caller passed
    [id=None]; [adding] is Django's [_state.adding]: true for an object that
    was constructed, false for one that was loaded or has been saved. *)
Record Instance_ (D F : Type) := {
  pk : option uuid;
  adding : bool;
  row : Row_ D F;
}.
Abbreviation Instance F := (Instance_ datetime F).
Arguments pk {_ _} _.
Arguments adding {_ _} _.
Arguments row {_ _} _.

Abbreviation Table F := (gmap N (Row F)).

Section accessors.
Context `{!Environment} {F : Type}.

Definition attr {A} (f : F → A) (self : Instance F) : A := f (own (row self)).

Definition map_own (g : F → F) (r : Row F) : Row F :=
  {| created_at := created_at r; updated_at := updated_at r;
     created_at_nepali := created_at_nepali r;
     updated_at_nepali := updated_at_nepali r;
     created_by := created_by r; own := g (own r) |}.

Definition set_created_at (v : option datetime) (r : Row F) : Row F :=
  {| created_at := v; updated_at := updated_at r;
     created_at_nepali := created_at_nepali r;
     updated_at_nepali := updated_at_nepali r;
     created_by := created_by r; own := own r |}.

Definition set_updated_at (v : option datetime) (r : Row F) : Row F :=
  {| created_at := created_at r; updated_at := v;
     created_at_nepali := created_at_nepali r;
     updated_at_nepali := updated_at_nepali r;
     created_by := created_by r; own := own r |}.

Definition set_created_at_nepali (v : string) (r : Row F) : Row F :=
  {| created_at := created_at r; updated_at := updated_at r;
     created_at_nepali := v;
     updated_at_nepali := updated_at_nepali r;
     created_by := created_by r; own := own r |}.

Definition set_updated_at_nepali (v : string) (r : Row F) : Row F :=
  {| created_at := created_at r; updated_at := updated_at r;
     created_at_nepali := created_at_nepali r;
     updated_at_nepali := v;
     created_by := created_by r; own := own r |}.

Definition set_created_by (v : option uuid) (r : Row F) : Row F :=
  {| created_at := created_at r; updated_at := updated_at r;
     created_at_nepali := created_at_nepali r;
     updated_at_nepali := updated_at_nepali r;
     created_by := v; own := own r |}.

Definition map_row (g : Row F → Row F) (self : Instance F) : Instance F :=
  {| pk := pk self; adding := adding self; row := g (row self) |}.

Definition set_pk (k : option uuid) (self : Instance F) : Instance F :=
  {| pk := k; adding := adding self; row := row self |}.

Definition set_adding (b : bool) (self : Instance F) : Instance F :=
  {| pk := pk self; adding := b; row := row self |}.

(** [setattr] on a declared column. *)
Definition update_attr (g : F → F) (self : Instance F) : Instance F :=
  map_row (map_own g) self.
End accessors.

(** ** The state-and-exception monad of database code *)

Inductive exn := IntegrityError | DatabaseError | ValueError | DoesNotExist.

(** [Hangs] stands for a loop that used up the fuel this model gives it. *)
Inductive outcome (A : Type) :=
  | Returns (a : A)
  | Raises (e : exn)
  | Hangs.
Arguments Returns {A} a.
Arguments Raises {A} e.
Arguments Hangs {A}.

Definition Orm (S A : Type) : Type := S → S * outcome A.

Definition ret {S A} (a : A) : Orm S A := λ s, (s, Returns a).
Definition raise {S A} (e : exn) : Orm S A := λ s, (s, Raises e).
Definition bind {S A B} (m : Orm S A) (k : A → Orm S B) : Orm S B :=
  λ s, match m s with
       | (s', Returns a) => k a s'
       | (s', Raises e) => (s', Raises e)
       | (s', Hangs) => (s', Hangs)
       end.

Notation "'let*' x := m 'in' k" := (bind m (λ x, k))
  (at level 10, x name, m at level 100, k at level 200, only parsing).
Notation "m ;;; k" := (bind m (λ _, k))
  (at level 100, right associativity, only parsing).

(** ** Django's model layer *)

(** What a model class tells the ORM: how to copy one declared column from
    an object into a row ([None] for a name the model does not declare), and
    which pairs of rows its [unique], [unique_together] and
    [UniqueConstraint] declarations forbid.  Foreign-key, NOT NULL and
    [max_length] checks are made by the database and depend on its backend;
    they are left out.  The row that a foreign key refers to is looked up
    where a method of the source evaluates the related object, and nowhere
    else: a write that the database would refuse for a dangling key, a null
    or an overlong value is accepted here, which can only enlarge the set of
    states the model reaches. *)
Class Model (F : Type) := {
  assign : string → F → F → option F;
  conflict : F → F → bool;
}.

Section orm.
Context `{!Environment} `{!Model F}.

(** Copy the column called [name] from [src] into [dst]. *)
Definition assign_column (name : string) (src dst : Row F) : option (Row F) :=
  if bool_decide (name = "created_at") then Some (set_created_at (created_at src) dst)
  else if bool_decide (name = "updated_at") then Some (set_updated_at (updated_at src) dst)
  else if bool_decide (name = "created_at_nepali")
    then Some (set_created_at_nepali (created_at_nepali src) dst)
  else if bool_decide (name = "updated_at_nepali")
    then Some (set_updated_at_nepali (updated_at_nepali src) dst)
  else if bool_decide (name = "created_by") then Some (set_created_by (created_by src) dst)
  else o ← assign name (own src) (own dst); Some (map_own (λ _, o) dst).

Fixpoint assign_columns (names : list string) (src dst : Row F) : option (Row F) :=
  match names with
  | [] => Some dst
  | name :: names => dst ← assign_column name src dst; assign_columns names src dst
  end.

(** Some other row of the table is in conflict with [r] stored under [k]. *)
Definition violates (k : uuid) (r : Row F) (t : Table F) : bool :=
  existsb (λ kr, negb (bool_decide (kr.1 = k)) && conflict (own r) (own kr.2))
          (map_to_list t).

Definition sql_insert (k : uuid) (r : Row F) : Orm (Table F) unit :=
  λ t, match t !! k with
       | Some _ => (t, Raises IntegrityError)
       | None => if violates k r t then (t, Raises IntegrityError)
                 else (<[k:=r]> t, Returns ())
       end.

(** [UPDATE ... WHERE id = k]; the result tells whether a row matched. *)
Definition sql_update (k : uuid) (g : Row F → Row F) : Orm (Table F) bool :=
  λ t, match t !! k with
       | None => (t, Returns false)
       | Some old => if violates k (g old) t then (t, Raises IntegrityError)
                     else (<[k:=g old]> t, Returns true)
       end.

(** [Model.save(update_fields=...)], as Django 3.0 and later do it for a
    primary key with a default ([admin.py] uses [admin.action], which is in
    Django from 3.2).  A primary key that is [None] is given its default,
    [fresh].  An object that is being added is inserted with all its
    columns; otherwise the columns to save are written by an UPDATE, and a
    full save falls back to an INSERT when no row matched, while a save of
    some columns raises [DatabaseError] then.  [auto_now] and [auto_now_add]
    columns are stamped when they are among the columns written.  An empty
    list of columns does nothing, and a name that is no column raises
    [ValueError] before the database is touched.  The clock is read once,
    [now]. *)
Definition Model_save (now : datetime) (fresh : uuid)
    (update_fields : option (list string)) (self : Instance F)
    : Orm (Table F) (Instance F) :=
  match update_fields with
  | Some [] => ret self
  | _ =>
    match assign_columns (default [] update_fields) (row self) (row self) with
    | None => raise ValueError
    | Some _ =>
      let k := default fresh (pk self) in
      let self := set_pk (Some k) self in
      let inserted :=
        map_row (set_updated_at (Some now)) (map_row (set_created_at (Some now)) self) in
      if adding self then
        sql_insert k (row inserted) ;;; ret (set_adding false inserted)
      else
        match update_fields with
        | None =>
            let self' := map_row (set_updated_at (Some now)) self in
            let* updated := sql_update k (λ _, row self') in
            if (updated : bool) then ret self'
            else sql_insert k (row inserted) ;;; ret inserted
        | Some names =>
            let self' :=
              if bool_decide ("updated_at" ∈ names)
              then map_row (set_updated_at (Some now)) self else self in
            let* updated :=
              sql_update k (λ old, default old (assign_columns names (row self') old)) in
            if (updated : bool) then ret self' else raise DatabaseError
        end
    end
  end.

(** Lazy query sets: a predicate on rows, evaluated against the table at
    the time of the query. *)
Definition QuerySet : Type := uuid → Row F → bool.

Definition all : QuerySet := λ _ _, true.
Definition qs_filter (P : Row F → bool) (qs : QuerySet) : QuerySet :=
  λ k r, qs k r && P r.
Definition qs_exclude_pk (k0 : uuid) (qs : QuerySet) : QuerySet :=
  λ k r, qs k r && negb (bool_decide (k = k0)).
Definition evaluate (qs : QuerySet) (t : Table F) : Table F :=
  filter (λ kr, qs kr.1 kr.2 = true) t.
Definition qs_exists (qs : QuerySet) (t : Table F) : bool :=
  existsb (λ kr, qs kr.1 kr.2) (map_to_list t).
Definition qs_count (qs : QuerySet) (t : Table F) : nat :=
  length (filter (λ kr, qs kr.1 kr.2 = true) (map_to_list t)).
(** [QuerySet.update]: returns the number of rows matched. *)
Definition qs_update (g : Row F → Row F) (qs : QuerySet) : Orm (Table F) nat :=
  λ t, (map_imap (λ k r, Some (if qs k r then g r else r)) t, Returns (qs_count qs t)).
End orm.
Arguments QuerySet {_} F.

(** A character column of a model, standing for the column name that
    [getattr], [setattr] and the keyword argument of [filter] are given:
    [getattr] returns what [setattr] has set. *)
Record CharField (F : Type) := {
  getf : F → string;
  setf : string → F → F;
  getf_setf : ∀ v r, getf (setf v r) = v;
}.
Arguments getf {F} _ _.
Arguments setf {F} _ _ _.
Arguments getf_setf {F} _ _ _.

(** The [while] loop of [unique_slugify].  [taken slug] is the test
    whether the query set has a row whose slug column equals [slug]. *)
Fixpoint unique_slugify_loop (fuel : nat) (taken : string → bool)
    (original_slug separator slug : string) (next_ : N) : option string :=
  match fuel with
  | O => None
  | S fuel =>
      if taken slug
      then unique_slugify_loop fuel taken original_slug separator
             (original_slug +:+ separator +:+ pretty next_) (next_ + 1)%N
      else Some slug
  end.

(** The rows the loop of [unique_slugify] compares with: [queryset], or all
    rows of the model when it is [None], without the instance's own row. *)
Definition scoping_queryset `{!Environment} {F} (instance : Instance F)
    (queryset : option (QuerySet F)) : QuerySet F :=
  let queryset := default all queryset in
  match pk instance with
  | Some k => qs_exclude_pk k queryset
  | None => queryset
  end.

(** The loop is given two more rounds than the table has rows. *)
Definition unique_slugify `{!Environment} {F} (instance : Instance F) (value : string)
    (slug_field_name : CharField F) (queryset : option (QuerySet F))
    (separator : string) : Orm (Table F) (Instance F) :=
  λ t,
    let slug := slice_to 180 (slugify value) in
    let queryset := scoping_queryset instance queryset in
    let slug_field := slug_field_name in
    let original_slug := slug in
    let next_ := 1%N in
    match unique_slugify_loop (2 + size t)
            (λ slug, qs_exists (qs_filter (λ r, bool_decide (getf slug_field (own r) = slug)) queryset) t)
            original_slug separator slug next_ with
    | Some slug => (t, Returns (update_attr (setf slug_field slug) instance))
    | None => (t, Hangs)
    end.

(** ** Auditable mixin with Nepali datetime fields *)

Module AuditableModel.
Definition save `{!Environment} `{!Model F} (now : datetime) (fresh : uuid)
    (update_fields : option (list string)) (self : Instance F)
    : Orm (Table F) (Instance F) :=
  let is_new := bool_decide (pk self = None) in
  if is_new then
    let* self := Model_save now fresh update_fields self in
    let self :=
      map_row (set_created_at_nepali (gregorian_to_nepali_string (created_at (row self)))) self in
    let self :=
      map_row (set_updated_at_nepali (gregorian_to_nepali_string (updated_at (row self)))) self in
    Model_save now fresh (Some ["created_at_nepali"; "updated_at_nepali"]) self
  else
    let* self := Model_save now fresh update_fields self in
    let self :=
      map_row (set_updated_at_nepali (gregorian_to_nepali_string (updated_at (row self)))) self in
    Model_save now fresh (Some ["updated_at_nepali"]) self.
End AuditableModel.

(** ** Python idioms used by the methods that build strings *)

(** Following a foreign key loads the related row; a key without a row
    raises [DoesNotExist]. *)
Definition related_object `{!Environment} {F} (t : Table F) (k : uuid) : outcome (Row F) :=
  match t !! k with
  | Some r => Returns r
  | None => Raises DoesNotExist
  end.

Definition and_then {A B} (o : outcome A) (f : A → outcome B) : outcome B :=
  match o with
  | Returns a => f a
  | Raises e => Raises e
  | Hangs => Hangs
  end.

(** [try: body except Exception: handler]. *)
Definition try_except {A} (body handler : outcome A) : outcome A :=
  match body with
  | Returns a => Returns a
  | Raises _ => handler
  | Hangs => Hangs
  end.

(** [sep.join(l)]. *)
Fixpoint join (sep : string) (l : list string) : string :=
  match l with
  | [] => ""
  | [x] => x
  | x :: l => x +:+ sep +:+ join sep l
  end.

(** ** Address hierarchy *)

Module Province.
Record fields := { name : string; slug : string }.

Definition slug_field : CharField fields :=
  {| getf := slug; setf v r := {| name := name r; slug := v |};
     getf_setf _ _ := eq_refl |}.

#[global] Instance model : Model fields := {|
  assign f src dst :=
    if bool_decide (f = "name") then Some {| name := name src; slug := slug dst |}
    else if bool_decide (f = "slug") then Some {| name := name dst; slug := slug src |}
    else None;
  conflict a b :=
    bool_decide (name a = name b) || bool_decide (slug a = slug b);
|}.

Definition save `{!Environment} (now : datetime) (fresh : uuid)
    (update_fields : option (list string)) (self : Instance fields)
    : Orm (Table fields) (Instance fields) :=
  let* self :=
    (if negb (truthy (attr slug self))
     then unique_slugify self (attr name self) slug_field None "-"
     else ret self) in
  AuditableModel.save now fresh update_fields self.
End Province.

Module District.
Record fields := { province : uuid; name : string; slug : string }.

Definition slug_field : CharField fields :=
  {| getf := slug;
     setf v r := {| province := province r; name := name r; slug := v |};
     getf_setf _ _ := eq_refl |}.

#[global] Instance model : Model fields := {|
  assign f src dst :=
    let '(Build_fields p n s) := dst in
    if bool_decide (f = "province") then Some (Build_fields (province src) n s)
    else if bool_decide (f = "name") then Some (Build_fields p (name src) s)
    else if bool_decide (f = "slug") then Some (Build_fields p n (slug src))
    else None;
  conflict a b :=
    bool_decide (province a = province b) && bool_decide (name a = name b)
    || bool_decide (province a = province b) && bool_decide (slug a = slug b);
|}.

(** [self.province] reads the table of provinces, passed as [provinces];
    the related object not being there raises [DoesNotExist]. *)
Definition save `{!Environment} (provinces : Table Province.fields) (now : datetime)
    (fresh : uuid) (update_fields : option (list string)) (self : Instance fields)
    : Orm (Table fields) (Instance fields) :=
  let* self :=
    (if negb (truthy (attr slug self))
     then match provinces !! attr province self with
          | Some _ =>
              unique_slugify self (attr name self) slug_field
                (Some (qs_filter (λ r, bool_decide (province (own r) = attr province self)) all))
                "-"
          | None => raise DoesNotExist
          end
     else ret self) in
  AuditableModel.save now fresh update_fields self.
End District.

Module Municipality.
Record fields := { district : uuid; name : string; slug : string }.

Definition slug_field : CharField fields :=
  {| getf := slug;
     setf v r := {| district := district r; name := name r; slug := v |};
     getf_setf _ _ := eq_refl |}.

#[global] Instance model : Model fields := {|
  assign f src dst :=
    let '(Build_fields d n s) := dst in
    if bool_decide (f = "district") then Some (Build_fields (district src) n s)
    else if bool_decide (f = "name") then Some (Build_fields d (name src) s)
    else if bool_decide (f = "slug") then Some (Build_fields d n (slug src))
    else None;
  conflict a b :=
    bool_decide (district a = district b) && bool_decide (name a = name b)
    || bool_decide (district a = district b) && bool_decide (slug a = slug b);
|}.

(** [self.district] reads the table of districts, passed as [districts];
    the related object not being there raises [DoesNotExist]. *)
Definition save `{!Environment} (districts : Table District.fields) (now : datetime)
    (fresh : uuid) (update_fields : option (list string)) (self : Instance fields)
    : Orm (Table fields) (Instance fields) :=
  let* self :=
    (if negb (truthy (attr slug self))
     then match districts !! attr district self with
          | Some _ =>
              unique_slugify self (attr name self) slug_field
                (Some (qs_filter (λ r, bool_decide (district (own r) = attr district self)) all))
                "-"
          | None => raise DoesNotExist
          end
     else ret self) in
  AuditableModel.save now fresh update_fields self.
End Municipality.

Module Ward.
Record fields := { municipality : uuid; ward_no : N; slug : string }.

Definition slug_field : CharField fields :=
  {| getf := slug;
     setf v r := {| municipality := municipality r; ward_no := ward_no r; slug := v |};
     getf_setf _ _ := eq_refl |}.

#[global] Instance model : Model fields := {|
  assign f src dst :=
    let '(Build_fields m w s) := dst in
    if bool_decide (f = "municipality") then Some (Build_fields (municipality src) w s)
    else if bool_decide (f = "ward_no") then Some (Build_fields m (ward_no src) s)
    else if bool_decide (f = "slug") then Some (Build_fields m w (slug src))
    else None;
  conflict a b :=
    bool_decide (municipality a = municipality b) && bool_decide (ward_no a = ward_no b)
    || bool_decide (municipality a = municipality b) && bool_decide (slug a = slug b);
|}.

(** [self.municipality] reads the table of municipalities, passed as
    [municipalities]; the related object not being there raises
    [DoesNotExist]. *)
Definition save `{!Environment} (municipalities : Table Municipality.fields)
    (now : datetime) (fresh : uuid) (update_fields : option (list string))
    (self : Instance fields) : Orm (Table fields) (Instance fields) :=
  let* self :=
    (if negb (truthy (attr slug self))
     then match municipalities !! attr municipality self with
          | Some _ =>
              unique_slugify self ("ward-" +:+ pretty (attr ward_no self)) slug_field
                (Some (qs_filter (λ r, bool_decide (municipality (own r)
                                                    = attr municipality self)) all))
                "-"
          | None => raise DoesNotExist
          end
     else ret self) in
  AuditableModel.save now fresh update_fields self.

(** [municipalities] is the table that [self.municipality] is read from. *)
Definition __str__ `{!Environment} (municipalities : Table Municipality.fields)
    (self : Instance fields) : outcome string :=
  and_then (related_object municipalities (attr municipality self)) (λ m,
    Returns ("Ward " +:+ pretty (attr ward_no self) +:+ ", " +:+ Municipality.name (own m))).
End Ward.

(** ** Post (role/title) *)

Module Post.
Record fields := { name : string; symbol_image : option string; slug : string }.

Definition slug_field : CharField fields :=
  {| getf := slug;
     setf v r := {| name := name r; symbol_image := symbol_image r; slug := v |};
     getf_setf _ _ := eq_refl |}.

#[global] Instance model : Model fields := {|
  assign f src dst :=
    let '(Build_fields n i s) := dst in
    if bool_decide (f = "name") then Some (Build_fields (name src) i s)
    else if bool_decide (f = "symbol_image") then Some (Build_fields n (symbol_image src) s)
    else if bool_decide (f = "slug") then Some (Build_fields n i (slug src))
    else None;
  conflict a b :=
    bool_decide (name a = name b) || bool_decide (slug a = slug b);
|}.

Definition save `{!Environment} (now : datetime) (fresh : uuid)
    (update_fields : option (list string)) (self : Instance fields)
    : Orm (Table fields) (Instance fields) :=
  let* self :=
    (if negb (truthy (attr slug self))
     then unique_slugify self (attr name self) slug_field None "-"
     else ret self) in
  AuditableModel.save now fresh update_fields self.
End Post.

(** ** Bank and Branch and Account *)

Module Bank.
Record fields := {
  name : string; logo : option string; code : option string; slug : string }.

Definition slug_field : CharField fields :=
  {| getf := slug;
     setf v r := {| name := name r; logo := logo r; code := code r; slug := v |};
     getf_setf _ _ := eq_refl |}.

#[global] Instance model : Model fields := {|
  assign f src dst :=
    let '(Build_fields n l c s) := dst in
    if bool_decide (f = "name") then Some (Build_fields (name src) l c s)
    else if bool_decide (f = "logo") then Some (Build_fields n (logo src) c s)
    else if bool_decide (f = "code") then Some (Build_fields n l (code src) s)
    else if bool_decide (f = "slug") then Some (Build_fields n l c (slug src))
    else None;
  conflict a b :=
    bool_decide (name a = name b) || bool_decide (slug a = slug b);
|}.

Definition save `{!Environment} (now : datetime) (fresh : uuid)
    (update_fields : option (list string)) (self : Instance fields)
    : Orm (Table fields) (Instance fields) :=
  let* self :=
    (if negb (truthy (attr slug self))
     then unique_slugify self (attr name self) slug_field None "-"
     else ret self) in
  AuditableModel.save now fresh update_fields self.
End Bank.

Module BankBranch.
Record fields := {
  bank : uuid; name : string; ward : uuid; address_line : string; slug : string }.

Definition slug_field : CharField fields :=
  {| getf := slug;
     setf v r := {| bank := bank r; name := name r; ward := ward r;
                    address_line := address_line r; slug := v |};
     getf_setf _ _ := eq_refl |}.

#[global] Instance model : Model fields := {|
  assign f src dst :=
    let '(Build_fields b n w a s) := dst in
    if bool_decide (f = "bank") then Some (Build_fields (bank src) n w a s)
    else if bool_decide (f = "name") then Some (Build_fields b (name src) w a s)
    else if bool_decide (f = "ward") then Some (Build_fields b n (ward src) a s)
    else if bool_decide (f = "address_line") then Some (Build_fields b n w (address_line src) s)
    else if bool_decide (f = "slug") then Some (Build_fields b n w a (slug src))
    else None;
  conflict a b :=
    bool_decide (bank a = bank b) && bool_decide (name a = name b)
      && bool_decide (ward a = ward b)
    || bool_decide (bank a = bank b) && bool_decide (slug a = slug b);
|}.

(** [self.bank.name] reads the table of banks, passed as [banks]; the
    related object not being there raises [DoesNotExist]. *)
Definition save `{!Environment} (banks : Table Bank.fields) (now : datetime)
    (fresh : uuid) (update_fields : option (list string)) (self : Instance fields)
    : Orm (Table fields) (Instance fields) :=
  let* self :=
    (if negb (truthy (attr slug self))
     then match banks !! attr bank self with
          | Some b =>
              unique_slugify self (Bank.name (own b) +:+ " " +:+ attr name self) slug_field
                (Some (qs_filter (λ r, bool_decide (bank (own r) = attr bank self)) all))
                "-"
          | None => raise DoesNotExist
          end
     else ret self) in
  AuditableModel.save now fresh update_fields self.

(** The tables are those that the foreign keys are followed in. *)
Definition full_address `{!Environment}
    (provinces : Table Province.fields) (districts : Table District.fields)
    (municipalities : Table Municipality.fields) (wards : Table Ward.fields)
    (self : Instance fields) : outcome string :=
  try_except
    (and_then (related_object wards (attr ward self)) (λ w,
     and_then (related_object municipalities (Ward.municipality (own w))) (λ m,
     and_then (related_object districts (Municipality.district (own m))) (λ d,
     and_then (related_object provinces (District.province (own d))) (λ p,
       let parts :=
         [attr address_line self; "Ward " +:+ pretty (Ward.ward_no (own w));
          Municipality.name (own m); District.name (own d); Province.name (own p)] in
       Returns (join ", " (List.filter truthy parts)))))))
    (if truthy (attr address_line self) then Returns (attr address_line self)
     else and_then (related_object wards (attr ward self)) (λ w,
            Ward.__str__ municipalities
              {| pk := Some (attr ward self); adding := false; row := w |})).
End BankBranch.

(** ** Person and multi-value fields *)

Module SpecificWork.
Record fields := { code : string; description : string; slug : string }.

Definition slug_field : CharField fields :=
  {| getf := slug;
     setf v r := {| code := code r; description := description r; slug := v |};
     getf_setf _ _ := eq_refl |}.

#[global] Instance model : Model fields := {|
  assign f src dst :=
    let '(Build_fields c d s) := dst in
    if bool_decide (f = "code") then Some (Build_fields (code src) d s)
    else if bool_decide (f = "description") then Some (Build_fields c (description src) s)
    else if bool_decide (f = "slug") then Some (Build_fields c d (slug src))
    else None;
  conflict a b :=
    bool_decide (code a = code b) || bool_decide (slug a = slug b);
|}.

Definition save `{!Environment} (now : datetime) (fresh : uuid)
    (update_fields : option (list string)) (self : Instance fields)
    : Orm (Table fields) (Instance fields) :=
  let* self :=
    (if negb (truthy (attr slug self))
     then unique_slugify self (attr code self) slug_field None "-"
     else ret self) in
  AuditableModel.save now fresh update_fields self.
End SpecificWork.

Module Person.
(** The many-to-many [specific_works] lives in a table of its own and is
    not a column of the person. *)
Record fields_ (D : Type) := {
  post : uuid;
  name : string;
  photo : option string;
  computer_code : string;
  identity_no : string;
  slug : string;
  is_working : bool;
  branch_address : option uuid;
  is_active : bool;
  deleted_at : option D;
}.
Arguments post {D} _.
Arguments name {D} _.
Arguments photo {D} _.
Arguments computer_code {D} _.
Arguments identity_no {D} _.
Arguments slug {D} _.
Arguments is_working {D} _.
Arguments branch_address {D} _.
Arguments is_active {D} _.
Arguments deleted_at {D} _.
Abbreviation fields := (fields_ datetime).

Section methods.
Context `{!Environment}.

Definition slug_field : CharField fields :=
  {| getf := slug;
     setf v r :=
       {| post := post r; name := name r; photo := photo r;
          computer_code := computer_code r; identity_no := identity_no r;
          slug := v; is_working := is_working r;
          branch_address := branch_address r; is_active := is_active r;
          deleted_at := deleted_at r |};
     getf_setf _ _ := eq_refl |}.

Definition set_is_active (v : bool) (r : fields) : fields :=
  {| post := post r; name := name r; photo := photo r;
     computer_code := computer_code r; identity_no := identity_no r;
     slug := slug r; is_working := is_working r;
     branch_address := branch_address r; is_active := v;
     deleted_at := deleted_at r |}.

Definition set_deleted_at (v : option datetime) (r : fields) : fields :=
  {| post := post r; name := name r; photo := photo r;
     computer_code := computer_code r; identity_no := identity_no r;
     slug := slug r; is_working := is_working r;
     branch_address := branch_address r; is_active := is_active r;
     deleted_at := v |}.

#[global] Instance model : Model fields := {|
  assign f src dst :=
    let '(Build_fields_ _ po n ph c i s w b a d) := dst in
    if bool_decide (f = "post") then Some (Build_fields_ _ (post src) n ph c i s w b a d)
    else if bool_decide (f = "name") then Some (Build_fields_ _ po (name src) ph c i s w b a d)
    else if bool_decide (f = "photo") then Some (Build_fields_ _ po n (photo src) c i s w b a d)
    else if bool_decide (f = "computer_code")
      then Some (Build_fields_ _ po n ph (computer_code src) i s w b a d)
    else if bool_decide (f = "identity_no")
      then Some (Build_fields_ _ po n ph c (identity_no src) s w b a d)
    else if bool_decide (f = "slug") then Some (Build_fields_ _ po n ph c i (slug src) w b a d)
    else if bool_decide (f = "is_working")
      then Some (Build_fields_ _ po n ph c i s (is_working src) b a d)
    else if bool_decide (f = "branch_address")
      then Some (Build_fields_ _ po n ph c i s w (branch_address src) a d)
    else if bool_decide (f = "is_active")
      then Some (Build_fields_ _ po n ph c i s w b (is_active src) d)
    else if bool_decide (f = "deleted_at")
      then Some (Build_fields_ _ po n ph c i s w b a (deleted_at src))
    else None;
  conflict a b :=
    bool_decide (identity_no a = identity_no b)
    || bool_decide (slug a = slug b)
    || bool_decide (computer_code a = computer_code b);
|}.

Definition save (now : datetime) (fresh : uuid)
    (update_fields : option (list string)) (self : Instance fields)
    : Orm (Table fields) (Instance fields) :=
  let* self :=
    (if negb (truthy (attr slug self))
     then
       let base :=
         if truthy (attr computer_code self)
         then attr name self +:+ " " +:+ attr computer_code self
         else attr name self in
       unique_slugify self base slug_field None "-"
     else ret self) in
  AuditableModel.save now fresh update_fields self.

(** [now] is the value of [timezone.now()]. *)
Definition soft_delete (now : datetime) (fresh : uuid) (self : Instance fields)
    : Orm (Table fields) (Instance fields) :=
  let self := update_attr (set_is_active false) self in
  let self := update_attr (set_deleted_at (Some now)) self in
  save now fresh (Some ["is_active"; "deleted_at"]) self.

Definition restore (now : datetime) (fresh : uuid) (self : Instance fields)
    : Orm (Table fields) (Instance fields) :=
  let self := update_attr (set_is_active true) self in
  let self := update_attr (set_deleted_at None) self in
  save now fresh (Some ["is_active"; "deleted_at"]) self.

(** Following a foreign key loads the related row; a key without a row
    raises [DoesNotExist]. *)
Definition related {F} (t : Table F) (k : uuid) : outcome (Row F) :=
  match t !! k with
  | Some r => Returns r
  | None => Raises DoesNotExist
  end.

Definition full_address
    (provinces : Table Province.fields) (districts : Table District.fields)
    (municipalities : Table Municipality.fields) (wards : Table Ward.fields)
    (self : Instance fields) : outcome string :=
  match attr branch_address self with
  | Some ward_id =>
      match related wards ward_id with
      | Returns w =>
          match related municipalities (Ward.municipality (own w)) with
          | Returns m =>
              match related districts (Municipality.district (own m)) with
              | Returns d =>
                  match related provinces (District.province (own d)) with
                  | Returns p =>
                      Returns ("Ward " +:+ pretty (Ward.ward_no (own w)) +:+ ", "
                               +:+ Municipality.name (own m) +:+ ", "
                               +:+ District.name (own d) +:+ ", "
                               +:+ Province.name (own p))
                  | Raises e => Raises e
                  | Hangs => Hangs
                  end
              | Raises e => Raises e
              | Hangs => Hangs
              end
          | Raises e => Raises e
          | Hangs => Hangs
          end
      | Raises e => Raises e
      | Hangs => Hangs
      end
  | None => Returns ""
  end.
End methods.
End Person.

Module PersonManager.
Section methods.
Context `{!Environment}.

Definition get_queryset : QuerySet Person.fields := all.

Definition active : QuerySet Person.fields :=
  qs_filter (λ r, Person.is_active (own r)) get_queryset.

(** [q] is [None] or a string; both [None] and the empty string are
    falsy. *)
Definition search (q : option string) : QuerySet Person.fields :=
  let qs := get_queryset in
  match q with
  | None => qs
  | Some q =>
      if negb (truthy q) then qs
      else qs_filter (λ r, icontains (Person.name (own r)) q
                           || icontains (Person.identity_no (own r)) q
                           || icontains (Person.computer_code (own r)) q) qs
  end.
End methods.
End PersonManager.

(** The bank accounts refer to [Person], which the source declares after
    them. *)
Module BankAccount.
Record fields := {
  person : uuid; bank : uuid; branch : option uuid;
  account_number : string; is_primary : bool }.

Definition set_is_primary (v : bool) (r : fields) : fields :=
  {| person := person r; bank := bank r; branch := branch r;
     account_number := account_number r; is_primary := v |}.

#[global] Instance model : Model fields := {|
  assign f src dst :=
    let '(Build_fields p b br a i) := dst in
    if bool_decide (f = "person") then Some (Build_fields (person src) b br a i)
    else if bool_decide (f = "bank") then Some (Build_fields p (bank src) br a i)
    else if bool_decide (f = "branch") then Some (Build_fields p b (branch src) a i)
    else if bool_decide (f = "account_number")
      then Some (Build_fields p b br (account_number src) i)
    else if bool_decide (f = "is_primary") then Some (Build_fields p b br a (is_primary src))
    else None;
  conflict a b :=
    bool_decide (bank a = bank b) && bool_decide (account_number a = account_number b);
|}.

(** [self.person] reads the table of persons, passed as [persons]; the
    related object not being there raises [DoesNotExist]. *)
Definition save `{!Environment} (persons : Table Person.fields) (now : datetime)
    (fresh : uuid) (update_fields : option (list string)) (self : Instance fields)
    : Orm (Table fields) (Instance fields) :=
  (if attr is_primary self
   then match persons !! attr person self with
        | Some _ =>
            qs_update (map_own (set_is_primary false))
              (qs_filter (λ r, bool_decide (person (own r) = attr person self)
                               && is_primary (own r)) all) ;;; ret ()
        | None => raise DoesNotExist
        end
   else ret ()) ;;;
  AuditableModel.save now fresh update_fields self.
End BankAccount.

Module PhoneNumber.
Record fields := { person : uuid; number : string; is_primary : bool }.

Definition set_is_primary (v : bool) (r : fields) : fields :=
  {| person := person r; number := number r; is_primary := v |}.

#[global] Instance model : Model fields := {|
  assign f src dst :=
    let '(Build_fields p n i) := dst in
    if bool_decide (f = "person") then Some (Build_fields (person src) n i)
    else if bool_decide (f = "number") then Some (Build_fields p (number src) i)
    else if bool_decide (f = "is_primary") then Some (Build_fields p n (is_primary src))
    else None;
  conflict a b :=
    bool_decide (person a = person b) && bool_decide (number a = number b);
|}.

(** [self.person] reads the table of persons, passed as [persons]; the
    related object not being there raises [DoesNotExist]. *)
Definition save `{!Environment} (persons : Table Person.fields) (now : datetime)
    (fresh : uuid) (update_fields : option (list string)) (self : Instance fields)
    : Orm (Table fields) (Instance fields) :=
  (if attr is_primary self
   then match persons !! attr person self with
        | Some _ =>
            qs_update (map_own (set_is_primary false))
              (qs_filter (λ r, bool_decide (person (own r) = attr person self)
                               && is_primary (own r)) all) ;;; ret ()
        | None => raise DoesNotExist
        end
   else ret ()) ;;;
  AuditableModel.save now fresh update_fields self.
End PhoneNumber.

Module EmailAddress.
Record fields := { person : uuid; email : string; is_primary : bool }.

Definition set_is_primary (v : bool) (r : fields) : fields :=
  {| person := person r; email := email r; is_primary := v |}.

#[global] Instance model : Model fields := {|
  assign f src dst :=
    let '(Build_fields p e i) := dst in
    if bool_decide (f = "person") then Some (Build_fields (person src) e i)
    else if bool_decide (f = "email") then Some (Build_fields p (email src) i)
    else if bool_decide (f = "is_primary") then Some (Build_fields p e (is_primary src))
    else None;
  conflict a b :=
    bool_decide (person a = person b) && bool_decide (email a = email b);
|}.

(** [self.person] reads the table of persons, passed as [persons]; the
    related object not being there raises [DoesNotExist]. *)
Definition save `{!Environment} (persons : Table Person.fields) (now : datetime)
    (fresh : uuid) (update_fields : option (list string)) (self : Instance fields)
    : Orm (Table fields) (Instance fields) :=
  (if attr is_primary self
   then match persons !! attr person self with
        | Some _ =>
            qs_update (map_own (set_is_primary false))
              (qs_filter (λ r, bool_decide (person (own r) = attr person self)
                               && is_primary (own r)) all) ;;; ret ()
        | None => raise DoesNotExist
        end
   else ret ()) ;;;
  AuditableModel.save now fresh update_fields self.
End EmailAddress.

(** ** admin.py: soft-delete and restore actions *)

(** Models with [is_active] and [deleted_at] columns. *)
Class SoftDeletable `{!Environment} (F : Type) := {
  with_is_active : bool → F → F;
  with_deleted_at : option datetime → F → F;
}.

#[export] Instance Person_soft_deletable `{!Environment} : SoftDeletable Person.fields :=
  {| with_is_active := Person.set_is_active; with_deleted_at := Person.set_deleted_at |}.

Module SoftDeleteAdminActionMixin.
Section actions.
Context `{!Environment} `{!SoftDeletable F}.

(** The value returned is the message shown to the user. *)
Definition action_soft_delete (now : datetime) (queryset : QuerySet F)
    : Orm (Table F) string :=
  let* updated :=
    qs_update (map_own (λ r, with_deleted_at (Some now) (with_is_active false r))) queryset in
  ret ("Soft-deleted " +:+ pretty (updated : nat) +:+ " objects.").

Definition action_restore (queryset : QuerySet F) : Orm (Table F) string :=
  let* updated :=
    qs_update (map_own (λ r, with_deleted_at None (with_is_active true r))) queryset in
  ret ("Restored " +:+ pretty (updated : nat) +:+ " objects.").
End actions.
End SoftDeleteAdminActionMixin.

(** ** The database and the operations of the application *)

Record DB_ (D : Type) := {
  provinces : gmap N (Row_ D Province.fields);
  districts : gmap N (Row_ D District.fields);
  municipalities : gmap N (Row_ D Municipality.fields);
  wards : gmap N (Row_ D Ward.fields);
  posts : gmap N (Row_ D Post.fields);
  banks : gmap N (Row_ D Bank.fields);
  branches : gmap N (Row_ D BankBranch.fields);
  accounts : gmap N (Row_ D BankAccount.fields);
  works : gmap N (Row_ D SpecificWork.fields);
  persons : gmap N (Row_ D (Person.fields_ D));
  phones : gmap N (Row_ D PhoneNumber.fields);
  emails : gmap N (Row_ D EmailAddress.fields);
}.
Arguments provinces {D} _.
Arguments districts {D} _.
Arguments municipalities {D} _.
Arguments wards {D} _.
Arguments posts {D} _.
Arguments banks {D} _.
Arguments branches {D} _.
Arguments accounts {D} _.
Arguments works {D} _.
Arguments persons {D} _.
Arguments phones {D} _.
Arguments emails {D} _.
Abbreviation DB := (DB_ datetime).

Section database.
Context `{!Environment}.

Definition empty_db : DB :=
  {| provinces := ∅;
     districts := ∅;
     municipalities := ∅;
     wards := ∅;
     posts := ∅;
     banks := ∅;
     branches := ∅;
     accounts := ∅;
     works := ∅;
     persons := ∅;
     phones := ∅;
     emails := ∅ |}.

Definition on_provinces (f : Table Province.fields → Table Province.fields) (db : DB) : DB :=
  {| provinces := f (provinces db);
     districts := districts db;
     municipalities := municipalities db;
     wards := wards db;
     posts := posts db;
     banks := banks db;
     branches := branches db;
     accounts := accounts db;
     works := works db;
     persons := persons db;
     phones := phones db;
     emails := emails db |}.

Definition on_districts (f : Table District.fields → Table District.fields) (db : DB) : DB :=
  {| provinces := provinces db;
     districts := f (districts db);
     municipalities := municipalities db;
     wards := wards db;
     posts := posts db;
     banks := banks db;
     branches := branches db;
     accounts := accounts db;
     works := works db;
     persons := persons db;
     phones := phones db;
     emails := emails db |}.

Definition on_municipalities (f : Table Municipality.fields → Table Municipality.fields) (db : DB) : DB :=
  {| provinces := provinces db;
     districts := districts db;
     municipalities := f (municipalities db);
     wards := wards db;
     posts := posts db;
     banks := banks db;
     branches := branches db;
     accounts := accounts db;
     works := works db;
     persons := persons db;
     phones := phones db;
     emails := emails db |}.

Definition on_wards (f : Table Ward.fields → Table Ward.fields) (db : DB) : DB :=
  {| provinces := provinces db;
     districts := districts db;
     municipalities := municipalities db;
     wards := f (wards db);
     posts := posts db;
     banks := banks db;
     branches := branches db;
     accounts := accounts db;
     works := works db;
     persons := persons db;
     phones := phones db;
     emails := emails db |}.

Definition on_posts (f : Table Post.fields → Table Post.fields) (db : DB) : DB :=
  {| provinces := provinces db;
     districts := districts db;
     municipalities := municipalities db;
     wards := wards db;
     posts := f (posts db);
     banks := banks db;
     branches := branches db;
     accounts := accounts db;
     works := works db;
     persons := persons db;
     phones := phones db;
     emails := emails db |}.

Definition on_banks (f : Table Bank.fields → Table Bank.fields) (db : DB) : DB :=
  {| provinces := provinces db;
     districts := districts db;
     municipalities := municipalities db;
     wards := wards db;
     posts := posts db;
     banks := f (banks db);
     branches := branches db;
     accounts := accounts db;
     works := works db;
     persons := persons db;
     phones := phones db;
     emails := emails db |}.

Definition on_branches (f : Table BankBranch.fields → Table BankBranch.fields) (db : DB) : DB :=
  {| provinces := provinces db;
     districts := districts db;
     municipalities := municipalities db;
     wards := wards db;
     posts := posts db;
     banks := banks db;
     branches := f (branches db);
     accounts := accounts db;
     works := works db;
     persons := persons db;
     phones := phones db;
     emails := emails db |}.

Definition on_accounts (f : Table BankAccount.fields → Table BankAccount.fields) (db : DB) : DB :=
  {| provinces := provinces db;
     districts := districts db;
     municipalities := municipalities db;
     wards := wards db;
     posts := posts db;
     banks := banks db;
     branches := branches db;
     accounts := f (accounts db);
     works := works db;
     persons := persons db;
     phones := phones db;
     emails := emails db |}.

Definition on_works (f : Table SpecificWork.fields → Table SpecificWork.fields) (db : DB) : DB :=
  {| provinces := provinces db;
     districts := districts db;
     municipalities := municipalities db;
     wards := wards db;
     posts := posts db;
     banks := banks db;
     branches := branches db;
     accounts := accounts db;
     works := f (works db);
     persons := persons db;
     phones := phones db;
     emails := emails db |}.

Definition on_persons (f : Table Person.fields → Table Person.fields) (db : DB) : DB :=
  {| provinces := provinces db;
     districts := districts db;
     municipalities := municipalities db;
     wards := wards db;
     posts := posts db;
     banks := banks db;
     branches := branches db;
     accounts := accounts db;
     works := works db;
     persons := f (persons db);
     phones := phones db;
     emails := emails db |}.

Definition on_phones (f : Table PhoneNumber.fields → Table PhoneNumber.fields) (db : DB) : DB :=
  {| provinces := provinces db;
     districts := districts db;
     municipalities := municipalities db;
     wards := wards db;
     posts := posts db;
     banks := banks db;
     branches := branches db;
     accounts := accounts db;
     works := works db;
     persons := persons db;
     phones := f (phones db);
     emails := emails db |}.

Definition on_emails (f : Table EmailAddress.fields → Table EmailAddress.fields) (db : DB) : DB :=
  {| provinces := provinces db;
     districts := districts db;
     municipalities := municipalities db;
     wards := wards db;
     posts := posts db;
     banks := banks db;
     branches := branches db;
     accounts := accounts db;
     works := works db;
     persons := persons db;
     phones := phones db;
     emails := f (emails db) |}.

(** The table an operation leaves behind, whether it returned or raised. *)
Definition final {S A} (m : Orm S A) (s : S) : S := (m s).1.

(** One operation of the application: a model's [save()] as the admin
    calls it (no [update_fields]), [Person.soft_delete], [Person.restore],
    or one of the two admin actions. *)
Inductive step : DB → DB → Prop :=
| step_Province_save now fresh self db :
    step db (on_provinces (final (Province.save now fresh None self)) db)
| step_District_save now fresh self db :
    step db (on_districts (final (District.save (provinces db) now fresh None self)) db)
| step_Municipality_save now fresh self db :
    step db (on_municipalities (final (Municipality.save (districts db) now fresh None self)) db)
| step_Ward_save now fresh self db :
    step db (on_wards (final (Ward.save (municipalities db) now fresh None self)) db)
| step_Post_save now fresh self db :
    step db (on_posts (final (Post.save now fresh None self)) db)
| step_Bank_save now fresh self db :
    step db (on_banks (final (Bank.save now fresh None self)) db)
| step_BankBranch_save now fresh self db :
    step db (on_branches (final (BankBranch.save (banks db) now fresh None self)) db)
| step_BankAccount_save now fresh self db :
    step db (on_accounts (final (BankAccount.save (persons db) now fresh None self)) db)
| step_SpecificWork_save now fresh self db :
    step db (on_works (final (SpecificWork.save now fresh None self)) db)
| step_Person_save now fresh self db :
    step db (on_persons (final (Person.save now fresh None self)) db)
| step_PhoneNumber_save now fresh self db :
    step db (on_phones (final (PhoneNumber.save (persons db) now fresh None self)) db)
| step_EmailAddress_save now fresh self db :
    step db (on_emails (final (EmailAddress.save (persons db) now fresh None self)) db)
| step_Person_soft_delete now fresh self db :
    step db (on_persons (final (Person.soft_delete now fresh self)) db)
| step_Person_restore now fresh self db :
    step db (on_persons (final (Person.restore now fresh self)) db)
| step_action_soft_delete now (queryset : QuerySet Person.fields) db :
    step db (on_persons (final (SoftDeleteAdminActionMixin.action_soft_delete now queryset)) db)
| step_action_restore (queryset : QuerySet Person.fields) db :
    step db (on_persons (final (SoftDeleteAdminActionMixin.action_restore queryset)) db).

Inductive reachable : DB → Prop :=
| reachable_empty : reachable empty_db
| reachable_step db db' : reachable db → step db db' → reachable db'.
End database.

(** ** Properties of tables *)

Section properties.
Context `{!Environment} {F : Type}.

(** No two different rows are in conflict. *)
Definition consistent `{!Model F} (t : Table F) : Prop :=
  ∀ k1 k2 r1 r2, t !! k1 = Some r1 → t !! k2 = Some r2 → k1 ≠ k2 →
    conflict (own r1) (own r2) = false.

(** Rows with the same [scope] have different slugs; a scope that is the
    same for all rows makes slugs unique in the whole table. *)
Definition slugs_unique_within {K} (scope : F → K) (slug : F → string)
    (t : Table F) : Prop :=
  ∀ k1 k2 r1 r2, t !! k1 = Some r1 → t !! k2 = Some r2 →
    scope (own r1) = scope (own r2) → slug (own r1) = slug (own r2) → k1 = k2.

Definition slugs_unique (slug : F → string) (t : Table F) : Prop :=
  slugs_unique_within (λ _, ()) slug t.

(** The row under [k] belongs to person [p] and is marked primary. *)
Definition primary_of (person : F → uuid) (is_primary : F → bool)
    (t : Table F) (p k : uuid) : Prop :=
  ∃ r, t !! k = Some r ∧ person (own r) = p ∧ is_primary (own r) = true.

Definition at_most_one_primary (person : F → uuid) (is_primary : F → bool)
    (t : Table F) : Prop :=
  ∀ p k1 k2, primary_of person is_primary t p k1 →
    primary_of person is_primary t p k2 → k1 = k2.

Definition exactly_one_primary (person : F → uuid) (is_primary : F → bool)
    (t : Table F) (p : uuid) : Prop :=
  ∃ k, primary_of person is_primary t p k
       ∧ ∀ k', primary_of person is_primary t p k' → k' = k.

(** Some record of the scoping query set other than the instance itself
    has [slug] in the given column. *)
Definition held_by_other (instance : Instance F) (slug_field : CharField F)
    (queryset : option (QuerySet F)) (t : Table F) (slug : string) : Prop :=
  ∃ k r, t !! k = Some r ∧ default all queryset k r = true
         ∧ pk instance ≠ Some k ∧ getf slug_field (own r) = slug.
End properties.

(** [q] occurs in [field] when case is ignored. *)
Definition ci_substring (q field : string) : Prop :=
  ∃ before after, lower field = before +:+ lower q +:+ after.

(** The same, said without the case folding of the code.  The letters of
    the ASCII alphabet, each in upper case with its lower case: *)
Definition letters : list (ascii * ascii) :=
  combine (String.list_ascii_of_string "ABCDEFGHIJKLMNOPQRSTUVWXYZ")
          (String.list_ascii_of_string "abcdefghijklmnopqrstuvwxyz").

(** Two characters are the same when case is ignored if they are equal or
    are the two cases of one letter. *)
Definition same_char_ignoring_case (a b : ascii) : bool :=
  Ascii.eqb a b
  || existsb (λ p, Ascii.eqb a p.1 && Ascii.eqb b p.2
                   || Ascii.eqb a p.2 && Ascii.eqb b p.1) letters.

Fixpoint same_ignoring_case (s1 s2 : string) : bool :=
  match s1, s2 with
  | "", "" => true
  | String a s1, String b s2 => same_char_ignoring_case a b && same_ignoring_case s1 s2
  | _, _ => false
  end.

(** Some substring of [field] is [q] but for the case of its letters. *)
Definition occurs_ignoring_case (q field : string) : Prop :=
  ∃ before found after,
    field = before +:+ found +:+ after ∧ same_ignoring_case q found = true.

(** The [width] low-order decimal digits of [n], most significant first. *)
Fixpoint digits_onto (width : nat) (n : N) (acc : string) : string :=
  match width with
  | O => acc
  | S width => digits_onto width (n `div` 10)%N (String (pretty_N_char (n `mod` 10)%N) acc)
  end.
Definition digits (width : nat) (n : N) : string := digits_onto width n "".

(** ** Notions used in the statements *)

(** Conflict between rows does not depend on their order. *)
Class ModelLaws (F : Type) `{!Model F} := {
  conflict_sym : ∀ a b : F, conflict a b = conflict b a;
}.

(** The [n]-th slug the loop of [unique_slugify] tries after the base
    slug. *)
Definition candidate (original_slug separator : string) (n : N) : string :=
  original_slug +:+ separator +:+ pretty n.

Section notions.
Context `{!Environment} {F : Type}.
Implicit Types (t : Table F) (r : Row F) (k p : uuid) (self : Instance F).

(** The only thing an operation did to the table, if anything, was to store
    under [k] a row that is in conflict with no other row. *)
Definition wrote `{!Model F} k t t' : Prop :=
  t' = t ∨ ∃ r, t' = <[k:=r]> t ∧ violates k r t = false.

(** The slugs of the rows of a table, one for each row. *)
Definition slugs_of (slug_field : CharField F) t : list string :=
  (λ kr, getf slug_field (own kr.2)) <$> map_to_list t.

(** What a [save] method does to the object before it hands it to
    [AuditableModel.save]: the table is not written and the object keeps
    its key. *)
Definition prelude self (m : Orm (Table F) (Instance F)) : Prop :=
  ∀ t, (m t).1 = t ∧ ∀ self1, (m t).2 = Returns self1 → pk self1 = pk self.

(** The three [save] methods that keep one primary record per person have
    the same shape; their properties are proved once, for any model with a
    person and a primary flag. *)
Variables (person : F → uuid) (is_primary : F → bool)
          (set_is_primary : bool → F → F).

Definition primary_save `{!Model F} (persons : Table Person.fields) (now : datetime)
    (fresh : uuid) (update_fields : option (list string)) self
    : Orm (Table F) (Instance F) :=
  (if attr is_primary self
   then match persons !! attr person self with
        | Some _ =>
            qs_update (map_own (set_is_primary false))
              (qs_filter (λ r, bool_decide (person (own r) = attr person self)
                               && is_primary (own r)) all) ;;; ret ()
        | None => raise DoesNotExist
        end
   else ret ()) ;;;
  AuditableModel.save now fresh update_fields self.

(** The table after the primary records of person [p] were cleared. *)
Definition cleared p t : Table F :=
  (qs_update (map_own (set_is_primary false))
     (qs_filter (λ r, bool_decide (person (own r) = p) && is_primary (own r)) all) t).1.

(** What holds when the save of a primary record returns. *)
Definition saved_as_only_primary (update_fields : option (list string))
    self t' self' : Prop :=
  attr is_primary self' = true
  ∧ attr person self' = attr person self
  ∧ (∀ k r, t' !! k = Some r → pk self' ≠ Some k →
            person (own r) = attr person self → is_primary (own r) = false)
  ∧ (update_fields = None →
     ∃ k r, pk self' = Some k ∧ t' !! k = Some r
            ∧ person (own r) = attr person self ∧ is_primary (own r) = true).
End notions.

Section database_notions.
Context `{!Environment}.
Implicit Types (t : Table Person.fields) (self : Instance Person.fields) (k : uuid).

(** The uniqueness declarations of the nine models with a slug hold. *)
Definition db_consistent (db : DB) : Prop :=
  consistent (provinces db) ∧ consistent (districts db)
  ∧ consistent (municipalities db) ∧ consistent (wards db)
  ∧ consistent (posts db) ∧ consistent (banks db)
  ∧ consistent (branches db) ∧ consistent (works db)
  ∧ consistent (persons db).

Definition db_at_most_one_primary (db : DB) : Prop :=
  at_most_one_primary BankAccount.person BankAccount.is_primary (accounts db)
  ∧ at_most_one_primary PhoneNumber.person PhoneNumber.is_primary (phones db)
  ∧ at_most_one_primary EmailAddress.person EmailAddress.is_primary (emails db).

(** Every primary record of [t'] is a record of [t], as it is in [t]: going
    from [t] to [t'] made no record primary. *)
Definition makes_no_primary {F} (is_primary : F → bool) (t t' : Table F) : Prop :=
  ∀ k r', t' !! k = Some r' → is_primary (own r') = true → t !! k = Some r'.

(** [dst] with the soft-delete columns of [src]. *)
Definition with_flags (src dst : Person.fields) : Person.fields :=
  Person.set_deleted_at (Person.deleted_at src)
    (Person.set_is_active (Person.is_active src) dst).

(** The row that saving the soft-delete columns of [self] leaves under its
    key when [stored] was there. *)
Definition flagged self (stored : Row Person.fields) : Row Person.fields :=
  set_updated_at_nepali (gregorian_to_nepali_string (updated_at (row self)))
    (map_own (with_flags (own (row self))) stored).

(** The columns of a person other than the soft-delete flags and
    [updated_at_nepali]. *)
Definition unchanged_outside_flags (stored r' : Row Person.fields) : Prop :=
  Person.post (own r') = Person.post (own stored)
  ∧ Person.name (own r') = Person.name (own stored)
  ∧ Person.photo (own r') = Person.photo (own stored)
  ∧ Person.computer_code (own r') = Person.computer_code (own stored)
  ∧ Person.identity_no (own r') = Person.identity_no (own stored)
  ∧ Person.slug (own r') = Person.slug (own stored)
  ∧ Person.is_working (own r') = Person.is_working (own stored)
  ∧ Person.branch_address (own r') = Person.branch_address (own stored)
  ∧ created_at r' = created_at stored
  ∧ updated_at r' = updated_at stored
  ∧ created_at_nepali r' = created_at_nepali stored
  ∧ created_by r' = created_by stored.

(** What [Person.soft_delete] and [Person.restore] leave of a stored
    person. *)
Definition flags_frame self k t (stored : Row Person.fields) t' : Prop :=
  (∀ k', k' ≠ k → t' !! k' = t !! k')
  ∧ ∃ r', t' !! k = Some r'
      ∧ unchanged_outside_flags stored r'
      ∧ (updated_at_nepali r' = updated_at_nepali stored
         ∨ updated_at_nepali r' = gregorian_to_nepali_string (updated_at (row self)))
      ∧ (updated_at_nepali stored = gregorian_to_nepali_string (updated_at (row self)) →
         updated_at_nepali r' = updated_at_nepali stored).
End database_notions.

(** ** A concrete environment

    Wall-clock records in a single time zone, an ASCII [slugify], and a
    Bikram Sambat conversion that knows one date and raises on the others.
    It serves to run the definitions on concrete data. *)

Module Demo.
Record clock := {
  year : N; month : N; day : N; hour : N; minute : N; second : N; aware : bool }.

Definition hms (c : clock) : string :=
  digits 2 (hour c) +:+ ":" +:+ digits 2 (minute c) +:+ ":" +:+ digits 2 (second c).
Definition ymd (c : clock) : string :=
  digits 4 (year c) +:+ "-" +:+ digits 2 (month c) +:+ "-" +:+ digits 2 (day c).

Definition clock_strftime (c : clock) (fmt : string) : string :=
  if bool_decide (fmt = "%H:%M:%S") then hms c
  else if bool_decide (fmt = "%Y-%m-%d %H:%M:%S") then ymd c +:+ " " +:+ hms c
  else fmt.

Definition to_bikram_sambat (c : clock) : option nepali_date :=
  if bool_decide ((year c, month c, day c) = (2024, 1, 1)%N)
  then Some {| nd_year := 2080; nd_month := 9; nd_day := 16 |}
  else None.

Definition is_word (c : ascii) : bool :=
  let n := Ascii.N_of_ascii c in
  ((48 <=? n) && (n <=? 57) || (97 <=? n) && (n <=? 122) || (n =? 95))%N.
Definition is_gap (c : ascii) : bool :=
  bool_decide (c = "-"%char) || Ascii.is_space c.

(** Lower-case, and drop what is neither a word character, white space
    nor a hyphen. *)
Fixpoint keep_slug_chars (s : string) : string :=
  match s with
  | "" => ""
  | String c s =>
      let c := lower_char c in
      if is_word c || is_gap c then String c (keep_slug_chars s) else keep_slug_chars s
  end.

(** Every run of white space and hyphens becomes one hyphen. *)
Fixpoint collapse_gaps (in_gap : bool) (s : string) : string :=
  match s with
  | "" => ""
  | String c s =>
      if is_gap c
      then (if in_gap then collapse_gaps true s else String "-"%char (collapse_gaps true s))
      else String c (collapse_gaps false s)
  end.

Fixpoint lstrip (s : string) : string :=
  match s with
  | String c s' =>
      if bool_decide (c = "-"%char) || bool_decide (c = "_"%char) then lstrip s' else s
  | "" => ""
  end.

Definition ascii_slugify (s : string) : string :=
  String.rev (lstrip (String.rev (lstrip (collapse_gaps false (keep_slug_chars s))))).

Definition env (nepali : bool) : Environment := {|
  datetime := clock;
  is_naive c := negb (aware c);
  make_aware c :=
    {| year := year c; month := month c; day := day c; hour := hour c;
       minute := minute c; second := second c; aware := true |};
  localtime c := c;
  strftime := clock_strftime;
  _NEPALI_AVAILABLE := nepali;
  from_datetime_date := to_bikram_sambat;
  slugify := ascii_slugify;
|}.

Definition at_noon (d : N) : clock :=
  {| year := 2024; month := 1; day := d; hour := 12; minute := 0; second := 0;
     aware := true |}.

(** An object as the model's constructor leaves it. *)
Definition new `{!Environment} {F} (id : uuid) (f : F) : Instance F :=
  {| pk := Some id; adding := true;
     row := {| created_at := None; updated_at := None; created_at_nepali := "";
               updated_at_nepali := ""; created_by := None; own := f |} |}.

(** The object [Model.objects.get(pk=id)] returns, if there is one. *)
Definition get `{!Environment} {F} (id : uuid) (t : Table F) : option (Instance F) :=
  r ← t !! id; Some {| pk := Some id; adding := false; row := r |}.
End Demo.

(** ** Concrete data

    States built by running the operations in the concrete environment. *)

Module Sample.
Definition E : Environment := Demo.env false.
Definition E_nepali : Environment := Demo.env true.
#[local] Existing Instance E.

Fixpoint repeated (n : nat) (c : ascii) : string :=
  match n with
  | O => ""
  | S n => String c (repeated n c)
  end.

Definition hari : Person.fields :=
  {| Person.post := 7; Person.name := "Hari Sharma"; Person.photo := None;
     Person.computer_code := "1001"; Person.identity_no := "NP-1";
     Person.slug := ""; Person.is_working := true;
     Person.branch_address := Some 40%N; Person.is_active := true;
     Person.deleted_at := None |}.

(** A person without a branch address. *)
Definition nowhere : Person.fields :=
  {| Person.post := 7; Person.name := "Sita Rai"; Person.photo := None;
     Person.computer_code := "1002"; Person.identity_no := "NP-2";
     Person.slug := ""; Person.is_working := true;
     Person.branch_address := None; Person.is_active := true;
     Person.deleted_at := None |}.

Definition phone (number : string) (primary : bool) : PhoneNumber.fields :=
  {| PhoneNumber.person := 1; PhoneNumber.number := number;
     PhoneNumber.is_primary := primary |}.

(** Day 1: a person is added. *)
Definition db1 : DB :=
  on_persons (final (Person.save (Demo.at_noon 1) 0 None (Demo.new 1 hari))) empty_db.

(** The person is given a phone number that is not marked primary. *)
Definition db2 : DB :=
  on_phones (final (PhoneNumber.save (persons db1) (Demo.at_noon 1) 0 None
                      (Demo.new 10 (phone "9800000000" false)))) db1.

(** Two more phone numbers, both saved as primary. *)
Definition db3 : DB :=
  on_phones (final (PhoneNumber.save (persons db2) (Demo.at_noon 1) 0 None
                      (Demo.new 11 (phone "9811111111" true)))) db2.
Definition db4 : DB :=
  on_phones (final (PhoneNumber.save (persons db3) (Demo.at_noon 1) 0 None
                      (Demo.new 12 (phone "9822222222" true)))) db3.

(** The person as loaded on day 1, and the state after the person was
    saved again on day 2. *)
Definition hari_loaded : Instance Person.fields :=
  default (Demo.new 1 hari) (Demo.get 1 (persons db1)).
Definition db5 : DB :=
  on_persons (final (Person.save (Demo.at_noon 2) 0 None hari_loaded)) db4.
Definition hari_row : Row Person.fields :=
  default (row hari_loaded) (persons db5 !! 1%N).

(** The address hierarchy and a person's ward. *)
Definition bagmati : Table Province.fields :=
  final (Province.save (Demo.at_noon 1) 0 None
           (Demo.new 20 {| Province.name := "Bagmati"; Province.slug := "" |})) ∅.
Definition district (name : string) : District.fields :=
  {| District.province := 20; District.name := name; District.slug := "" |}.
Definition kathmandu : Table District.fields :=
  final (District.save bagmati (Demo.at_noon 1) 0 None
           (Demo.new 30 (district "Kathmandu"))) ∅.
Definition kmc : Table Municipality.fields :=
  final (Municipality.save kathmandu (Demo.at_noon 1) 0 None
           (Demo.new 35 {| Municipality.district := 30;
                           Municipality.name := "Kathmandu Metropolitan City";
                           Municipality.slug := "" |})) ∅.
Definition ward5 : Table Ward.fields :=
  final (Ward.save kmc (Demo.at_noon 1) 0 None
           (Demo.new 40 {| Ward.municipality := 35; Ward.ward_no := 5;
                           Ward.slug := "" |})) ∅.
Definition db5_province : DB :=
  on_provinces (final (Province.save (Demo.at_noon 1) 0 None
                         (Demo.new 20 {| Province.name := "Bagmati"; Province.slug := "" |})))
    db5.
Definition db5_district : DB :=
  on_districts (final (District.save (provinces db5_province) (Demo.at_noon 1) 0 None
                         (Demo.new 30 (district "Kathmandu")))) db5_province.
Definition db6 : DB :=
  on_districts (final (District.save (provinces db5_district) (Demo.at_noon 1) 0 None
                         (Demo.new 31 (district "kathmandu")))) db5_district.

(** Two banks whose names, 180 characters each, differ in case only. *)
Definition bank (name : string) : Bank.fields :=
  {| Bank.name := name; Bank.logo := None; Bank.code := None; Bank.slug := "" |}.
Definition banks1 : Table Bank.fields :=
  final (Bank.save (Demo.at_noon 1) 0 None (Demo.new 50 (bank (repeated 180 "A")))) ∅.
Definition banks2 : Table Bank.fields :=
  final (Bank.save (Demo.at_noon 1) 0 None (Demo.new 51 (bank (repeated 180 "a")))) banks1.

(** The person of [db5], as [Person.objects.get] returns it. *)
Definition hari_reloaded : Instance Person.fields :=
  {| pk := Some 1%N; adding := false; row := hari_row |}.

Definition phone12 : Instance PhoneNumber.fields :=
  Demo.new 12 (phone "9822222222" true).
Definition phone12_saved : Instance PhoneNumber.fields :=
  match (PhoneNumber.save (persons db3) (Demo.at_noon 1) 0 None phone12 (phones db3)).2 with
  | Returns self' => self'
  | _ => phone12
  end.
End Sample.

(** The claims that the code decides otherwise, as they are stated. *)

(** Every person has exactly one primary bank account, phone number and
    email address. *)
Definition every_person_has_one_primary `{!Environment} (db : DB) : Prop :=
  ∀ p, is_Some (persons db !! p) →
    exactly_one_primary BankAccount.person BankAccount.is_primary (accounts db) p
    ∧ exactly_one_primary PhoneNumber.person PhoneNumber.is_primary (phones db) p
    ∧ exactly_one_primary EmailAddress.person EmailAddress.is_primary (emails db) p.

(** Whenever the save of a phone number with [is_primary = True] returns,
    every other number of the person is not primary and the number stored
    for the object is. *)
Definition every_primary_save_stores_primary `{!Environment} : Prop :=
  ∀ persons now fresh update_fields (self : Instance PhoneNumber.fields) t t' self',
    attr PhoneNumber.is_primary self = true →
    PhoneNumber.save persons now fresh update_fields self t = (t', Returns self') →
    (∀ k r, t' !! k = Some r → pk self' ≠ Some k →
            PhoneNumber.person (own r) = attr PhoneNumber.person self →
            PhoneNumber.is_primary (own r) = false)
    ∧ ∃ k r, pk self' = Some k ∧ t' !! k = Some r
             ∧ PhoneNumber.is_primary (own r) = true.

(** [Person.soft_delete] leaves every stored column other than [is_active]
    and [deleted_at] as it was. *)
Definition soft_delete_changes_only_flags `{!Environment} : Prop :=
  ∀ db, reachable db →
  ∀ now fresh (self : Instance Person.fields) k stored,
    pk self = Some k → persons db !! k = Some stored →
    ∃ r', final (Person.soft_delete now fresh self) (persons db) !! k = Some r'
          ∧ unchanged_outside_flags stored r'
          ∧ updated_at_nepali r' = updated_at_nepali stored.

(** ** Notions used in the further properties *)

Section full_save_notions.
Context `{!Environment} `{!Model F}.
Implicit Types (t : Table F) (self : Instance F) (k : uuid).

(** A full save of [self] writes by INSERT: the object is being added, or no
    row has its key. *)
Definition inserting (fresh : uuid) self t : bool :=
  adding self || bool_decide (t !! default fresh (pk self) = None).

(** The row of [self] with the stamps of [auto_now] and, on INSERT,
    [auto_now_add]. *)
Definition base_row (now : datetime) (fresh : uuid) self t : Row F :=
  set_updated_at (Some now)
    (if inserting fresh self t then set_created_at (Some now) (row self) else row self).

(** The database refuses the row: the object is being added under a key
    that has a row, or a uniqueness declaration is violated. *)
Definition blocked (fresh : uuid) self t : bool :=
  adding self && bool_decide (is_Some (t !! default fresh (pk self)))
  || violates (default fresh (pk self)) (row self) t.

(** The row that a full [AuditableModel.save] leaves in the table. *)
Definition saved_row (now : datetime) (fresh : uuid) self t : Row F :=
  let r := base_row now fresh self t in
  set_updated_at_nepali (gregorian_to_nepali_string (Some now))
    (if bool_decide (pk self = None)
     then set_created_at_nepali (gregorian_to_nepali_string (created_at r)) r
     else r).
End full_save_notions.

Section sync_notions.
Context `{!Environment}.

(** The stored Nepali rendering of [updated_at] is that of the stored
    [updated_at]. *)
Definition in_sync {F} (r : Row F) : Prop :=
  updated_at_nepali r = gregorian_to_nepali_string (updated_at r).

Definition table_in_sync {F} (t : Table F) : Prop :=
  ∀ k r, t !! k = Some r → in_sync r.

(** All tables but that of persons. *)
Definition db_in_sync (db : DB) : Prop :=
  table_in_sync (provinces db) ∧ table_in_sync (districts db)
  ∧ table_in_sync (municipalities db) ∧ table_in_sync (wards db)
  ∧ table_in_sync (posts db) ∧ table_in_sync (banks db)
  ∧ table_in_sync (branches db) ∧ table_in_sync (accounts db)
  ∧ table_in_sync (works db) ∧ table_in_sync (phones db)
  ∧ table_in_sync (emails db).
End sync_notions.


Section action_notions.
Context `{!Environment}.

(** The columns of a person other than [is_active] and [deleted_at]. *)
Definition unchanged_but_flags (stored r' : Row Person.fields) : Prop :=
  unchanged_outside_flags stored r' ∧ updated_at_nepali r' = updated_at_nepali stored.

(** A query set that selects by primary key only, as the selection of rows
    in a list does. *)
Definition selects_by_key (queryset : QuerySet Person.fields) : Prop :=
  ∀ k r r', queryset k r = queryset k r'.
End action_notions.

Section address_notions.
Context `{!Environment}.

(** The ward [ward_id] and the municipality, district and province above it
    are found by following the foreign keys. *)
Definition address_chain
    (provinces : Table Province.fields) (districts : Table District.fields)
    (municipalities : Table Municipality.fields) (wards : Table Ward.fields)
    (ward_id : uuid) (w : Row Ward.fields) (m : Row Municipality.fields)
    (d : Row District.fields) (p : Row Province.fields) : Prop :=
  wards !! ward_id = Some w
  ∧ municipalities !! Ward.municipality (own w) = Some m
  ∧ districts !! Municipality.district (own m) = Some d
  ∧ provinces !! District.province (own d) = Some p.
End address_notions.

(** ** More concrete data *)

Module Cases.
Import Sample.
#[local] Existing Instance Sample.E.

(** What an operation returns in a state, [d] if it does not return. *)
Definition returned {S A} (m : Orm S A) (s : S) (d : A) : A :=
  match (m s).2 with
  | Returns a => a
  | _ => d
  end.

(** A first phone number, not primary, saved into an empty table. *)
Definition phone10 : Instance PhoneNumber.fields := Demo.new 10 (phone "9800000000" false).
Definition phones1 : Table PhoneNumber.fields :=
  final (AuditableModel.save (F:=PhoneNumber.fields) (Demo.at_noon 1) 0 None phone10) ∅.
Definition phone10_saved : Instance PhoneNumber.fields :=
  returned (AuditableModel.save (F:=PhoneNumber.fields) (Demo.at_noon 1) 0 None phone10) ∅ phone10.

(** A second district of the province, of the same name but for case, and
    one that comes with the slug the first has. *)
Definition district31 : Instance District.fields := Demo.new 31 (district "kathmandu").
Definition district32 : Instance District.fields :=
  Demo.new 32 {| District.province := 20; District.name := "Kathmandu Valley";
                 District.slug := "kathmandu" |}.

(** The selection of the person with key 1 in the list of persons. *)
Definition select_1 : QuerySet Person.fields := λ k _, bool_decide (k = 1%N).

(** A branch in ward 5, one in a ward that is not there, and one without
    an address line. *)
Definition branch (ward : uuid) (address_line : string) : Instance BankBranch.fields :=
  Demo.new 60 {| BankBranch.bank := 50; BankBranch.name := "New Road";
                 BankBranch.ward := ward; BankBranch.address_line := address_line;
                 BankBranch.slug := "" |}.

(** The phone numbers of [db4] as they are stored. *)
Definition phone_row (k : uuid) : Row PhoneNumber.fields :=
  default (row phone10) (phones db4 !! k).
Definition phone11_row : Row PhoneNumber.fields :=
  default (row phone10) (phones db3 !! 11%N).

(** A primary number that repeats the number stored under key 10. *)
Definition phone13 : Instance PhoneNumber.fields := Demo.new 13 (phone "9800000000" true).

(** The primary number of [db4], as loaded, with another number typed in. *)
Definition phone12_edited : Instance PhoneNumber.fields :=
  {| pk := Some 12%N; adding := false;
     row := map_own (λ _, phone "9833333333" true) (phone_row 12) |}.

Definition sita : Instance Person.fields := Demo.new 2 nowhere.

(** A second person is added to [db5]. *)
Definition db7 : DB :=
  on_persons (final (Person.save (Demo.at_noon 2) 0 None sita)) db5.
Definition sita_saved : Instance Person.fields :=
  returned (Person.save (Demo.at_noon 2) 0 None sita) (persons db5) sita.

(** The first phone number, as loaded, given to the second person and
    marked primary in memory. *)
Definition phone10_moved : Instance PhoneNumber.fields :=
  {| pk := Some 10%N; adding := false;
     row := map_own (λ _, {| PhoneNumber.person := 2; PhoneNumber.number := "9800000000";
                             PhoneNumber.is_primary := true |}) (phone_row 10) |}.

(** The second district saved, and the edited primary number saved with
    its number alone. *)
Definition district31_saved : Instance District.fields :=
  returned (District.save bagmati (Demo.at_noon 1) 0 None district31) kathmandu district31.
Definition phones_edited : Table PhoneNumber.fields :=
  final (PhoneNumber.save (persons db4) (Demo.at_noon 2) 0 (Some ["number"]) phone12_edited)
    (phones db4).
Definition phone12_edited_saved : Instance PhoneNumber.fields :=
  returned (PhoneNumber.save (persons db4) (Demo.at_noon 2) 0 (Some ["number"])
              phone12_edited) (phones db4) phone12_edited.
End Cases.
(** * Proofs *)

(** ** Strings *)

Lemma app_nil_l (s : string) : "" +:+ s = s.
Proof. reflexivity. Qed.

Lemma app_cons (c : ascii) (s1 s2 : string) : String c s1 +:+ s2 = String c (s1 +:+ s2).
Proof. reflexivity. Qed.

Lemma app_nil_r (s : string) : s +:+ "" = s.
Proof. induction s as [|c s IH]; [done|]. by rewrite app_cons, IH. Qed.

Lemma app_assoc_s (s1 s2 s3 : string) : (s1 +:+ s2) +:+ s3 = s1 +:+ s2 +:+ s3.
Proof. induction s1 as [|c s1 IH]; [done|]. by rewrite !app_cons, IH. Qed.

Lemma length_app_s (s1 s2 : string) :
  String.length (s1 +:+ s2) = String.length s1 + String.length s2.
Proof. induction s1 as [|c s1 IH]; [done|]. rewrite app_cons. simpl. by rewrite IH. Qed.

Lemma length_slice_to (n : nat) (s : string) : String.length (slice_to n s) ≤ n.
Proof.
  revert s. induction n as [|n IH]; intros [|c s]; simpl; try lia.
  specialize (IH s). lia.
Qed.

Lemma slice_to_short (n : nat) (s : string) : String.length s ≤ n → slice_to n s = s.
Proof.
  revert s. induction n as [|n IH]; intros [|c s]; simpl; intros Hlen; try done; try lia.
  by rewrite IH by lia.
Qed.

Lemma starts_with_spec (p s : string) :
  starts_with p s = true ↔ ∃ rest, s = p +:+ rest.
Proof.
  revert s. induction p as [|a p IH]; intros s.
  - split; [intros _; by exists s|by destruct s].
  - destruct s as [|b s]; simpl.
    + split; [done|]. intros [rest Hrest]. by rewrite app_cons in Hrest.
    + rewrite andb_true_iff, bool_decide_eq_true, IH. split.
      * intros [-> [rest ->]]. exists rest. by rewrite app_cons.
      * intros [rest Hrest]. rewrite app_cons in Hrest.
        injection Hrest as -> ->. eauto.
Qed.

Lemma contains_spec (needle hay : string) :
  contains needle hay = true ↔ ∃ before after, hay = before +:+ needle +:+ after.
Proof.
  induction hay as [|c hay IH].
  - simpl. rewrite orb_false_r, starts_with_spec. split.
    + intros [rest ->]. by exists "", rest.
    + intros [[|b before] [after Hafter]].
      * eauto.
      * by rewrite app_cons in Hafter.
  - cbn [contains]. rewrite orb_true_iff, starts_with_spec, IH. split.
    + intros [[rest ->]|(before & after & ->)].
      * by exists "", rest.
      * exists (String c before), after. by rewrite app_cons.
    + intros [[|b before] [after Hafter]].
      * left. eauto.
      * right. rewrite app_cons in Hafter. injection Hafter as -> ->. eauto.
Qed.

Lemma icontains_spec (field q : string) : icontains field q = true ↔ ci_substring q field.
Proof. apply contains_spec. Qed.

Lemma slice_to_prefix (n : nat) (s : string) : ∃ rest, s = slice_to n s +:+ rest.
Proof.
  revert s. induction n as [|n IH]; intros [|c s]; simpl; [by exists ""|by eexists|by exists ""|].
  destruct (IH s) as [rest Hrest]. exists rest. by rewrite app_cons, <-Hrest.
Qed.

Lemma length_slice_to_min (n : nat) (s : string) :
  String.length (slice_to n s) = Nat.min n (String.length s).
Proof.
  revert s. induction n as [|n IH]; intros [|c s]; simpl; try done. by rewrite IH.
Qed.

(** Case folding against the table of letters, checked on every pair of
    characters. *)
Lemma same_char_ignoring_case_spec (a b : ascii) :
  same_char_ignoring_case a b = true ↔ lower_char a = lower_char b.
Proof.
  pose (every := map ascii_of_nat (seq 0 256)).
  assert (∀ c, In c every) as Hevery.
  { intros c. apply in_map_iff. exists (nat_of_ascii c).
    split; [apply ascii_nat_embedding|]. apply in_seq.
    pose proof (nat_ascii_bounded c). lia. }
  assert (forallb (λ a, forallb (λ b,
            Bool.eqb (same_char_ignoring_case a b)
                     (Ascii.eqb (lower_char a) (lower_char b))) every) every = true)
    as Hall by (vm_compute; reflexivity).
  rewrite forallb_forall in Hall. specialize (Hall a (Hevery a)).
  rewrite forallb_forall in Hall. specialize (Hall b (Hevery b)).
  apply Bool.eqb_prop in Hall. rewrite Hall. apply Ascii.eqb_eq.
Qed.

Lemma same_ignoring_case_spec (s1 s2 : string) :
  same_ignoring_case s1 s2 = true ↔ lower s1 = lower s2.
Proof.
  revert s2. induction s1 as [|a s1 IH]; intros [|b s2]; simpl; try done.
  rewrite andb_true_iff, same_char_ignoring_case_spec, IH.
  split; [by intros [-> ->]|by intros [= -> ->]].
Qed.

Lemma lower_app (s1 s2 : string) : lower (s1 +:+ s2) = lower s1 +:+ lower s2.
Proof. induction s1 as [|c s1 IH]; [done|]. by rewrite !app_cons; simpl; rewrite IH, app_cons. Qed.

Lemma lower_app_inv (s x y : string) :
  lower s = x +:+ y → ∃ s1 s2, s = s1 +:+ s2 ∧ lower s1 = x ∧ lower s2 = y.
Proof.
  revert s. induction x as [|c x IH]; intros s Heq.
  - by exists "", s.
  - destruct s as [|d s]; [done|]. rewrite app_cons in Heq. simpl in Heq.
    injection Heq as Hc Hrest. destruct (IH s Hrest) as (s1 & s2 & -> & <- & <-).
    exists (String d s1), s2. by rewrite app_cons; simpl; rewrite Hc.
Qed.

Lemma occurs_ignoring_case_spec (q field : string) :
  occurs_ignoring_case q field ↔ ci_substring q field.
Proof.
  split.
  - intros (before & found & after & -> & Hsame%same_ignoring_case_spec).
    exists (lower before), (lower after). by rewrite !lower_app, Hsame.
  - intros (x & y & Heq).
    apply lower_app_inv in Heq as (before & rest & -> & <- & Hrest).
    apply lower_app_inv in Hrest as (found & after & -> & Hfound & <-).
    exists before, found, after. split; [done|]. by apply same_ignoring_case_spec.
Qed.

(** ** Decimal digits *)

Lemma zeros_snoc (n : nat) (s : string) : zeros n +:+ String "0" s = zeros (S n) +:+ s.
Proof. induction n as [|n IH]; [done|]. simpl. by rewrite !app_cons, IH. Qed.

Lemma digits_onto_0 (w : nat) (acc : string) : digits_onto w 0 acc = zeros w +:+ acc.
Proof.
  revert acc. induction w as [|w IH]; intros acc; [done|].
  cbn [digits_onto]. change (0 `div` 10)%N with 0%N. change (0 `mod` 10)%N with 0%N.
  rewrite IH. apply zeros_snoc.
Qed.

Lemma pretty_N_go_length (x : N) (s : string) :
  String.length s ≤ String.length (pretty_N_go x s).
Proof.
  revert s. induction (N.lt_wf_0 x) as [x _ IH]; intros s.
  destruct (decide (x = 0%N)) as [->|Hx]; [by rewrite pretty_N_go_0|].
  rewrite pretty_N_go_step by lia.
  etrans; [|apply IH, N.div_lt; lia]. simpl. lia.
Qed.

Lemma digits_onto_pretty (w : nat) (x : N) (s : string) :
  (x < 10 ^ N.of_nat w)%N →
  digits_onto w x s
  = zeros (w - (String.length (pretty_N_go x s) - String.length s)) +:+ pretty_N_go x s.
Proof.
  revert x s. induction w as [|w IH]; intros x s Hx.
  - assert (x = 0%N) as -> by (simpl in Hx; lia). by rewrite pretty_N_go_0.
  - destruct (decide (x = 0%N)) as [->|Hpos].
    + rewrite digits_onto_0, pretty_N_go_0. by replace (S w - _) with (S w) by lia.
    + cbn [digits_onto]. rewrite (pretty_N_go_step x) by lia.
      rewrite IH.
      * pose proof (pretty_N_go_length (x `div` 10)
                      (String (pretty_N_char (x `mod` 10)) s)) as Hlen.
        simpl in Hlen. f_equal. f_equal. simpl. lia.
      * apply N.Div0.div_lt_upper_bound.
        replace (N.of_nat (S w)) with (N.succ (N.of_nat w)) in Hx by lia.
        rewrite N.pow_succ_r' in Hx. lia.
Qed.

Lemma pretty_N_length_pos (n : N) : 0 < String.length (pretty n).
Proof.
  unfold pretty, pretty_N. destruct (decide (n = 0%N)) as [->|Hn]; [simpl; lia|].
  rewrite pretty_N_go_step by lia.
  pose proof (pretty_N_go_length (n `div` 10) (String (pretty_N_char (n `mod` 10)) "")) as Hlen.
  simpl in Hlen. lia.
Qed.

(** Zero padding to [w] places gives the [w] decimal digits of a number that
    has no more than [w] of them. *)
Lemma format_d_digits (w : nat) (n : N) :
  0 < w → (n < 10 ^ N.of_nat w)%N → format_d w n = digits w n.
Proof.
  intros Hw Hn. unfold format_d, digits, pretty, pretty_N.
  destruct (decide (n = 0%N)) as [->|Hpos].
  - rewrite digits_onto_0, app_nil_r. destruct w as [|w]; [lia|].
    simpl. replace (w - 0) with w by lia.
    change "0" with (String "0"%char ""). by rewrite zeros_snoc, app_nil_r.
  - rewrite digits_onto_pretty by done. simpl. by rewrite Nat.sub_0_r.
Qed.

Lemma length_digits_onto (w : nat) (n : N) (acc : string) :
  String.length (digits_onto w n acc) = w + String.length acc.
Proof.
  revert n acc. induction w as [|w IH]; intros n acc; [done|].
  cbn [digits_onto]. rewrite IH. simpl. lia.
Qed.

(** ** Display dates *)

(** C6. For a datetime [dt] (not [None]), with [local_dt] its local time:
    when [nepali_datetime] is available and converts the local date to the
    Bikram Sambat date [nd], the result is [nd] written year-month-day with
    zero padding to 4, 2 and 2 places (exactly the digits "YYYY-MM-DD" for a
    year below 10000 and month and day below 100), a space, and the local
    time in the format "%H:%M:%S"; when the package is not available or the
    conversion raises, the result is the local datetime in the fixed format
    "%Y-%m-%d %H:%M:%S". *)
Theorem gregorian_to_nepali_string_spec `{!Environment} (dt : datetime) :
  let local_dt := localtime (if is_naive dt then make_aware dt else dt) in
  (∀ nd, _NEPALI_AVAILABLE = true → from_datetime_date local_dt = Some nd →
     gregorian_to_nepali_string (Some dt)
     = format_d 4 (nd_year nd) +:+ "-" +:+ format_d 2 (nd_month nd) +:+ "-"
         +:+ format_d 2 (nd_day nd) +:+ " " +:+ strftime local_dt "%H:%M:%S"
     ∧ ((nd_year nd < 10000)%N → (nd_month nd < 100)%N → (nd_day nd < 100)%N →
        gregorian_to_nepali_string (Some dt)
        = digits 4 (nd_year nd) +:+ "-" +:+ digits 2 (nd_month nd) +:+ "-"
            +:+ digits 2 (nd_day nd) +:+ " " +:+ strftime local_dt "%H:%M:%S"))
  ∧ (_NEPALI_AVAILABLE = false ∨ from_datetime_date local_dt = None →
     gregorian_to_nepali_string (Some dt) = strftime local_dt "%Y-%m-%d %H:%M:%S").
Proof.
  intros local_dt. unfold gregorian_to_nepali_string. fold local_dt. split.
  - intros nd -> ->. split; [done|]. intros Hy Hm Hd.
    by rewrite !format_d_digits by (done || lia).
  - intros [->| ->]; [done|]. by destruct _NEPALI_AVAILABLE.
Qed.

Lemma gregorian_to_nepali_string_None `{!Environment} : gregorian_to_nepali_string None = "".
Proof. reflexivity. Qed.

(** ** Addresses *)

(** C8. When [branch_address] is set and the ward, its municipality, that
    municipality's district and that district's province are found by
    following the foreign keys, [Person.full_address] returns
    "Ward {ward_no}, {municipality name}, {district name}, {province name}";
    when [branch_address] is null it returns the empty string. *)
Theorem Person_full_address_spec `{!Environment}
    (provinces : Table Province.fields) (districts : Table District.fields)
    (municipalities : Table Municipality.fields) (wards : Table Ward.fields)
    (self : Instance Person.fields) :
  (∀ ward_id w m d p,
     attr Person.branch_address self = Some ward_id →
     wards !! ward_id = Some w →
     municipalities !! Ward.municipality (own w) = Some m →
     districts !! Municipality.district (own m) = Some d →
     provinces !! District.province (own d) = Some p →
     Person.full_address provinces districts municipalities wards self
     = Returns ("Ward " +:+ pretty (Ward.ward_no (own w)) +:+ ", "
                +:+ Municipality.name (own m) +:+ ", "
                +:+ District.name (own d) +:+ ", " +:+ Province.name (own p)))
  ∧ (attr Person.branch_address self = None →
     Person.full_address provinces districts municipalities wards self = Returns "").
Proof.
  unfold Person.full_address, Person.related. split.
  - intros ward_id w m d p -> Hw. rewrite Hw. intros Hm. rewrite Hm.
    intros Hd. rewrite Hd. intros Hp. by rewrite Hp.
  - by intros ->.
Qed.

(** ** Search *)

Lemma evaluate_lookup `{!Environment} {F} (qs : QuerySet F) (t : Table F) k r :
  evaluate qs t !! k = Some r ↔ t !! k = Some r ∧ qs k r = true.
Proof. unfold evaluate. by rewrite map_lookup_filter_Some. Qed.

Lemma evaluate_all `{!Environment} {F} (t : Table F) : evaluate all t = t.
Proof.
  apply map_eq. intros k. apply option_eq. intros r.
  rewrite evaluate_lookup. unfold all. tauto.
Qed.

(** C9. [PersonManager.search q] is the whole query set of persons when [q]
    is [None] or empty; otherwise it holds exactly the persons of which the
    name, the identity_no or the computer_code has a substring that is [q]
    but for the case of its ASCII letters. *)
Theorem PersonManager_search_spec `{!Environment} (q : option string)
    (t : Table Person.fields) :
  (q = None ∨ q = Some "" →
     evaluate (PersonManager.search q) t = evaluate PersonManager.get_queryset t
     ∧ evaluate (PersonManager.search q) t = t)
  ∧ (∀ s, q = Some s → s ≠ "" → ∀ k p,
       evaluate (PersonManager.search q) t !! k = Some p
       ↔ t !! k = Some p
         ∧ (occurs_ignoring_case s (Person.name (own p))
            ∨ occurs_ignoring_case s (Person.identity_no (own p))
            ∨ occurs_ignoring_case s (Person.computer_code (own p)))).
Proof.
  split.
  - intros [->| ->]; simpl; unfold PersonManager.get_queryset; by rewrite evaluate_all.
  - intros s -> Hs k p. unfold PersonManager.search, truthy.
    rewrite bool_decide_eq_false_2 by done. simpl.
    rewrite evaluate_lookup. unfold qs_filter, PersonManager.get_queryset, all. simpl.
    rewrite !orb_true_iff, !icontains_spec, !occurs_ignoring_case_spec. tauto.
Qed.

(** ** The model layer *)

Section orm_facts.
Context `{!Environment} `{!Model F}.
Implicit Types (t : Table F) (r : Row F) (k : uuid) (self : Instance F).

Lemma violates_true k r t :
  violates k r t = true
  ↔ ∃ k' r', t !! k' = Some r' ∧ k' ≠ k ∧ conflict (own r) (own r') = true.
Proof.
  unfold violates. rewrite existsb_exists. split.
  - intros [[k' r'] [Hin Hc]]. apply andb_true_iff in Hc as [Hk Hc].
    apply negb_true_iff, bool_decide_eq_false in Hk.
    apply list_elem_of_In, elem_of_map_to_list in Hin. eauto.
  - intros (k' & r' & Hk' & Hne & Hc). exists (k', r'). split.
    + by apply list_elem_of_In, elem_of_map_to_list.
    + simpl. by rewrite Hc, bool_decide_eq_false_2.
Qed.

Lemma violates_false k r t :
  violates k r t = false
  ↔ ∀ k' r', t !! k' = Some r' → k' ≠ k → conflict (own r) (own r') = false.
Proof.
  rewrite <-not_true_iff_false, violates_true. split.
  - intros Hno k' r' Hk' Hne. apply not_true_iff_false. naive_solver.
  - intros Hall (k' & r' & Hk' & Hne & Hc). by rewrite (Hall k' r') in Hc.
Qed.

Lemma violates_own k r r' t : own r = own r' → violates k r t = violates k r' t.
Proof. unfold violates. by intros ->. Qed.

Lemma violates_insert k r r0 t : violates k r (<[k:=r0]> t) = violates k r t.
Proof.
  destruct (violates k r t) eqn:Hv.
  - apply violates_true in Hv as (k' & r' & Hk' & Hne & Hc).
    apply violates_true. exists k', r'. by rewrite lookup_insert_ne.
  - apply violates_false. intros k' r' Hk' Hne.
    rewrite lookup_insert_ne in Hk' by done.
    by eapply violates_false in Hv.
Qed.

Lemma wrote_refl k t : wrote k t t.
Proof. by left. Qed.

Lemma wrote_trans k t t1 t2 : wrote k t t1 → wrote k t1 t2 → wrote k t t2.
Proof.
  intros [->|(r1 & -> & Hr1)] [->|(r2 & -> & Hr2)]; unfold wrote; eauto.
  right. exists r2. rewrite insert_insert_eq. by rewrite violates_insert in Hr2.
Qed.

Lemma wrote_other k t t' k' : wrote k t t' → k' ≠ k → t' !! k' = t !! k'.
Proof. intros [->|(r & -> & _)] Hne; [done|]. by rewrite lookup_insert_ne. Qed.

Lemma sql_insert_wrote k r t : wrote k t (sql_insert k r t).1.
Proof.
  unfold sql_insert. destruct (t !! k); [by left|].
  destruct (violates k r t) eqn:Hv; [by left|]. right. eauto.
Qed.

Lemma sql_update_wrote k g t : wrote k t (sql_update k g t).1.
Proof.
  unfold sql_update. destruct (t !! k) as [old|]; [|by left].
  destruct (violates k (g old) t) eqn:Hv; [by left|]. right. eauto.
Qed.

Lemma bind_wrote {A B} k (m : Orm (Table F) A) (f : A → Orm (Table F) B) t :
  wrote k t (m t).1 →
  (∀ a t1, m t = (t1, Returns a) → wrote k t1 (f a t1).1) →
  wrote k t (bind m f t).1.
Proof.
  intros Hm Hf. unfold bind. destruct (m t) as [t1 [a|e|]]; simpl in *; [|done..].
  eapply wrote_trans; [done|by apply Hf].
Qed.

Lemma Model_save_wrote now fresh update_fields self t :
  wrote (default fresh (pk self)) t (Model_save now fresh update_fields self t).1.
Proof.
  unfold Model_save.
  destruct update_fields as [[|name names]|];
    [apply wrote_refl|..];
    (destruct (assign_columns _ _ _); [|apply wrote_refl]);
    cbn [adding set_pk]; destruct (adding self).
  - apply bind_wrote; [apply sql_insert_wrote|intros; apply wrote_refl].
  - apply bind_wrote; [apply sql_update_wrote|]. intros [] t1 _; apply wrote_refl.
  - apply bind_wrote; [apply sql_insert_wrote|intros; apply wrote_refl].
  - apply bind_wrote; [apply sql_update_wrote|]. intros [] t1 _; [apply wrote_refl|].
    apply bind_wrote; [apply sql_insert_wrote|intros; apply wrote_refl].
Qed.

Lemma Model_save_wrote_at k now fresh update_fields self t :
  default fresh (pk self) = k →
  wrote k t (Model_save now fresh update_fields self t).1.
Proof. intros <-. apply Model_save_wrote. Qed.

(** An object that [Model.save] returns has the key the row was stored
    under, unless nothing was to be saved. *)
Lemma Model_save_pk now fresh update_fields self t t' self' :
  Model_save now fresh update_fields self t = (t', Returns self') →
  default fresh (pk self') = default fresh (pk self) ∧ own (row self') = own (row self).
Proof.
  unfold Model_save.
  destruct update_fields as [[|name names]|];
    [intros [= <- <-]; done|..];
    (destruct (assign_columns _ _ _); [|done]);
    cbn [adding set_pk]; destruct (adding self); unfold bind, sql_insert, sql_update, ret, raise;
    repeat case_match; intros; simplify_eq/=; done.
Qed.

Lemma Model_save_returns_pk now fresh update_fields self t t' self' :
  update_fields ≠ Some [] →
  Model_save now fresh update_fields self t = (t', Returns self') →
  pk self' = Some (default fresh (pk self)) ∧ adding self' = false.
Proof.
  unfold Model_save.
  destruct update_fields as [[|name names]|]; [done|..]; intros _;
    (destruct (assign_columns _ _ _); [|done]);
    cbn [adding set_pk]; destruct (adding self) eqn:Hadd;
    unfold bind, sql_insert, sql_update, ret, raise;
    repeat case_match; intros; simplify_eq/=; done.
Qed.

(** A full save either leaves the table alone and does not return, or it
    stores the row of the object it returns. *)
Lemma Model_save_full_cases now fresh self t :
  let k := default fresh (pk self) in
  let res := Model_save now fresh None self t in
  (res.1 = t ∧ ∀ a, res.2 ≠ Returns a)
  ∨ ∃ self', res = (<[k:=row self']> t, Returns self')
      ∧ pk self' = Some k ∧ adding self' = false
      ∧ own (row self') = own (row self) ∧ violates k (row self') t = false.
Proof.
  intros k res. subst res. unfold Model_save. simpl.
  cbn [adding set_pk]. fold k. destruct (adding self) eqn:Hadd;
    unfold bind, sql_insert, sql_update, ret, raise.
  - destruct (t !! k) eqn:Hk; [by left|].
    destruct (violates k _ t) eqn:Hv; [by left|]. right.
    lazymatch goal with |- ∃ _, (_, Returns ?x) = _ ∧ _ => exists x end. by simpl.
  - destruct (t !! k) eqn:Hk.
    + destruct (violates k _ t) eqn:Hv; [by left|]. right.
      lazymatch goal with |- ∃ _, (_, Returns ?x) = _ ∧ _ => exists x end. by simpl.
    + simpl. rewrite Hk. destruct (violates k _ t) eqn:Hv; [by left|].
      right. lazymatch goal with |- ∃ _, (_, Returns ?x) = _ ∧ _ => exists x end. by simpl.
Qed.

(** Saving only Nepali date columns of an object that is not being added:
    the row under its key, if there is one, keeps its declared columns. *)
Lemma Model_save_nepali_cases now fresh names self k t r1 :
  names = ["updated_at_nepali"] ∨ names = ["created_at_nepali"; "updated_at_nepali"] →
  pk self = Some k → adding self = false → t !! k = Some r1 →
  let res := Model_save now fresh (Some names) self t in
  (res.1 = t ∧ ∀ a, res.2 ≠ Returns a)
  ∨ ∃ r, res = (<[k:=r]> t, Returns self) ∧ own r = own r1
      ∧ created_at r = created_at r1 ∧ updated_at r = updated_at r1
      ∧ created_by r = created_by r1
      ∧ updated_at_nepali r = updated_at_nepali (row self).
Proof.
  intros Hnames Hpk Hadd Hk res. subst res.
  destruct self as [pk0 adding0 row0]. simpl in Hpk, Hadd. subst pk0 adding0.
  unfold Model_save.
  destruct Hnames as [-> | ->]; simpl; unfold id, set_pk; simpl;
    unfold bind, sql_update, ret, raise; rewrite Hk;
    (destruct (violates k _ t) eqn:Hv; [by left|]); right;
    (eexists; split; [reflexivity|by simpl]).
Qed.
End orm_facts.

Section auditable_facts.
Context `{!Environment} `{!Model F}.
Implicit Types (t : Table F) (r : Row F) (k : uuid) (self : Instance F).

Lemma AuditableModel_save_wrote now fresh update_fields self t :
  wrote (default fresh (pk self)) t
    (AuditableModel.save now fresh update_fields self t).1.
Proof.
  unfold AuditableModel.save.
  destruct (bool_decide (pk self = None));
    (apply bind_wrote; [apply Model_save_wrote|]);
    intros self1 t1 [Hpk _]%Model_save_pk; by apply Model_save_wrote_at.
Qed.

Lemma AuditableModel_save_returns now fresh update_fields self t t' self' :
  AuditableModel.save now fresh update_fields self t = (t', Returns self') →
  pk self' = Some (default fresh (pk self)) ∧ adding self' = false
  ∧ own (row self') = own (row self).
Proof.
  unfold AuditableModel.save.
  destruct (bool_decide (pk self = None)); unfold bind at 1;
    destruct (Model_save now fresh update_fields self t) as [t1 [self1| |]] eqn:H1;
    try done;
    apply Model_save_pk in H1 as [Hpk Hown]; intros H2;
    pose proof (Model_save_pk _ _ _ _ _ _ _ H2) as [_ Hown2];
    apply Model_save_returns_pk in H2 as [Hpk2 Hadd2]; try done;
    simpl in *; rewrite Hpk in Hpk2; by rewrite Hown2.
Qed.

(** A full save of an object stores at most one row, under the object's
    key and with the object's declared columns; when it returns, that row
    is there. *)
Lemma AuditableModel_save_full now fresh self t :
  let k := default fresh (pk self) in
  let res := AuditableModel.save now fresh None self t in
  (res.1 = t
   ∨ ∃ r, res.1 = <[k:=r]> t ∧ own r = own (row self) ∧ violates k r t = false)
  ∧ (∀ self', res.2 = Returns self' →
       ∃ r, res.1 !! k = Some r ∧ own r = own (row self)).
Proof.
  intros k res. subst res k. unfold AuditableModel.save.
  destruct (bool_decide (pk self = None)); unfold bind;
    destruct (Model_save_full_cases now fresh self t)
      as [[Hsame Hnot]|(self1 & -> & Hpk1 & Hadd1 & Hown1 & Hv1)];
    set (k := default fresh (pk self)) in *.
  1,3: destruct (Model_save now fresh None self t) as [t1 [a| |]]; simpl in *;
    [by destruct (Hnot a)|split; [by left|done]..].
  all: match goal with
       | |- context [Model_save ?n ?f (Some ?names) ?self2 ?t1] =>
           destruct (Model_save_nepali_cases n f names self2 k t1 (row self1))
             as [[Hsame Hnot]|(r & -> & Hown & _)];
             [auto|done|done|apply lookup_insert_eq|..]
       end.
  1,3: match goal with
       | |- context [Model_save ?a ?b ?c ?d ?e] =>
           destruct (Model_save a b c d e) as [t2 [a2| |]]; simpl in *;
             [by destruct (Hnot a2)|subst t2; split; [right; eauto|done]..]
       end.
  all: simpl; rewrite insert_insert_eq; split;
    [right; exists r; split_and!; [done|congruence|];
     by rewrite (violates_own _ _ (row self1)) by done
    |intros _ _; exists r; rewrite lookup_insert_eq; split; [done|congruence]].
Qed.
End auditable_facts.

(** ** Query sets *)

Section queryset_facts.
Context `{!Environment} {F : Type}.
Implicit Types (t : Table F) (r : Row F) (k : uuid) (qs : QuerySet F).

Lemma qs_exists_true qs t :
  qs_exists qs t = true ↔ ∃ k r, t !! k = Some r ∧ qs k r = true.
Proof.
  unfold qs_exists. rewrite existsb_exists. split.
  - intros [[k r] [Hin Hqs]]. apply list_elem_of_In, elem_of_map_to_list in Hin. eauto.
  - intros (k & r & Hk & Hqs). exists (k, r).
    split; [by apply list_elem_of_In, elem_of_map_to_list|done].
Qed.

Lemma qs_update_lookup g qs t k :
  (qs_update g qs t).1 !! k = (λ r, if qs k r then g r else r) <$> t !! k.
Proof. unfold qs_update. simpl. rewrite map_lookup_imap. by destruct (t !! k). Qed.

(** The test of the loop of [unique_slugify] says what the specification
    says in words. *)
Lemma slug_taken_iff (instance : Instance F) (slug_field : CharField F)
    (queryset : option (QuerySet F)) t slug :
  qs_exists (qs_filter (λ r, bool_decide (getf slug_field (own r) = slug))
               (scoping_queryset instance queryset)) t = true
  ↔ held_by_other instance slug_field queryset t slug.
Proof.
  rewrite qs_exists_true. unfold held_by_other, scoping_queryset, qs_filter.
  split.
  - intros (k & r & Hk & Hqs). exists k, r.
    apply andb_true_iff in Hqs as [Hqs Hslug]. apply bool_decide_eq_true in Hslug.
    destruct (pk instance) as [k0|]; [|done].
    unfold qs_exclude_pk in Hqs. apply andb_true_iff in Hqs as [Hqs Hne].
    apply negb_true_iff, bool_decide_eq_false in Hne.
    split_and!; [done..| |done]. congruence.
  - intros (k & r & Hk & Hqs & Hne & Hslug). exists k, r. split; [done|].
    apply andb_true_iff. split; [|by apply bool_decide_eq_true].
    destruct (pk instance) as [k0|]; [|done].
    unfold qs_exclude_pk. rewrite Hqs. simpl.
    apply negb_true_iff, bool_decide_eq_false. congruence.
Qed.
End queryset_facts.

(** ** Unique slugs *)

Section slug_loop.
Variables (taken : string → bool) (original_slug separator : string).

Local Abbreviation candidate := (candidate original_slug separator).

Lemma candidate_inj n m : candidate n = candidate m → n = m.
Proof.
  unfold candidate. intros Heq.
  by apply (inj (String.app original_slug)), (inj (String.app separator)),
    (inj pretty) in Heq.
Qed.

Lemma unique_slugify_loop_S (fuel : nat) (slug : string) (next : N) :
  unique_slugify_loop (S fuel) taken original_slug separator slug next
  = if taken slug
    then unique_slugify_loop fuel taken original_slug separator
           (original_slug +:+ separator +:+ pretty next) (next + 1)%N
    else Some slug.
Proof. reflexivity. Qed.

(** Started at candidate [next] with enough fuel to reach a free one, the
    loop stops at the first free candidate. *)
Lemma unique_slugify_loop_candidates (fuel : nat) (next : N) :
  (∃ n, (next ≤ n < next + N.of_nat fuel)%N ∧ taken (candidate n) = false) →
  ∃ n0, (next ≤ n0)%N
    ∧ unique_slugify_loop fuel taken original_slug separator (candidate next)
        (next + 1)%N = Some (candidate n0)
    ∧ taken (candidate n0) = false
    ∧ ∀ m, (next ≤ m < n0)%N → taken (candidate m) = true.
Proof.
  revert next. induction fuel as [|fuel IH]; intros next (n & Hn & Hfree); [lia|].
  cbn [unique_slugify_loop]. destruct (taken (candidate next)) eqn:Hnext.
  - assert (n ≠ next) by congruence.
    destruct (IH (next + 1)%N) as (n0 & Hn0 & Hloop & Hfree0 & Hbelow).
    { exists n. split; [lia|done]. }
    exists n0. split_and!; [lia|done|done|].
    intros m Hm. destruct (decide (m = next)) as [->|]; [done|]. apply Hbelow. lia.
  - exists next. split_and!; [lia|done|done|]. intros m Hm. lia.
Qed.

(** Either all of the first [n] candidates are taken or one of them is
    free. *)
Lemma candidates_search (n : nat) :
  (∀ m, (1 ≤ m ≤ N.of_nat n)%N → taken (candidate m) = true)
  ∨ ∃ m, (1 ≤ m ≤ N.of_nat n)%N ∧ taken (candidate m) = false.
Proof.
  induction n as [|n [IH|(m & Hm & Hfree)]].
  - left. intros m Hm. lia.
  - destruct (taken (candidate (N.of_nat (S n)))) eqn:Hlast.
    + left. intros m Hm. destruct (decide (m = N.of_nat (S n))) as [->|]; [done|].
      apply IH. lia.
    + right. exists (N.of_nat (S n)). split; [lia|done].
  - right. exists m. split; [lia|done].
Qed.

(** A list cannot hold more different candidates than it has elements. *)
Lemma candidates_pigeonhole (slugs : list string) (n : nat) :
  (∀ m, (1 ≤ m ≤ N.of_nat n)%N → candidate m ∈ slugs) → n ≤ length slugs.
Proof.
  intros Hall.
  set (cs := (candidate ∘ N.of_nat) <$> seq 1 n).
  assert (NoDup cs) as Hnodup.
  { apply NoDup_fmap_2_strong; [|apply NoDup_seq].
    intros a b _ _ Heq. simpl in Heq. apply candidate_inj in Heq. lia. }
  assert (cs ⊆+ slugs) as Hsub.
  { apply NoDup_submseteq; [done|]. intros s Hs.
    apply list_elem_of_fmap in Hs as (i & -> & Hi).
    apply elem_of_seq in Hi. apply Hall. lia. }
  apply submseteq_length in Hsub. unfold cs in Hsub.
  by rewrite length_fmap, length_seq in Hsub.
Qed.
End slug_loop.

Section unique_slugify_facts.
Context `{!Environment} {F : Type}.
Implicit Types (t : Table F) (self instance : Instance F).

Lemma held_by_other_slugs_of (instance : Instance F) slug_field queryset
    (t : Table F) slug :
  held_by_other instance slug_field queryset t slug → slug ∈ slugs_of slug_field t.
Proof.
  intros (k & r & Hk & _ & _ & <-). unfold slugs_of.
  apply list_elem_of_fmap. exists (k, r). split; [done|].
  by apply elem_of_map_to_list.
Qed.

(** The loop of [unique_slugify], with the fuel it is given, stops at a
    slug that no other record of the scoping query set has: the base slug
    or the first free numbered one. *)
Lemma unique_slugify_loop_result (instance : Instance F)
    (slug_field : CharField F) (queryset : option (QuerySet F))
    (base separator : string) (t : Table F) :
  let taken := held_by_other instance slug_field queryset t in
  ∃ slug,
    unique_slugify_loop (2 + size t)
      (λ slug, qs_exists (qs_filter (λ r, bool_decide (getf slug_field (own r) = slug))
                            (scoping_queryset instance queryset)) t)
      base separator base 1%N = Some slug
    ∧ ¬ taken slug
    ∧ ((¬ taken base ∧ slug = base)
       ∨ (taken base
          ∧ ∃ n, (1 ≤ n)%N ∧ slug = base +:+ separator +:+ pretty n
                 ∧ ∀ m, (1 ≤ m < n)%N → taken (base +:+ separator +:+ pretty m))).
Proof.
  intros taken.
  set (test := λ slug : string, qs_exists _ t).
  assert (∀ s, test s = true ↔ taken s) as Htest.
  { intros s. apply slug_taken_iff. }
  assert (∀ s, test s = false ↔ ¬ taken s) as Hfree.
  { intros s. rewrite <-Htest. symmetry. apply not_true_iff_false. }
  replace (2 + size t) with (S (S (size t))) by done.
  rewrite unique_slugify_loop_S. destruct (test base) eqn:Hbase.
  - destruct (candidates_search test base separator (S (size t)))
      as [Hall|(n & Hn & Hn_free)].
    { assert (S (size t) ≤ length (slugs_of slug_field t)) as Hlen.
      { apply (candidates_pigeonhole base separator). intros m Hm.
        eapply held_by_other_slugs_of, Htest, Hall, Hm. }
      unfold slugs_of in Hlen. rewrite length_fmap, length_map_to_list in Hlen. lia. }
    destruct (unique_slugify_loop_candidates test base separator (S (size t)) 1)
      as (n0 & Hn0 & Hloop & Hfree0 & Hbelow).
    { exists n. split; [lia|done]. }
    unfold candidate in Hloop at 1. rewrite Hloop. exists (candidate base separator n0).
    split_and!; [done|by apply Hfree|].
    right. split; [by apply Htest|]. exists n0. split_and!; [done|done|].
    intros m Hm. by apply Htest, Hbelow.
  - exists base. split_and!; [done|by apply Hfree|]. left. split; [by apply Hfree|done].
Qed.

(** When another record has the base slug, the slug that is assigned is
    longer than the base and the separator together, whatever the length of
    the base. *)
Lemma unique_slugify_collision_length (instance : Instance F) (value : string)
    (slug_field : CharField F) (queryset : option (QuerySet F))
    (separator : string) (t : Table F) :
  let base := slice_to 180 (slugify value) in
  held_by_other instance slug_field queryset t base →
  ∃ slug,
    unique_slugify instance value slug_field queryset separator t
    = (t, Returns (update_attr (setf slug_field slug) instance))
    ∧ String.length base + String.length separator < String.length slug.
Proof.
  intros base Htaken. unfold unique_slugify. fold base.
  destruct (unique_slugify_loop_result instance slug_field queryset base separator t)
    as (slug & Hloop & _ & [[Hfree _]|(_ & n & _ & -> & _)]); [done|].
  rewrite Hloop. eexists. split; [reflexivity|].
  rewrite !length_app_s. pose proof (pretty_N_length_pos n). lia.
Qed.

(** [unique_slugify] returns, does not write the table, and changes the
    slug column of the instance only. *)
Lemma unique_slugify_returns (instance : Instance F) (value : string)
    (slug_field : CharField F) (queryset : option (QuerySet F))
    (separator : string) (t : Table F) :
  ∃ slug,
    unique_slugify instance value slug_field queryset separator t
    = (t, Returns (update_attr (setf slug_field slug) instance)).
Proof.
  unfold unique_slugify.
  destruct (unique_slugify_loop_result instance slug_field queryset
              (slice_to 180 (slugify value)) separator t) as (slug & Hloop & _).
  rewrite Hloop. by exists slug.
Qed.

(** C4. [unique_slugify] always returns and leaves the table as it is.
    The object it returns is the instance with its slug column, and nothing
    else, set to a slug that no other record of the scoping query set has:
    reading the column gives that slug.  The slug is the base,
    [slugify(value)] cut to its first 180 characters, when no other record
    has the base, and otherwise [base + separator + n] for the least
    [n >= 1] for which no other record has that string. *)
Theorem unique_slugify_spec (instance : Instance F) (value : string)
    (slug_field : CharField F) (queryset : option (QuerySet F))
    (separator : string) (t : Table F) :
  let taken := held_by_other instance slug_field queryset t in
  ∃ base slug self',
    unique_slugify instance value slug_field queryset separator t = (t, Returns self')
    ∧ (∃ rest, slugify value = base +:+ rest)
    ∧ String.length base = Nat.min 180 (String.length (slugify value))
    ∧ getf slug_field (own (row self')) = slug
    ∧ own (row self') = setf slug_field slug (own (row instance))
    ∧ pk self' = pk instance ∧ adding self' = adding instance
    ∧ created_at (row self') = created_at (row instance)
    ∧ updated_at (row self') = updated_at (row instance)
    ∧ created_at_nepali (row self') = created_at_nepali (row instance)
    ∧ updated_at_nepali (row self') = updated_at_nepali (row instance)
    ∧ created_by (row self') = created_by (row instance)
    ∧ ¬ taken slug
    ∧ ((¬ taken base ∧ slug = base)
       ∨ (taken base
          ∧ ∃ n, (1 ≤ n)%N ∧ slug = base +:+ separator +:+ pretty n
                 ∧ ∀ m, (1 ≤ m < n)%N → taken (base +:+ separator +:+ pretty m))).
Proof.
  intros taken. unfold unique_slugify.
  destruct (unique_slugify_loop_result instance slug_field queryset
              (slice_to 180 (slugify value)) separator t)
    as (slug & Hloop & Hfree & Hfirst).
  rewrite Hloop.
  exists (slice_to 180 (slugify value)), slug, (update_attr (setf slug_field slug) instance).
  split_and!; try reflexivity.
  - apply slice_to_prefix.
  - apply length_slice_to_min.
  - apply getf_setf.
  - exact Hfree.
  - exact Hfirst.
Qed.


Lemma prelude_ret self : prelude self (ret self).
Proof. intros t. split; [done|]. by intros self1 [= <-]. Qed.

Lemma prelude_raise self e : prelude self (raise e).
Proof. intros t. split; [done|]. by intros self1 [=]. Qed.

Lemma prelude_unique_slugify self value slug_field queryset separator :
  prelude self (unique_slugify self value slug_field queryset separator).
Proof.
  intros t.
  destruct (unique_slugify_returns self value slug_field queryset separator t)
    as (slug & ->).
  split; [done|]. by intros self1 [= <-].
Qed.

Lemma prelude_save_wrote `{!Model F} self m now fresh update_fields t :
  prelude self m →
  wrote (default fresh (pk self)) t
    (bind m (AuditableModel.save now fresh update_fields) t).1.
Proof.
  intros Hm. destruct (Hm t) as [Hsame Hpk]. unfold bind.
  destruct (m t) as [t1 [self1| |]]; simpl in *; subst t1; [|by left..].
  rewrite <-(Hpk self1) by done. apply AuditableModel_save_wrote.
Qed.
End unique_slugify_facts.

(** ** Consistency of tables *)

Section consistency.
Context `{!Environment} `{!Model F} `{!ModelLaws F}.
Implicit Types (t : Table F) (r : Row F) (k : uuid).

Lemma consistent_empty : consistent (∅ : Table F).
Proof. intros k1 k2 r1 r2 Hk1. by rewrite lookup_empty in Hk1. Qed.

Lemma consistent_wrote k t t' : consistent t → wrote k t t' → consistent t'.
Proof.
  intros Ht [->|(r & -> & Hv)]; [done|].
  intros k1 k2 r1 r2 Hk1 Hk2 Hne.
  destruct (decide (k1 = k)) as [->|Hk1ne].
  - rewrite lookup_insert_eq in Hk1. injection Hk1 as <-.
    rewrite lookup_insert_ne in Hk2 by done.
    eapply violates_false in Hv; eauto.
  - rewrite lookup_insert_ne in Hk1 by done.
    destruct (decide (k2 = k)) as [->|Hk2ne].
    + rewrite lookup_insert_eq in Hk2. injection Hk2 as <-.
      rewrite conflict_sym. eapply violates_false in Hv; eauto.
    + rewrite lookup_insert_ne in Hk2 by done. eauto.
Qed.

(** An update that does not touch the columns the constraints speak of. *)
Lemma consistent_qs_update (g : Row F → Row F) qs t :
  (∀ r b, conflict (own (g r)) b = conflict (own r) b) →
  consistent t → consistent (qs_update g qs t).1.
Proof.
  intros Hg Ht k1 k2 r1 r2 Hk1 Hk2 Hne.
  rewrite qs_update_lookup in Hk1, Hk2.
  destruct (t !! k1) as [r1'|] eqn:Hk1'; [|done].
  destruct (t !! k2) as [r2'|] eqn:Hk2'; [|done].
  simpl in Hk1, Hk2. injection Hk1 as <-. injection Hk2 as <-.
  specialize (Ht k1 k2 r1' r2' Hk1' Hk2' Hne).
  destruct (qs k1 r1'), (qs k2 r2'); rewrite ?Hg; try done;
    rewrite conflict_sym, ?Hg, conflict_sym; done.
Qed.
End consistency.

(** ** The constraints of the models with slugs *)

Ltac solve_conflict_sym :=
  constructor; intros a b; simpl;
  repeat match goal with
         | |- bool_decide _ = bool_decide _ => apply bool_decide_ext; split; congruence
         | |- _ => f_equal
         end.

Ltac solve_slugs_unique :=
  let Ht := fresh "Ht" in
  intros Ht k1 k2 r1 r2 Hk1 Hk2 Hscope Hslug;
  destruct (decide (k1 = k2)) as [|Hne]; [done|];
  specialize (Ht k1 k2 r1 r2 Hk1 Hk2 Hne); simpl in Ht;
  repeat case_bool_decide; simpl in *; congruence.

Create HintDb saves discriminated.

#[export] Instance Province_laws : ModelLaws Province.fields.
Proof. solve_conflict_sym. Qed.

#[export] Instance District_laws : ModelLaws District.fields.
Proof. solve_conflict_sym. Qed.

#[export] Instance Municipality_laws : ModelLaws Municipality.fields.
Proof. solve_conflict_sym. Qed.

#[export] Instance Ward_laws : ModelLaws Ward.fields.
Proof. solve_conflict_sym. Qed.

#[export] Instance Post_laws : ModelLaws Post.fields.
Proof. solve_conflict_sym. Qed.

#[export] Instance Bank_laws : ModelLaws Bank.fields.
Proof. solve_conflict_sym. Qed.

#[export] Instance BankBranch_laws : ModelLaws BankBranch.fields.
Proof. solve_conflict_sym. Qed.

#[export] Instance SpecificWork_laws : ModelLaws SpecificWork.fields.
Proof. solve_conflict_sym. Qed.

#[export] Instance Person_laws `{!Environment} : ModelLaws Person.fields.
Proof. solve_conflict_sym. Qed.

Lemma Province_save_wrote `{!Environment} now fresh update_fields self t :
  wrote (default fresh (pk self)) t (final (Province.save now fresh update_fields self) t).
Proof.
  unfold final, Province.save. apply prelude_save_wrote.
  repeat case_match; auto using prelude_ret, prelude_raise, prelude_unique_slugify.
Qed.

Lemma Province_save_consistent `{!Environment} now fresh update_fields self t :
  consistent t → consistent (final (Province.save now fresh update_fields self) t).
Proof. intros Ht. eapply consistent_wrote; [done|apply Province_save_wrote]. Qed.
#[export] Hint Resolve Province_save_consistent : saves.

Lemma Province_consistent_slugs `{!Environment} (t : Table Province.fields) :
  consistent t → slugs_unique Province.slug t.
Proof. solve_slugs_unique. Qed.

Lemma District_save_wrote `{!Environment} provinces now fresh update_fields self t :
  wrote (default fresh (pk self)) t (final (District.save provinces now fresh update_fields self) t).
Proof.
  unfold final, District.save. apply prelude_save_wrote.
  repeat case_match; auto using prelude_ret, prelude_raise, prelude_unique_slugify.
Qed.

Lemma District_save_consistent `{!Environment} provinces now fresh update_fields self t :
  consistent t → consistent (final (District.save provinces now fresh update_fields self) t).
Proof. intros Ht. eapply consistent_wrote; [done|apply District_save_wrote]. Qed.
#[export] Hint Resolve District_save_consistent : saves.

Lemma District_consistent_slugs `{!Environment} (t : Table District.fields) :
  consistent t → slugs_unique_within District.province District.slug t.
Proof. solve_slugs_unique. Qed.

Lemma Municipality_save_wrote `{!Environment} districts now fresh update_fields self t :
  wrote (default fresh (pk self)) t (final (Municipality.save districts now fresh update_fields self) t).
Proof.
  unfold final, Municipality.save. apply prelude_save_wrote.
  repeat case_match; auto using prelude_ret, prelude_raise, prelude_unique_slugify.
Qed.

Lemma Municipality_save_consistent `{!Environment} districts now fresh update_fields self t :
  consistent t → consistent (final (Municipality.save districts now fresh update_fields self) t).
Proof. intros Ht. eapply consistent_wrote; [done|apply Municipality_save_wrote]. Qed.
#[export] Hint Resolve Municipality_save_consistent : saves.

Lemma Municipality_consistent_slugs `{!Environment} (t : Table Municipality.fields) :
  consistent t → slugs_unique_within Municipality.district Municipality.slug t.
Proof. solve_slugs_unique. Qed.

Lemma Ward_save_wrote `{!Environment} municipalities now fresh update_fields self t :
  wrote (default fresh (pk self)) t (final (Ward.save municipalities now fresh update_fields self) t).
Proof.
  unfold final, Ward.save. apply prelude_save_wrote.
  repeat case_match; auto using prelude_ret, prelude_raise, prelude_unique_slugify.
Qed.

Lemma Ward_save_consistent `{!Environment} municipalities now fresh update_fields self t :
  consistent t → consistent (final (Ward.save municipalities now fresh update_fields self) t).
Proof. intros Ht. eapply consistent_wrote; [done|apply Ward_save_wrote]. Qed.
#[export] Hint Resolve Ward_save_consistent : saves.

Lemma Ward_consistent_slugs `{!Environment} (t : Table Ward.fields) :
  consistent t → slugs_unique_within Ward.municipality Ward.slug t.
Proof. solve_slugs_unique. Qed.

Lemma Post_save_wrote `{!Environment} now fresh update_fields self t :
  wrote (default fresh (pk self)) t (final (Post.save now fresh update_fields self) t).
Proof.
  unfold final, Post.save. apply prelude_save_wrote.
  repeat case_match; auto using prelude_ret, prelude_raise, prelude_unique_slugify.
Qed.

Lemma Post_save_consistent `{!Environment} now fresh update_fields self t :
  consistent t → consistent (final (Post.save now fresh update_fields self) t).
Proof. intros Ht. eapply consistent_wrote; [done|apply Post_save_wrote]. Qed.
#[export] Hint Resolve Post_save_consistent : saves.

Lemma Post_consistent_slugs `{!Environment} (t : Table Post.fields) :
  consistent t → slugs_unique Post.slug t.
Proof. solve_slugs_unique. Qed.

Lemma Bank_save_wrote `{!Environment} now fresh update_fields self t :
  wrote (default fresh (pk self)) t (final (Bank.save now fresh update_fields self) t).
Proof.
  unfold final, Bank.save. apply prelude_save_wrote.
  repeat case_match; auto using prelude_ret, prelude_raise, prelude_unique_slugify.
Qed.

Lemma Bank_save_consistent `{!Environment} now fresh update_fields self t :
  consistent t → consistent (final (Bank.save now fresh update_fields self) t).
Proof. intros Ht. eapply consistent_wrote; [done|apply Bank_save_wrote]. Qed.
#[export] Hint Resolve Bank_save_consistent : saves.

Lemma Bank_consistent_slugs `{!Environment} (t : Table Bank.fields) :
  consistent t → slugs_unique Bank.slug t.
Proof. solve_slugs_unique. Qed.

Lemma BankBranch_save_wrote `{!Environment} banks now fresh update_fields self t :
  wrote (default fresh (pk self)) t (final (BankBranch.save banks now fresh update_fields self) t).
Proof.
  unfold final, BankBranch.save. apply prelude_save_wrote.
  repeat case_match; auto using prelude_ret, prelude_raise, prelude_unique_slugify.
Qed.

Lemma BankBranch_save_consistent `{!Environment} banks now fresh update_fields self t :
  consistent t → consistent (final (BankBranch.save banks now fresh update_fields self) t).
Proof. intros Ht. eapply consistent_wrote; [done|apply BankBranch_save_wrote]. Qed.
#[export] Hint Resolve BankBranch_save_consistent : saves.

Lemma BankBranch_consistent_slugs `{!Environment} (t : Table BankBranch.fields) :
  consistent t → slugs_unique_within BankBranch.bank BankBranch.slug t.
Proof. solve_slugs_unique. Qed.

Lemma SpecificWork_save_wrote `{!Environment} now fresh update_fields self t :
  wrote (default fresh (pk self)) t (final (SpecificWork.save now fresh update_fields self) t).
Proof.
  unfold final, SpecificWork.save. apply prelude_save_wrote.
  repeat case_match; auto using prelude_ret, prelude_raise, prelude_unique_slugify.
Qed.

Lemma SpecificWork_save_consistent `{!Environment} now fresh update_fields self t :
  consistent t → consistent (final (SpecificWork.save now fresh update_fields self) t).
Proof. intros Ht. eapply consistent_wrote; [done|apply SpecificWork_save_wrote]. Qed.
#[export] Hint Resolve SpecificWork_save_consistent : saves.

Lemma SpecificWork_consistent_slugs `{!Environment} (t : Table SpecificWork.fields) :
  consistent t → slugs_unique SpecificWork.slug t.
Proof. solve_slugs_unique. Qed.

Lemma Person_save_wrote `{!Environment} now fresh update_fields self t :
  wrote (default fresh (pk self)) t (final (Person.save now fresh update_fields self) t).
Proof.
  unfold final, Person.save. apply prelude_save_wrote.
  repeat case_match; auto using prelude_ret, prelude_raise, prelude_unique_slugify.
Qed.

Lemma Person_save_consistent `{!Environment} now fresh update_fields self t :
  consistent t → consistent (final (Person.save now fresh update_fields self) t).
Proof. intros Ht. eapply consistent_wrote; [done|apply Person_save_wrote]. Qed.
#[export] Hint Resolve Person_save_consistent : saves.

Lemma Person_consistent_slugs `{!Environment} (t : Table Person.fields) :
  consistent t → slugs_unique Person.slug t.
Proof. solve_slugs_unique. Qed.

Lemma Person_soft_delete_consistent `{!Environment} now fresh self t :
  consistent t → consistent (final (Person.soft_delete now fresh self) t).
Proof. unfold Person.soft_delete. apply Person_save_consistent. Qed.

Lemma Person_restore_consistent `{!Environment} now fresh self t :
  consistent t → consistent (final (Person.restore now fresh self) t).
Proof. unfold Person.restore. apply Person_save_consistent. Qed.

Lemma action_soft_delete_consistent `{!Environment} now queryset (t : Table Person.fields) :
  consistent t →
  consistent (final (SoftDeleteAdminActionMixin.action_soft_delete now queryset) t).
Proof.
  intros Ht. unfold final, SoftDeleteAdminActionMixin.action_soft_delete, bind.
  pose proof (consistent_qs_update
    (map_own (λ r, with_deleted_at (Some now) (with_is_active false r))) queryset t) as Hupd.
  destruct (qs_update _ queryset t) as [t1 [n| |]]; simpl in *; by apply Hupd.
Qed.

Lemma action_restore_consistent `{!Environment} queryset (t : Table Person.fields) :
  consistent t →
  consistent (final (SoftDeleteAdminActionMixin.action_restore queryset) t).
Proof.
  intros Ht. unfold final, SoftDeleteAdminActionMixin.action_restore, bind.
  pose proof (consistent_qs_update
    (map_own (λ r, with_deleted_at None (with_is_active true r))) queryset t) as Hupd.
  destruct (qs_update _ queryset t) as [t1 [n| |]]; simpl in *; by apply Hupd.
Qed.
#[export] Hint Resolve Person_soft_delete_consistent Person_restore_consistent
  action_soft_delete_consistent action_restore_consistent : saves.

(** ** Invariants of the reachable states *)

Section invariants.
Context `{!Environment}.

Lemma step_consistent db db' : step db db' → db_consistent db → db_consistent db'.
Proof.
  intros Hstep (?&?&?&?&?&?&?&?&?).
  destruct Hstep; unfold db_consistent; cbn -[final]; split_and!;
    auto with saves.
Qed.

Lemma reachable_consistent db : reachable db → db_consistent db.
Proof.
  induction 1 as [|db db' _ IH Hstep].
  - unfold db_consistent; simpl; split_and!; apply consistent_empty.
  - by eapply step_consistent.
Qed.

(** C2. In every state that the operations of the application reach from
    the empty database, slugs are unique among the districts of a
    province, the municipalities of a district, the wards of a
    municipality and the branches of a bank, and unique in the whole table
    for provinces, posts, banks, specific works and persons. *)
Theorem slugs_unique_in_reachable_states (db : DB) :
  reachable db →
  slugs_unique_within District.province District.slug (districts db)
  ∧ slugs_unique_within Municipality.district Municipality.slug (municipalities db)
  ∧ slugs_unique_within Ward.municipality Ward.slug (wards db)
  ∧ slugs_unique_within BankBranch.bank BankBranch.slug (branches db)
  ∧ slugs_unique Province.slug (provinces db)
  ∧ slugs_unique Post.slug (posts db)
  ∧ slugs_unique Bank.slug (banks db)
  ∧ slugs_unique SpecificWork.slug (works db)
  ∧ slugs_unique Person.slug (persons db).
Proof.
  intros (?&?&?&?&?&?&?&?&?)%reachable_consistent.
  split_and!;
    auto using Province_consistent_slugs, District_consistent_slugs,
      Municipality_consistent_slugs, Ward_consistent_slugs, Post_consistent_slugs,
      Bank_consistent_slugs, BankBranch_consistent_slugs,
      SpecificWork_consistent_slugs, Person_consistent_slugs.
Qed.
End invariants.

(** ** Primary records *)

Section primary.
Context `{!Environment} `{!Model F}.
Variables (person : F → uuid) (is_primary : F → bool)
          (set_is_primary : bool → F → F).
Hypothesis is_primary_set : ∀ v f, is_primary (set_is_primary v f) = v.
Hypothesis person_set : ∀ v f, person (set_is_primary v f) = person f.
Implicit Types (t : Table F) (r : Row F) (k p : uuid) (self : Instance F).

Local Abbreviation primary_save := (primary_save person is_primary set_is_primary).
Local Abbreviation cleared := (cleared person is_primary set_is_primary).
Local Abbreviation saved_as_only_primary := (saved_as_only_primary person is_primary).

Lemma primary_save_eq persons now fresh update_fields self t :
  primary_save persons now fresh update_fields self t
  = if attr is_primary self
    then match persons !! attr person self with
         | Some _ =>
             AuditableModel.save now fresh update_fields self (cleared (attr person self) t)
         | None => (t, Raises DoesNotExist)
         end
    else AuditableModel.save now fresh update_fields self t.
Proof.
  unfold primary_save, cleared, bind, ret, raise.
  destruct (attr is_primary self); [|done]. by destruct (persons !! attr person self).
Qed.

Lemma cleared_lookup p t k r :
  cleared p t !! k = Some r →
  ∃ r0, t !! k = Some r0 ∧ person (own r) = person (own r0)
        ∧ (is_primary (own r) = true → is_primary (own r0) = true)
        ∧ (person (own r) = p → is_primary (own r) = false).
Proof.
  unfold cleared. rewrite qs_update_lookup.
  destruct (t !! k) as [r0|]; [|done]. simpl. intros [= <-]. exists r0.
  split; [done|]. unfold qs_filter, all. simpl.
  destruct (bool_decide (person (own r0) = p)) eqn:Hp; simpl.
  - destruct (is_primary (own r0)) eqn:Hprim; simpl.
    + rewrite person_set, is_primary_set. split_and!; done.
    + split_and!; intros; congruence.
  - apply bool_decide_eq_false in Hp. split_and!; intros; congruence.
Qed.

Lemma cleared_at_most_one p t :
  at_most_one_primary person is_primary t →
  at_most_one_primary person is_primary (cleared p t).
Proof.
  intros Ht q k1 k2 (r1 & Hk1 & Hq1 & Hp1) (r2 & Hk2 & Hq2 & Hp2).
  apply cleared_lookup in Hk1 as (r1' & Hk1 & Hper1 & Hprim1 & _).
  apply cleared_lookup in Hk2 as (r2' & Hk2 & Hper2 & Hprim2 & _).
  apply (Ht q); [exists r1'|exists r2']; split_and!; auto; congruence.
Qed.

(** Storing a row keeps at most one primary record per person when the
    row is not primary or its person has no primary record yet. *)
Lemma insert_at_most_one k r t :
  at_most_one_primary person is_primary t →
  (is_primary (own r) = true →
   ∀ k' r', t !! k' = Some r' → person (own r') = person (own r) →
            is_primary (own r') = false) →
  at_most_one_primary person is_primary (<[k:=r]> t).
Proof.
  intros Ht Hnone q k1 k2 (r1 & Hk1 & Hq1 & Hp1) (r2 & Hk2 & Hq2 & Hp2).
  destruct (decide (k1 = k2)) as [|Hne]; [done|]. exfalso.
  destruct (decide (k1 = k)) as [->|Hk1ne].
  - rewrite lookup_insert_eq in Hk1. injection Hk1 as <-.
    rewrite lookup_insert_ne in Hk2 by done.
    rewrite (Hnone Hp1 k2 r2) in Hp2; [done|done|congruence].
  - rewrite lookup_insert_ne in Hk1 by done.
    destruct (decide (k2 = k)) as [->|Hk2ne].
    + rewrite lookup_insert_eq in Hk2. injection Hk2 as <-.
      rewrite (Hnone Hp2 k1 r1) in Hp1; [done|done|congruence].
    + rewrite lookup_insert_ne in Hk2 by done.
      apply Hne, (Ht q); [exists r1|exists r2]; done.
Qed.

(** A full save keeps at most one primary record per person, whether it
    returns or raises. *)
Lemma primary_save_at_most_one persons now fresh self t :
  at_most_one_primary person is_primary t →
  at_most_one_primary person is_primary (final (primary_save persons now fresh None self) t).
Proof.
  intros Ht. unfold final. rewrite primary_save_eq.
  destruct (attr is_primary self) eqn:Hself.
  - destruct (persons !! attr person self) as [owner|]; [|done].
    set (t1 := cleared (attr person self) t).
    assert (at_most_one_primary person is_primary t1) as Ht1
      by (by apply cleared_at_most_one).
    destruct (AuditableModel_save_full now fresh self t1)
      as [[->|(r & -> & Hown & _)] _]; [done|].
    apply insert_at_most_one; [done|].
    rewrite Hown. intros Hprim k' r' Hk' Hperson. unfold t1 in Hk'.
    apply cleared_lookup in Hk' as (_ & _ & _ & _ & Hnone). by apply Hnone.
  - destruct (AuditableModel_save_full now fresh self t)
      as [[->|(r & -> & Hown & _)] _]; [done|].
    apply insert_at_most_one; [done|].
    rewrite Hown. unfold attr in Hself. by rewrite Hself.
Qed.

Lemma primary_save_returns persons now fresh update_fields self t t' self' :
  attr is_primary self = true →
  primary_save persons now fresh update_fields self t = (t', Returns self') →
  saved_as_only_primary update_fields self t' self'.
Proof.
  intros Hprim. rewrite primary_save_eq, Hprim.
  destruct (persons !! attr person self) as [owner|]; [|done]. intros Hsave.
  pose proof (AuditableModel_save_wrote now fresh update_fields self
                (cleared (attr person self) t)) as Hwrote.
  pose proof (AuditableModel_save_full now fresh self
                (cleared (attr person self) t)) as [_ Hfull].
  rewrite Hsave in Hwrote. simpl in Hwrote.
  apply AuditableModel_save_returns in Hsave as Hret.
  destruct Hret as (Hpk & _ & Hown). unfold saved_as_only_primary, attr.
  rewrite Hown. split_and!; [done|done|..].
  - intros k r Hk Hne Hperson.
    rewrite (wrote_other _ _ _ _ Hwrote) in Hk by congruence.
    apply cleared_lookup in Hk as (_ & _ & _ & _ & Hnone). by apply Hnone.
  - intros ->. rewrite Hsave in Hfull. destruct (Hfull self' eq_refl) as (r & Hk & Hr).
    exists (default fresh (pk self)), r. rewrite Hr. split_and!; done.
Qed.
End primary.

Section primary_models.
Context `{!Environment}.

Lemma BankAccount_save_eq :
  BankAccount.save
  = primary_save BankAccount.person BankAccount.is_primary BankAccount.set_is_primary.
Proof. reflexivity. Qed.

Lemma PhoneNumber_save_eq :
  PhoneNumber.save
  = primary_save PhoneNumber.person PhoneNumber.is_primary PhoneNumber.set_is_primary.
Proof. reflexivity. Qed.

Lemma EmailAddress_save_eq :
  EmailAddress.save
  = primary_save EmailAddress.person EmailAddress.is_primary EmailAddress.set_is_primary.
Proof. reflexivity. Qed.

Lemma BankAccount_save_at_most_one persons now fresh self t :
  at_most_one_primary BankAccount.person BankAccount.is_primary t →
  at_most_one_primary BankAccount.person BankAccount.is_primary
    (final (BankAccount.save persons now fresh None self) t).
Proof. rewrite BankAccount_save_eq. by apply primary_save_at_most_one. Qed.

Lemma PhoneNumber_save_at_most_one persons now fresh self t :
  at_most_one_primary PhoneNumber.person PhoneNumber.is_primary t →
  at_most_one_primary PhoneNumber.person PhoneNumber.is_primary
    (final (PhoneNumber.save persons now fresh None self) t).
Proof. rewrite PhoneNumber_save_eq. by apply primary_save_at_most_one. Qed.

Lemma EmailAddress_save_at_most_one persons now fresh self t :
  at_most_one_primary EmailAddress.person EmailAddress.is_primary t →
  at_most_one_primary EmailAddress.person EmailAddress.is_primary
    (final (EmailAddress.save persons now fresh None self) t).
Proof. rewrite EmailAddress_save_eq. by apply primary_save_at_most_one. Qed.

Lemma empty_at_most_one {F} (person : F → uuid) (is_primary : F → bool) :
  at_most_one_primary person is_primary (∅ : Table F).
Proof. intros p k1 k2 (r & Hk & _). by rewrite lookup_empty in Hk. Qed.

Lemma step_at_most_one db db' :
  step db db' → db_at_most_one_primary db → db_at_most_one_primary db'.
Proof.
  intros Hstep (?&?&?).
  destruct Hstep; unfold db_at_most_one_primary; cbn -[final]; split_and!;
    auto using BankAccount_save_at_most_one, PhoneNumber_save_at_most_one,
      EmailAddress_save_at_most_one.
Qed.

Lemma reachable_at_most_one (db : DB) : reachable db → db_at_most_one_primary db.
Proof.
  induction 1 as [|db db' _ IH Hstep].
  - unfold db_at_most_one_primary; simpl; split_and!; apply empty_at_most_one.
  - by eapply step_at_most_one.
Qed.

End primary_models.

(** ** Soft delete and restore *)

Section partial_save.
Context `{!Environment} `{!Model F}.
Implicit Types (t : Table F) (self : Instance F) (k : uuid).

(** Saving some columns of an object that is not being added and has a
    row. *)
Lemma Model_save_update now fresh name names self k t stored :
  is_Some (assign_columns (name :: names) (row self) (row self)) →
  pk self = Some k → adding self = false → t !! k = Some stored →
  let self' :=
    if bool_decide ("updated_at" ∈ name :: names)
    then map_row (set_updated_at (Some now)) self else self in
  let new := default stored (assign_columns (name :: names) (row self') stored) in
  Model_save now fresh (Some (name :: names)) self t
  = if violates k new t then (t, Raises IntegrityError)
    else (<[k:=new]> t, Returns self').
Proof.
  intros [x Hvalid] Hpk Hadd Hk self' new.
  destruct self as [pk0 adding0 row0]. cbn [pk adding row] in *. subst pk0 adding0.
  unfold Model_save. change (default [] (Some (name :: names))) with (name :: names).
  cbn [pk adding row]. rewrite Hvalid. change (default fresh (Some k)) with k.
  unfold set_pk. cbn [pk adding row]. unfold bind, sql_update, ret.
  rewrite Hk. fold self'. fold new. by destruct (violates k new t).
Qed.

(** Saving an object that is being added when its key has a row. *)
Lemma Model_save_adding_taken now fresh name names self k t stored :
  is_Some (assign_columns (name :: names) (row self) (row self)) →
  pk self = Some k → adding self = true → t !! k = Some stored →
  Model_save now fresh (Some (name :: names)) self t = (t, Raises IntegrityError).
Proof.
  intros [x Hvalid] Hpk Hadd Hk.
  destruct self as [pk0 adding0 row0]. cbn [pk adding row] in *. subst pk0 adding0.
  unfold Model_save. change (default [] (Some (name :: names))) with (name :: names).
  cbn [pk adding row]. rewrite Hvalid. change (default fresh (Some k)) with k.
  unfold set_pk. cbn [pk adding row]. unfold bind, sql_insert.
  by rewrite Hk.
Qed.
End partial_save.

Section soft_delete.
Context `{!Environment}.
Implicit Types (t : Table Person.fields) (self : Instance Person.fields) (k : uuid).

Lemma assign_flags (src stored : Row Person.fields) :
  assign_columns ["is_active"; "deleted_at"] src stored
  = Some (map_own (with_flags (own src)) stored).
Proof. by destruct stored as [? ? ? ? ? []]. Qed.

Lemma AuditableModel_save_flags now fresh self k t stored :
  pk self = Some k → t !! k = Some stored →
  AuditableModel.save now fresh (Some ["is_active"; "deleted_at"]) self t
  = if adding self then (t, Raises IntegrityError)
    else if violates k (map_own (with_flags (own (row self))) stored) t
    then (t, Raises IntegrityError)
    else (<[k:=flagged self stored]> t,
          Returns (map_row (set_updated_at_nepali
                              (gregorian_to_nepali_string (updated_at (row self)))) self)).
Proof.
  intros Hpk Hk. unfold AuditableModel.save. rewrite Hpk.
  rewrite bool_decide_eq_false_2 by done. unfold bind at 1.
  destruct (adding self) eqn:Hadd.
  - erewrite Model_save_adding_taken; [done|by rewrite assign_flags|done..].
  - erewrite Model_save_update; [|by rewrite assign_flags|done..].
    replace (bool_decide ("updated_at" ∈ ["is_active"; "deleted_at"])) with false
      by reflexivity.
    rewrite assign_flags.
    cbn [default from_option id].
    set (new := map_own (with_flags (own (row self))) stored).
    destruct (violates k new t) eqn:Hv; [done|].
    erewrite Model_save_update; [|done|done|done|apply lookup_insert_eq].
    replace (bool_decide ("updated_at" ∈ ["updated_at_nepali"])) with false
      by reflexivity.
    change (default new (assign_columns _ _ new)) with (flagged self stored).
    rewrite violates_insert, (violates_own _ _ new), Hv by done.
    by rewrite insert_insert_eq.
Qed.

(** [Person.save] with the soft-delete columns: the slug that a blank
    slug makes it compute stays in memory. *)
Lemma Person_save_flags now fresh self k t stored :
  pk self = Some k → t !! k = Some stored →
  ∃ self',
    attr Person.is_active self' = attr Person.is_active self
    ∧ attr Person.deleted_at self' = attr Person.deleted_at self
    ∧ Person.save now fresh (Some ["is_active"; "deleted_at"]) self t
      = if adding self then (t, Raises IntegrityError)
        else if violates k (map_own (with_flags (own (row self))) stored) t
        then (t, Raises IntegrityError)
        else (<[k:=flagged self stored]> t, Returns self').
Proof.
  intros Hpk Hk. unfold Person.save.
  destruct (negb (truthy (attr Person.slug self))).
  - unfold bind.
    match goal with
    | |- context [unique_slugify self ?v ?f ?q ?sep t] =>
        destruct (unique_slugify_returns self v f q sep t) as (slug & ->)
    end.
    erewrite AuditableModel_save_flags; [|done..]. eexists. split_and!; [..|done]; done.
  - unfold bind, ret.
    erewrite AuditableModel_save_flags; [|done..]. eexists. split_and!; [..|done]; done.
Qed.

Lemma flagged_violates self k t stored :
  consistent t → t !! k = Some stored →
  violates k (map_own (with_flags (own (row self))) stored) t = false.
Proof.
  intros Ht Hk. apply violates_false. intros k' r' Hk' Hne.
  rewrite <-(Ht k k' stored r' Hk Hk') by done. done.
Qed.

Lemma Person_save_flags_frame now fresh self k t stored :
  pk self = Some k → t !! k = Some stored →
  flags_frame self k t stored
    (final (Person.save now fresh (Some ["is_active"; "deleted_at"]) self) t).
Proof.
  intros Hpk Hk. unfold final.
  destruct (Person_save_flags now fresh self k t stored Hpk Hk) as (self' & _ & _ & ->).
  assert (flags_frame self k t stored t) as Hsame.
  { split; [done|]. exists stored. unfold unchanged_outside_flags. split_and!; auto. }
  destruct (adding self); [done|]. destruct (violates k _ t); [done|]. simpl.
  split.
  - intros k' Hne. by rewrite lookup_insert_ne.
  - exists (flagged self stored). rewrite lookup_insert_eq.
    unfold unchanged_outside_flags. split_and!; auto.
Qed.

Lemma action_lookup (g : Person.fields → Person.fields) (queryset : QuerySet Person.fields)
    (msg : nat → string) t k :
  (bind (qs_update (map_own g) queryset) (λ updated, ret (msg updated)) t).1 !! k
  = (λ r, if queryset k r then map_own g r else r) <$> t !! k.
Proof. unfold bind, ret. simpl. rewrite map_lookup_imap. by destruct (t !! k). Qed.

(** What the admin actions and the two methods do to a stored person:
    shared by the statements below. *)
Lemma action_soft_delete_lookup now (queryset : QuerySet Person.fields) t k :
  final (SoftDeleteAdminActionMixin.action_soft_delete now queryset) t !! k
  = (λ r, if queryset k r
          then map_own (λ f, Person.set_deleted_at (Some now) (Person.set_is_active false f)) r
          else r) <$> t !! k.
Proof. apply action_lookup. Qed.

Lemma action_restore_lookup (queryset : QuerySet Person.fields) t k :
  final (SoftDeleteAdminActionMixin.action_restore queryset) t !! k
  = (λ r, if queryset k r
          then map_own (λ f, Person.set_deleted_at None (Person.set_is_active true f)) r
          else r) <$> t !! k.
Proof. apply action_lookup. Qed.

(** The outcome of saving the soft-delete columns of an object that was
    loaded from a consistent table. *)
Lemma Person_save_flags_returns now fresh self k t stored :
  pk self = Some k → adding self = false → t !! k = Some stored → consistent t →
  ∃ t' self' r',
    Person.save now fresh (Some ["is_active"; "deleted_at"]) self t = (t', Returns self')
    ∧ t' !! k = Some r'
    ∧ Person.is_active (own r') = attr Person.is_active self
    ∧ Person.deleted_at (own r') = attr Person.deleted_at self
    ∧ attr Person.is_active self' = attr Person.is_active self
    ∧ attr Person.deleted_at self' = attr Person.deleted_at self.
Proof.
  intros Hpk Hadd Hk Ht.
  destruct (Person_save_flags now fresh self k t stored Hpk Hk)
    as (self' & Hact & Hdel & ->).
  rewrite Hadd, flagged_violates by done.
  exists (<[k:=flagged self stored]> t), self', (flagged self stored).
  rewrite lookup_insert_eq. split_and!; done.
Qed.
End soft_delete.

Section soft_delete_claims.
Context `{!Environment}.

(** C7. On a stored person selected by the query set, the admin soft-delete
    action sets [is_active = False] and [deleted_at] to the current time,
    and the restore action sets [is_active = True] and
    [deleted_at = None]; [Person.soft_delete] and [Person.restore] on an
    object loaded from a table that satisfies its uniqueness constraints
    return and leave the same values in the stored person and in the
    object. *)
Theorem soft_delete_and_restore_spec now fresh (queryset : QuerySet Person.fields)
    (t : Table Person.fields) k stored :
  t !! k = Some stored →
  (queryset k stored = true →
     ∃ r', final (SoftDeleteAdminActionMixin.action_soft_delete now queryset) t !! k = Some r'
           ∧ Person.is_active (own r') = false
           ∧ Person.deleted_at (own r') = Some now)
  ∧ (queryset k stored = true →
       ∃ r', final (SoftDeleteAdminActionMixin.action_restore queryset) t !! k = Some r'
             ∧ Person.is_active (own r') = true
             ∧ Person.deleted_at (own r') = None)
  ∧ (∀ self, pk self = Some k → adding self = false → consistent t →
       ∃ t' self' r',
         Person.soft_delete now fresh self t = (t', Returns self')
         ∧ t' !! k = Some r'
         ∧ Person.is_active (own r') = false
         ∧ Person.deleted_at (own r') = Some now
         ∧ attr Person.is_active self' = false
         ∧ attr Person.deleted_at self' = Some now)
  ∧ (∀ self, pk self = Some k → adding self = false → consistent t →
       ∃ t' self' r',
         Person.restore now fresh self t = (t', Returns self')
         ∧ t' !! k = Some r'
         ∧ Person.is_active (own r') = true
         ∧ Person.deleted_at (own r') = None
         ∧ attr Person.is_active self' = true
         ∧ attr Person.deleted_at self' = None).
Proof.
  intros Hk. split_and!.
  - intros Hsel. eexists. rewrite action_soft_delete_lookup, Hk. simpl.
    rewrite Hsel. done.
  - intros Hsel. eexists. rewrite action_restore_lookup, Hk. simpl.
    rewrite Hsel. done.
  - intros self Hpk Hadd Ht. unfold Person.soft_delete.
    set (self1 := update_attr _ (update_attr _ self)).
    by apply (Person_save_flags_returns now fresh self1 k t stored).
  - intros self Hpk Hadd Ht. unfold Person.restore.
    set (self1 := update_attr _ (update_attr _ self)).
    by apply (Person_save_flags_returns now fresh self1 k t stored).
Qed.

(** C10, as the code has it. [Person.soft_delete] and [Person.restore]
    leave every other person as stored, and of the person they are called
    on they leave post, name, photo, computer_code, identity_no, slug,
    is_working, branch_address, created_at, updated_at, created_at_nepali
    and created_by as stored; besides [is_active] and [deleted_at] they
    may write [updated_at_nepali], and then with the Nepali rendering of
    the [updated_at] the object has in memory, which changes nothing when
    that is what was stored. *)
Theorem soft_delete_restore_frame now fresh (self : Instance Person.fields) k
    (t : Table Person.fields) stored :
  pk self = Some k → t !! k = Some stored →
  flags_frame self k t stored (final (Person.soft_delete now fresh self) t)
  ∧ flags_frame self k t stored (final (Person.restore now fresh self) t).
Proof.
  intros Hpk Hk. unfold Person.soft_delete, Person.restore. split.
  - set (self1 := update_attr _ (update_attr _ self)).
    by apply (Person_save_flags_frame now fresh self1 k t stored).
  - set (self1 := update_attr _ (update_attr _ self)).
    by apply (Person_save_flags_frame now fresh self1 k t stored).
Qed.
End soft_delete_claims.

(** ** Primary records in the reachable states *)

Section primary_records.
Context `{!Environment}.

Lemma primary_save_makes_no_primary `{!Model F} (person : F → uuid)
    (is_primary : F → bool) (set_is_primary : bool → F → F) persons now fresh
    (self : Instance F) (t : Table F) :
  attr is_primary self = false →
  makes_no_primary is_primary t
    (final (primary_save person is_primary set_is_primary persons now fresh None self) t).
Proof.
  intros Hself k r' Hk Hprim. unfold final in Hk.
  rewrite primary_save_eq, Hself in Hk.
  destruct (AuditableModel_save_full now fresh self t)
    as [[Hsame|(r & Heq & Hown & _)] _].
  - by rewrite Hsame in Hk.
  - rewrite Heq in Hk. destruct (decide (k = default fresh (pk self))) as [->|Hne].
    + rewrite lookup_insert_eq in Hk. injection Hk as <-.
      unfold attr in Hself. rewrite Hown in Hprim. congruence.
    + by rewrite lookup_insert_ne in Hk.
Qed.

Lemma PhoneNumber_cleared_lookup p (t : Table PhoneNumber.fields) k :
  cleared PhoneNumber.person PhoneNumber.is_primary PhoneNumber.set_is_primary p t !! k
  = (λ r, if bool_decide (PhoneNumber.person (own r) = p) && PhoneNumber.is_primary (own r)
          then map_own (PhoneNumber.set_is_primary false) r else r) <$> t !! k.
Proof. unfold cleared. by rewrite qs_update_lookup. Qed.

Lemma assign_is_primary (src stored : Row PhoneNumber.fields) :
  assign_columns ["is_primary"] src stored
  = Some (map_own (PhoneNumber.set_is_primary (PhoneNumber.is_primary (own src))) stored).
Proof. by destruct stored as [? ? ? ? ? []]. Qed.

(** Saving the primary flag alone of a phone number whose person was
    changed in memory: the numbers of the person in memory are cleared, and
    the flag is written to the row, which keeps the person it had. *)
Lemma PhoneNumber_save_flag_alone persons now fresh (self : Instance PhoneNumber.fields)
    k (t : Table PhoneNumber.fields) stored :
  pk self = Some k → adding self = false → t !! k = Some stored →
  violates k stored t = false →
  attr PhoneNumber.is_primary self = true →
  is_Some (persons !! attr PhoneNumber.person self) →
  PhoneNumber.person (own stored) ≠ attr PhoneNumber.person self →
  final (PhoneNumber.save persons now fresh (Some ["is_primary"]) self) t
  = <[k := set_updated_at_nepali (gregorian_to_nepali_string (updated_at (row self)))
             (map_own (PhoneNumber.set_is_primary true) stored)]>
      (cleared PhoneNumber.person PhoneNumber.is_primary PhoneNumber.set_is_primary
         (attr PhoneNumber.person self) t).
Proof.
  intros Hpk Hadd Hk Ht Hprim [owner Howner] Hmoved. unfold final.
  rewrite PhoneNumber_save_eq, primary_save_eq, Hprim, Howner.
  set (t1 := cleared _ _ _ _ t).
  assert (t1 !! k = Some stored) as Hk1.
  { unfold t1. rewrite PhoneNumber_cleared_lookup, Hk. cbn.
    by rewrite bool_decide_eq_false_2. }
  set (new := map_own (PhoneNumber.set_is_primary true) stored).
  assert (violates k new t1 = false) as Hv.
  { apply violates_false. intros k' r1 Hk' Hne. unfold t1 in Hk'.
    rewrite PhoneNumber_cleared_lookup in Hk'.
    destruct (t !! k') as [r'|] eqn:Hr'; [|done]. cbn in Hk'. injection Hk' as <-.
    rewrite <-(proj1 (violates_false k stored t) Ht k' r' Hr' Hne).
    by destruct (_ && _). }
  unfold AuditableModel.save. rewrite Hpk.
  rewrite bool_decide_eq_false_2 by done. unfold bind at 1.
  erewrite Model_save_update; [|by rewrite assign_is_primary|done..].
  replace (bool_decide ("updated_at" ∈ ["is_primary"])) with false by reflexivity.
  rewrite assign_is_primary. cbn [default from_option id].
  unfold attr in Hprim. rewrite Hprim. fold new. rewrite Hv.
  erewrite Model_save_update; [|done|done|done|apply lookup_insert_eq].
  replace (bool_decide ("updated_at" ∈ ["updated_at_nepali"])) with false
    by reflexivity.
  cbn [row map_row assign_columns].
  rewrite violates_insert.
  match goal with |- context [violates k ?r t1] =>
    rewrite (violates_own k r new) by done end.
  rewrite Hv. cbn [fst]. by rewrite insert_insert_eq.
Qed.

(** C1, as the code has it. In every state that the operations of the
    application reach from the empty database (each model's [save()]
    without [update_fields], [Person.soft_delete], [Person.restore] and
    the two admin actions), every person has at most one bank account, at
    most one phone number and at most one email address with
    [is_primary = True].  There need not be one: such a [save()] of a
    record with [is_primary = False] makes no record primary.  The bound
    does not extend to saves with [update_fields]: saving the primary flag
    alone of a phone number whose person was changed in memory leaves the
    row with the person it had, who then has two primary numbers when it
    had one ([violates k stored t = false] says that no other row has the
    person and the number of the stored row). *)
Theorem at_most_one_primary_in_reachable_states :
  (∀ db, reachable db → db_at_most_one_primary db)
  ∧ (∀ persons now fresh,
       (∀ self t, attr BankAccount.is_primary self = false →
          makes_no_primary BankAccount.is_primary t
            (final (BankAccount.save persons now fresh None self) t))
       ∧ (∀ self t, attr PhoneNumber.is_primary self = false →
            makes_no_primary PhoneNumber.is_primary t
              (final (PhoneNumber.save persons now fresh None self) t))
       ∧ (∀ self t, attr EmailAddress.is_primary self = false →
            makes_no_primary EmailAddress.is_primary t
              (final (EmailAddress.save persons now fresh None self) t)))
  ∧ (∀ persons now fresh self k k' (t : Table PhoneNumber.fields) stored other,
       pk self = Some k → adding self = false →
       t !! k = Some stored → violates k stored t = false →
       t !! k' = Some other → k ≠ k' →
       PhoneNumber.person (own other) = PhoneNumber.person (own stored) →
       PhoneNumber.is_primary (own other) = true →
       attr PhoneNumber.is_primary self = true →
       is_Some (persons !! attr PhoneNumber.person self) →
       PhoneNumber.person (own stored) ≠ attr PhoneNumber.person self →
       ¬ at_most_one_primary PhoneNumber.person PhoneNumber.is_primary
           (final (PhoneNumber.save persons now fresh (Some ["is_primary"]) self) t)).
Proof.
  split_and!.
  - apply reachable_at_most_one.
  - intros persons now fresh. split_and!; intros self t Hself.
    + rewrite BankAccount_save_eq. by apply primary_save_makes_no_primary.
    + rewrite PhoneNumber_save_eq. by apply primary_save_makes_no_primary.
    + rewrite EmailAddress_save_eq. by apply primary_save_makes_no_primary.
  - intros persons now fresh self k k' t stored other Hpk Hadd Hk Ht Hk' Hne
      Hperson Hother Hprim Howner Hmoved Hone.
    rewrite (PhoneNumber_save_flag_alone persons now fresh self k t stored) in Hone
      by done.
    apply Hne, (Hone (PhoneNumber.person (own stored))).
    + eexists. rewrite lookup_insert_eq. by split_and!.
    + exists other. rewrite lookup_insert_ne by done. split_and!; [|done..].
      rewrite PhoneNumber_cleared_lookup, Hk'. cbn.
      rewrite bool_decide_eq_false_2 by congruence. done.
Qed.
End primary_records.

(** * Runs on concrete data *)

Section sample_facts.
Import Sample.
#[local] Existing Instance Sample.E.

Lemma reachable_db5 : reachable db5.
Proof.
  unfold db5, db4, db3, db2, db1.
  eapply reachable_step; [|apply step_Person_save].
  do 3 (eapply reachable_step; [|apply step_PhoneNumber_save]).
  eapply reachable_step; [|apply step_Person_save]. apply reachable_empty.
Qed.

Lemma reachable_db6 : reachable db6.
Proof.
  unfold db6, db5_district, db5_province.
  do 2 (eapply reachable_step; [|apply step_District_save]).
  eapply reachable_step; [|apply step_Province_save].
  apply reachable_db5.
Qed.

Lemma db2_person : persons db2 !! 1%N = Some (row hari_loaded).
Proof. vm_compute. reflexivity. Qed.

Lemma db2_no_primary_phone :
  map_Forall (λ _ r, PhoneNumber.is_primary (own r) = false) (phones db2).
Proof. apply map_Forall_to_list. vm_compute. repeat constructor. Qed.

(** C1, as stated, fails: after a person was added and given a phone
    number that is not marked primary, the person has no primary phone
    number. *)
Lemma a_person_without_primary_phone :
  ¬ (∀ db, reachable db → every_person_has_one_primary db).
Proof.
  intros Hclaim.
  assert (reachable db2) as Hreach.
  { unfold db2, db1. eapply reachable_step; [|apply step_PhoneNumber_save].
    eapply reachable_step; [|apply step_Person_save]. apply reachable_empty. }
  destruct (Hclaim db2 Hreach 1%N (ex_intro _ _ db2_person))
    as (_ & (k & (r & Hk & _ & Hprim) & _) & _).
  rewrite (db2_no_primary_phone k r Hk) in Hprim. discriminate Hprim.
Qed.

Lemma hari_loaded_pk : pk hari_loaded = Some 1%N.
Proof. vm_compute. reflexivity. Qed.

Lemma db5_person : persons db5 !! 1%N = Some hari_row.
Proof. vm_compute. reflexivity. Qed.

Lemma soft_delete_stale :
  final (Person.soft_delete (Demo.at_noon 3) 0 hari_loaded) (persons db5) !! 1%N
  = Some (flagged (update_attr (Person.set_deleted_at (Some (Demo.at_noon 3)))
                     (update_attr (Person.set_is_active false) hari_loaded)) hari_row).
Proof. vm_compute. reflexivity. Qed.

(** C10, as stated, fails: a person is loaded on day 1 and saved again on
    day 2; [soft_delete] on the object loaded on day 1 then replaces the
    stored [updated_at_nepali] of day 2 by that of day 1. *)
Lemma soft_delete_rewrites_updated_at_nepali : ¬ soft_delete_changes_only_flags.
Proof.
  intros Hclaim.
  destruct (Hclaim db5 reachable_db5 (Demo.at_noon 3) 0%N hari_loaded 1%N hari_row
              hari_loaded_pk db5_person) as (r' & Hk & _ & Hnepali).
  rewrite soft_delete_stale in Hk. injection Hk as <-.
  vm_compute in Hnepali. discriminate Hnepali.
Qed.

(** C5 fails on the code. A bank whose name is 180 letters "a" is saved
    when a bank with the slug of 180 letters "a" exists: [unique_slugify]
    gives it that slug followed by "-1", 182 characters, which [Bank.save]
    stores in the slug column declared with [max_length=180]. *)
Theorem unique_slugify_exceeds_max_length :
  String.length (repeated 180 "a") = 180
  ∧ (λ r, Bank.slug (own r)) <$> banks1 !! 50%N = Some (repeated 180 "a")
  ∧ ∃ self',
      Bank.save (Demo.at_noon 1) 0 None (Demo.new 51 (bank (repeated 180 "a"))) banks1
      = (banks2, Returns self')
      ∧ attr Bank.slug self' = repeated 180 "a" +:+ "-1"
      ∧ String.length (attr Bank.slug self') = 182
      ∧ (λ r, Bank.slug (own r)) <$> banks2 !! 51%N = Some (attr Bank.slug self').
Proof.
  split; [reflexivity|]. split; [by vm_compute|].
  eexists. split; [vm_compute; reflexivity|]. by vm_compute.
Qed.

Lemma slugs_unique_witness :
  slugs_unique_within District.province District.slug (districts db6)
  ∧ slugs_unique Person.slug (persons db6).
Proof.
  assert (reachable db6) as Hreach.
  { unfold db6, db5_district, db5_province, db5, db4, db3, db2, db1.
    do 2 (eapply reachable_step; [|apply step_District_save]).
    eapply reachable_step; [|apply step_Province_save].
    eapply reachable_step; [|apply step_Person_save].
    do 3 (eapply reachable_step; [|apply step_PhoneNumber_save]).
    eapply reachable_step; [|apply step_Person_save]. apply reachable_empty. }
  destruct (slugs_unique_in_reachable_states db6 Hreach)
    as (Hdistricts & _ & _ & _ & _ & _ & _ & _ & Hpersons).
  exact (conj Hdistricts Hpersons).
Defined.


Lemma gregorian_to_nepali_string_witness :
  @gregorian_to_nepali_string E_nepali (Some (Demo.at_noon 1)) = "2080-09-16 12:00:00"
  ∧ @gregorian_to_nepali_string E_nepali (Some (Demo.at_noon 2)) = "2024-01-02 12:00:00"
  ∧ @gregorian_to_nepali_string E (Some (Demo.at_noon 1)) = "2024-01-01 12:00:00".
Proof.
  split_and!.
  - etrans.
    + apply (proj1 (@gregorian_to_nepali_string_spec E_nepali (Demo.at_noon 1))
               {| nd_year := 2080; nd_month := 9; nd_day := 16 |});
        reflexivity.
    + reflexivity.
  - etrans.
    + apply (proj2 (@gregorian_to_nepali_string_spec E_nepali (Demo.at_noon 2))).
      right. reflexivity.
    + reflexivity.
  - etrans.
    + apply (proj2 (@gregorian_to_nepali_string_spec E (Demo.at_noon 1))).
      left. reflexivity.
    + reflexivity.
Defined.

Lemma soft_delete_and_restore_witness :
  (∃ r', final (SoftDeleteAdminActionMixin.action_soft_delete (Demo.at_noon 3) all)
           (persons db5) !! 1%N = Some r'
         ∧ Person.is_active (own r') = false
         ∧ Person.deleted_at (own r') = Some (Demo.at_noon 3))
  ∧ (∃ t' self' r',
       Person.soft_delete (Demo.at_noon 3) 0 hari_reloaded (persons db5) = (t', Returns self')
       ∧ t' !! 1%N = Some r'
       ∧ Person.is_active (own r') = false
       ∧ Person.deleted_at (own r') = Some (Demo.at_noon 3)
       ∧ attr Person.is_active self' = false
       ∧ attr Person.deleted_at self' = Some (Demo.at_noon 3)).
Proof.
  assert (persons db5 !! 1%N = Some hari_row) as Hk by (vm_compute; reflexivity).
  destruct (@soft_delete_and_restore_spec E (Demo.at_noon 3) 0%N all (persons db5) 1%N
              hari_row Hk) as (Haction & _ & Hmethod & _).
  split.
  - apply Haction. reflexivity.
  - apply Hmethod; [reflexivity|reflexivity|].
    apply reachable_consistent, reachable_db5.
Defined.

Lemma Person_full_address_witness :
  Person.full_address bagmati kathmandu kmc ward5 hari_loaded
  = Returns "Ward 5, Kathmandu Metropolitan City, Kathmandu, Bagmati"
  ∧ Person.full_address bagmati kathmandu kmc ward5 (Demo.new 2 nowhere) = Returns "".
Proof.
  split.
  - etrans.
    + eapply (proj1 (Person_full_address_spec bagmati kathmandu kmc ward5 hari_loaded));
        reflexivity.
    + vm_compute. reflexivity.
  - apply (proj2 (Person_full_address_spec bagmati kathmandu kmc ward5 _)). reflexivity.
Defined.

Lemma PersonManager_search_witness :
  evaluate (PersonManager.search (Some "SHARMA")) (persons db5) !! 1%N = Some hari_row
  ∧ evaluate (PersonManager.search (Some "")) (persons db5) = persons db5.
Proof.
  split.
  - apply (proj2 (PersonManager_search_spec (Some "SHARMA") (persons db5))
             "SHARMA" eq_refl).
    + discriminate.
    + split; [vm_compute; reflexivity|]. left. exists "Hari ", "Sharma", "".
      split; reflexivity.
  - apply (proj1 (PersonManager_search_spec (Some "") (persons db5))). by right.
Defined.

Lemma soft_delete_restore_frame_witness :
  flags_frame hari_loaded 1 (persons db5) hari_row
    (final (Person.soft_delete (Demo.at_noon 3) 0 hari_loaded) (persons db5))
  ∧ flags_frame hari_loaded 1 (persons db5) hari_row
      (final (Person.restore (Demo.at_noon 3) 0 hari_loaded) (persons db5)).
Proof.
  apply (@soft_delete_restore_frame E (Demo.at_noon 3) 0%N hari_loaded 1%N (persons db5)
           hari_row).
  - reflexivity.
  - vm_compute. reflexivity.
Defined.
End sample_facts.

(** * Further properties of the code *)

(** ** What a full save stores *)

Section full_save.
Context `{!Environment} `{!Model F}.
Implicit Types (t : Table F) (self : Instance F) (k : uuid).

Lemma own_base_row now fresh self t : own (base_row now fresh self t) = own (row self).
Proof. unfold base_row. by destruct (inserting fresh self t). Qed.

Lemma Model_save_full_exact now fresh self t :
  Model_save now fresh None self t
  = if blocked fresh self t then (t, Raises IntegrityError)
    else (<[default fresh (pk self) := base_row now fresh self t]> t,
          Returns {| pk := Some (default fresh (pk self)); adding := false;
                     row := base_row now fresh self t |}).
Proof.
  unfold blocked, base_row, inserting.
  destruct self as [pk0 adding0 row0]. unfold Model_save.
  cbn [default from_option pk adding row set_pk map_row set_adding assign_columns].
  set (k := from_option id fresh pk0).
  unfold bind, sql_insert, sql_update, ret.
  destruct adding0; cbn [orb andb].
  - destruct (t !! k) as [old|] eqn:Hk.
    + by rewrite bool_decide_eq_true_2 by eauto.
    + rewrite bool_decide_eq_false_2 by (by intros [? ?]). cbn [orb].
      by destruct (violates k _ t).
  - destruct (t !! k) as [old|] eqn:Hk.
    + rewrite bool_decide_eq_false_2 by done.
      by destruct (violates k _ t).
    + rewrite bool_decide_eq_true_2 by done. cbn [fst snd]. rewrite Hk.
      by destruct (violates k _ t).
Qed.

Lemma AuditableModel_save_full_exact now fresh self t :
  AuditableModel.save now fresh None self t
  = if blocked fresh self t then (t, Raises IntegrityError)
    else (<[default fresh (pk self) := saved_row now fresh self t]> t,
          Returns {| pk := Some (default fresh (pk self)); adding := false;
                     row := saved_row now fresh self t |}).
Proof.
  unfold AuditableModel.save, saved_row.
  set (k := default fresh (pk self)). set (r := base_row now fresh self t).
  destruct (bool_decide (pk self = None)); unfold bind;
    rewrite Model_save_full_exact; fold k; fold r;
    (destruct (blocked fresh self t) eqn:Hblocked; [done|]);
    (assert (violates k r t = false) as Hv
       by (unfold blocked in Hblocked; apply orb_false_iff in Hblocked as [_ Hv];
           by rewrite (violates_own _ _ (row self)) by apply own_base_row));
    (erewrite Model_save_update;
       [|by eexists|reflexivity|reflexivity|apply lookup_insert_eq]).
  - replace (bool_decide ("updated_at" ∈ ["created_at_nepali"; "updated_at_nepali"]))
      with false by reflexivity.
    cbn [row map_row assign_columns].
    rewrite violates_insert, insert_insert_eq.
    by rewrite (violates_own _ _ r), Hv.
  - replace (bool_decide ("updated_at" ∈ ["updated_at_nepali"])) with false by reflexivity.
    cbn [row map_row assign_columns].
    rewrite violates_insert, insert_insert_eq.
    by rewrite (violates_own _ _ r), Hv.
Qed.
End full_save.

Section full_save_properties.
Context `{!Environment} `{!Model F}.
Implicit Types (t : Table F) (self : Instance F) (k : uuid).

Lemma blocked_true fresh self t :
  blocked fresh self t = true
  ↔ (adding self = true ∧ is_Some (t !! default fresh (pk self)))
    ∨ ∃ k' r', t !! k' = Some r' ∧ k' ≠ default fresh (pk self)
               ∧ conflict (own (row self)) (own r') = true.
Proof.
  unfold blocked.
  by rewrite orb_true_iff, andb_true_iff, bool_decide_eq_true, violates_true.
Qed.

(** X1. When a full [AuditableModel.save] returns, the object has its key
    and is no longer being added, its row is the row stored under that key,
    no other row changed, the declared columns and [created_by] are those
    the object had, [updated_at] is the time of the save and
    [updated_at_nepali] its rendering, and [created_at] is the time of the
    save when the row was inserted and the value the object had when the row
    was updated. *)
Theorem AuditableModel_save_returns_stored now fresh self t t' self' :
  AuditableModel.save now fresh None self t = (t', Returns self') →
  pk self' = Some (default fresh (pk self)) ∧ adding self' = false
  ∧ t' !! default fresh (pk self) = Some (row self')
  ∧ (∀ k', k' ≠ default fresh (pk self) → t' !! k' = t !! k')
  ∧ own (row self') = own (row self)
  ∧ created_by (row self') = created_by (row self)
  ∧ updated_at (row self') = Some now
  ∧ updated_at_nepali (row self') = gregorian_to_nepali_string (Some now)
  ∧ created_at (row self')
    = if inserting fresh self t then Some now else created_at (row self).
Proof.
  rewrite AuditableModel_save_full_exact.
  destruct (blocked fresh self t); [done|]. intros [= <- <-]. cbn [pk adding row].
  split_and!; [done|done|apply lookup_insert_eq| | | | | |].
  - intros k' Hne. by rewrite lookup_insert_ne.
  - unfold saved_row. cbn. destruct (bool_decide (pk self = None)); apply own_base_row.
  - unfold saved_row, base_row.
    by destruct (bool_decide (pk self = None)), (inserting fresh self t).
  - unfold saved_row, base_row.
    by destruct (bool_decide (pk self = None)), (inserting fresh self t).
  - unfold saved_row. by destruct (bool_decide (pk self = None)).
  - unfold saved_row, base_row.
    by destruct (bool_decide (pk self = None)), (inserting fresh self t).
Qed.

(** X2. A full [AuditableModel.save] is all or nothing.  It raises
    [IntegrityError] and leaves the table as it was when the object is being
    added under a key that has a row or when its declared columns are in
    conflict with another row.  Whatever the outcome, either the save raised
    and the table is as it was, or it returned and the table is as it was
    but for the row of the object returned, stored under its key: the first
    of its two saves is never left without the second. *)
Theorem AuditableModel_save_all_or_nothing now fresh self t :
  let k := default fresh (pk self) in
  let refused :=
    (adding self = true ∧ is_Some (t !! k))
    ∨ ∃ k' r', t !! k' = Some r' ∧ k' ≠ k
               ∧ conflict (own (row self)) (own r') = true in
  (refused → AuditableModel.save now fresh None self t = (t, Raises IntegrityError))
  ∧ ((∃ e, AuditableModel.save now fresh None self t = (t, Raises e))
     ∨ ∃ self', AuditableModel.save now fresh None self t
                = (<[k:=row self']> t, Returns self')).
Proof.
  intros k refused. rewrite AuditableModel_save_full_exact. split.
  - intros Href. apply blocked_true in Href. by rewrite Href.
  - destruct (blocked fresh self t).
    + left. by exists IntegrityError.
    + right. by exists {| pk := Some k; adding := false; row := saved_row now fresh self t |}.
Qed.

(** X3. [created_at_nepali] is computed only for an object whose primary key
    is [None]: a full save of an object that has a key stores the
    [created_at_nepali] the object holds, whatever [created_at] becomes. *)
Theorem created_at_nepali_stored now fresh self t t' self' :
  AuditableModel.save now fresh None self t = (t', Returns self') →
  (pk self ≠ None → created_at_nepali (row self') = created_at_nepali (row self))
  ∧ (pk self = None →
     created_at_nepali (row self') = gregorian_to_nepali_string (created_at (row self'))).
Proof.
  rewrite AuditableModel_save_full_exact.
  destruct (blocked fresh self t); [done|]. intros [= <- <-]. cbn [row].
  unfold saved_row. split; intros Hpk.
  - rewrite bool_decide_eq_false_2 by done. unfold base_row.
    by destruct (inserting fresh self t).
  - rewrite bool_decide_eq_true_2 by done. done.
Qed.

Lemma AuditableModel_save_in_sync now fresh self t :
  table_in_sync t → table_in_sync (final (AuditableModel.save now fresh None self) t).
Proof.
  intros Ht. unfold final. rewrite AuditableModel_save_full_exact.
  destruct (blocked fresh self t); [done|]. simpl. intros k r Hk.
  destruct (decide (k = default fresh (pk self))) as [->|Hne].
  - rewrite lookup_insert_eq in Hk. injection Hk as <-.
    unfold in_sync, saved_row, base_row.
    by destruct (bool_decide (pk self = None)), (inserting fresh self t).
  - rewrite lookup_insert_ne in Hk by done. by eapply Ht.
Qed.

Lemma prelude_save_in_sync self (m : Orm (Table F) (Instance F)) now fresh t :
  prelude self m → table_in_sync t →
  table_in_sync (final (bind m (AuditableModel.save now fresh None)) t).
Proof.
  intros Hm Ht. destruct (Hm t) as [Hsame _]. unfold final, bind.
  destruct (m t) as [t1 [self1| |]]; simpl in *; subst t1; [|done..].
  by apply AuditableModel_save_in_sync.
Qed.

Lemma qs_update_in_sync (g : F → F) (qs : QuerySet F) t :
  table_in_sync t → table_in_sync (qs_update (map_own g) qs t).1.
Proof.
  intros Ht k r Hk. rewrite qs_update_lookup in Hk.
  destruct (t !! k) as [r0|] eqn:Hk0; [|done]. simpl in Hk. injection Hk as <-.
  specialize (Ht k r0 Hk0). by destruct (qs k r0).
Qed.

Lemma primary_save_in_sync (person : F → uuid) (is_primary : F → bool)
    (set_is_primary : bool → F → F) persons now fresh self t :
  table_in_sync t →
  table_in_sync
    (final (primary_save person is_primary set_is_primary persons now fresh None self) t).
Proof.
  intros Ht. unfold final. rewrite primary_save_eq.
  destruct (attr is_primary self).
  - destruct (persons !! attr person self) as [owner|]; [|done].
    apply AuditableModel_save_in_sync. unfold cleared. by apply qs_update_in_sync.
  - by apply AuditableModel_save_in_sync.
Qed.
End full_save_properties.

(** ** Rendered timestamps in the reachable states *)

Lemma Province_save_in_sync `{!Environment} now fresh self t :
  table_in_sync t → table_in_sync (final (Province.save now fresh None self) t).
Proof.
  intros Ht. unfold Province.save. apply (prelude_save_in_sync self); [|done].
  repeat case_match; auto using prelude_ret, prelude_raise, prelude_unique_slugify.
Qed.

Lemma District_save_in_sync `{!Environment} provinces now fresh self t :
  table_in_sync t → table_in_sync (final (District.save provinces now fresh None self) t).
Proof.
  intros Ht. unfold District.save. apply (prelude_save_in_sync self); [|done].
  repeat case_match; auto using prelude_ret, prelude_raise, prelude_unique_slugify.
Qed.

Lemma Municipality_save_in_sync `{!Environment} districts now fresh self t :
  table_in_sync t → table_in_sync (final (Municipality.save districts now fresh None self) t).
Proof.
  intros Ht. unfold Municipality.save. apply (prelude_save_in_sync self); [|done].
  repeat case_match; auto using prelude_ret, prelude_raise, prelude_unique_slugify.
Qed.

Lemma Ward_save_in_sync `{!Environment} municipalities now fresh self t :
  table_in_sync t → table_in_sync (final (Ward.save municipalities now fresh None self) t).
Proof.
  intros Ht. unfold Ward.save. apply (prelude_save_in_sync self); [|done].
  repeat case_match; auto using prelude_ret, prelude_raise, prelude_unique_slugify.
Qed.

Lemma Post_save_in_sync `{!Environment} now fresh self t :
  table_in_sync t → table_in_sync (final (Post.save now fresh None self) t).
Proof.
  intros Ht. unfold Post.save. apply (prelude_save_in_sync self); [|done].
  repeat case_match; auto using prelude_ret, prelude_raise, prelude_unique_slugify.
Qed.

Lemma Bank_save_in_sync `{!Environment} now fresh self t :
  table_in_sync t → table_in_sync (final (Bank.save now fresh None self) t).
Proof.
  intros Ht. unfold Bank.save. apply (prelude_save_in_sync self); [|done].
  repeat case_match; auto using prelude_ret, prelude_raise, prelude_unique_slugify.
Qed.

Lemma BankBranch_save_in_sync `{!Environment} banks now fresh self t :
  table_in_sync t → table_in_sync (final (BankBranch.save banks now fresh None self) t).
Proof.
  intros Ht. unfold BankBranch.save. apply (prelude_save_in_sync self); [|done].
  repeat case_match; auto using prelude_ret, prelude_raise, prelude_unique_slugify.
Qed.

Lemma SpecificWork_save_in_sync `{!Environment} now fresh self t :
  table_in_sync t → table_in_sync (final (SpecificWork.save now fresh None self) t).
Proof.
  intros Ht. unfold SpecificWork.save. apply (prelude_save_in_sync self); [|done].
  repeat case_match; auto using prelude_ret, prelude_raise, prelude_unique_slugify.
Qed.

Lemma BankAccount_save_in_sync `{!Environment} persons now fresh self t :
  table_in_sync t → table_in_sync (final (BankAccount.save persons now fresh None self) t).
Proof. rewrite BankAccount_save_eq. apply primary_save_in_sync. Qed.

Lemma PhoneNumber_save_in_sync `{!Environment} persons now fresh self t :
  table_in_sync t → table_in_sync (final (PhoneNumber.save persons now fresh None self) t).
Proof. rewrite PhoneNumber_save_eq. apply primary_save_in_sync. Qed.

Lemma EmailAddress_save_in_sync `{!Environment} persons now fresh self t :
  table_in_sync t → table_in_sync (final (EmailAddress.save persons now fresh None self) t).
Proof. rewrite EmailAddress_save_eq. apply primary_save_in_sync. Qed.

Section sync_invariant.
Context `{!Environment}.

Lemma step_in_sync db db' : step db db' → db_in_sync db → db_in_sync db'.
Proof.
  intros Hstep (?&?&?&?&?&?&?&?&?&?&?).
  destruct Hstep; unfold db_in_sync; cbn -[final]; split_and!;
    auto using Province_save_in_sync, District_save_in_sync, Municipality_save_in_sync,
      Ward_save_in_sync, Post_save_in_sync, Bank_save_in_sync, BankBranch_save_in_sync,
      SpecificWork_save_in_sync, BankAccount_save_in_sync, PhoneNumber_save_in_sync,
      EmailAddress_save_in_sync.
Qed.

(** X4. In every state that the operations of the application reach from
    the empty database, every stored row of every model other than [Person]
    has as [updated_at_nepali] the rendering of its stored [updated_at]. *)
Theorem updated_at_nepali_in_sync (db : DB) : reachable db → db_in_sync db.
Proof.
  induction 1 as [|db db' _ IH Hstep].
  - unfold db_in_sync; simpl; split_and!; intros k r Hk; by rewrite lookup_empty in Hk.
  - by eapply step_in_sync.
Qed.
End sync_invariant.

(** ** Saving a model with a slug *)

Lemma unique_slugify_free `{!Environment} {F} (instance : Instance F) (value : string)
    (slug_field : CharField F) (queryset : option (QuerySet F))
    (separator : string) (t : Table F) :
  ∃ slug,
    unique_slugify instance value slug_field queryset separator t
    = (t, Returns (update_attr (setf slug_field slug) instance))
    ∧ ¬ held_by_other instance slug_field queryset t slug
    ∧ (¬ held_by_other instance slug_field queryset t (slice_to 180 (slugify value)) →
       slug = slice_to 180 (slugify value))
    ∧ (held_by_other instance slug_field queryset t (slice_to 180 (slugify value)) →
       String.length (slice_to 180 (slugify value)) + String.length separator
       < String.length slug).
Proof.
  unfold unique_slugify.
  destruct (unique_slugify_loop_result instance slug_field queryset
              (slice_to 180 (slugify value)) separator t)
    as (slug & Hloop & Hfree & Hfirst).
  rewrite Hloop. exists slug. split_and!; [done|done|..].
  - intros Hbase. by destruct Hfirst as [[_ ->]|[Htaken _]].
  - intros Hbase. destruct Hfirst as [[Hnot _]|(_ & n & _ & -> & _)]; [done|].
    rewrite !length_app_s. pose proof (pretty_N_length_pos n). lia.
Qed.

Section slug_save.
Context `{!Environment} `{!Model F}.
Implicit Types (t : Table F) (self : Instance F) (k : uuid).

(** A full save that computes the slug, when it returns. *)
Lemma slugged_save_returns self value (slug_field : CharField F) queryset separator
    now fresh t t' self' :
  bind (unique_slugify self value slug_field queryset separator)
    (AuditableModel.save now fresh None) t = (t', Returns self') →
  ∃ slug,
    t' = <[default fresh (pk self) := row self']> t
    ∧ own (row self') = setf slug_field slug (own (row self))
    ∧ ¬ held_by_other self slug_field queryset t slug
    ∧ (¬ held_by_other self slug_field queryset t (slice_to 180 (slugify value)) →
       slug = slice_to 180 (slugify value)).
Proof.
  destruct (unique_slugify_free self value slug_field queryset separator t)
    as (slug & Hslug & Hfree & Hbase & _).
  unfold bind. rewrite Hslug.
  set (self1 := update_attr (setf slug_field slug) self).
  rewrite AuditableModel_save_full_exact.
  change (pk self1) with (pk self).
  destruct (blocked fresh self1 t); [done|]. intros [= <- <-].
  exists slug. cbn [row]. split_and!; [done| |done|done].
  unfold saved_row. destruct (bool_decide (pk self1 = None)); cbn; apply own_base_row.
Qed.
End slug_save.

Section district_slug.
Context `{!Environment}.
Implicit Types (t : Table District.fields) (self : Instance District.fields).


(** X6. [District.save] keeps a slug that is given: the object returned has
    it.  It does not make a given slug unique: when another district of the
    same province has that slug, the save raises [IntegrityError] and the
    table is as it was. *)
Theorem District_save_given_slug provinces now fresh self t :
  attr District.slug self ≠ "" →
  (∀ t' self', District.save provinces now fresh None self t = (t', Returns self') →
     attr District.slug self' = attr District.slug self
     ∧ t' !! default fresh (pk self) = Some (row self'))
  ∧ (∀ k' r', t !! k' = Some r' → k' ≠ default fresh (pk self) →
       District.province (own r') = attr District.province self →
       District.slug (own r') = attr District.slug self →
       District.save provinces now fresh None self t = (t, Raises IntegrityError)).
Proof.
  intros Hslug.
  assert (District.save provinces now fresh None self t
          = AuditableModel.save now fresh None self t) as ->.
  { unfold District.save, truthy. rewrite bool_decide_eq_false_2 by done. done. }
  rewrite AuditableModel_save_full_exact. split.
  - intros t' self'. destruct (blocked fresh self t); [done|]. intros [= <- <-].
    cbn [row]. split; [|apply lookup_insert_eq].
    unfold attr. f_equal.
    unfold saved_row. cbn. destruct (bool_decide (pk self = None)); apply own_base_row.
  - intros k' r' Hk' Hne Hp Hs.
    assert (blocked fresh self t = true) as ->; [|done].
    apply blocked_true. right. exists k', r'. split_and!; [done|done|].
    cbn. apply orb_true_iff. right. unfold attr in *.
    apply andb_true_iff. by rewrite !bool_decide_eq_true.
Qed.
End district_slug.

(** ** Length of computed slugs *)

(** X7. [unique_slugify] leaves the table as it is and changes only the
    slug of the object.  The slug has at most 180 characters when the
    truncated base is free; when the base is taken, the slug is longer than
    base and separator together, so that a taken base of 180 characters
    gives a slug of more than 180. *)
Theorem unique_slugify_length `{!Environment} {F} (instance : Instance F) (value : string)
    (slug_field : CharField F) (queryset : option (QuerySet F))
    (separator : string) (t : Table F) :
  ∃ slug,
    unique_slugify instance value slug_field queryset separator t
    = (t, Returns (update_attr (setf slug_field slug) instance))
    ∧ (¬ held_by_other instance slug_field queryset t (slice_to 180 (slugify value)) →
       String.length slug ≤ 180)
    ∧ (held_by_other instance slug_field queryset t (slice_to 180 (slugify value)) →
       String.length (slice_to 180 (slugify value)) + String.length separator
       < String.length slug)
    ∧ (held_by_other instance slug_field queryset t (slice_to 180 (slugify value)) →
       180 ≤ String.length (slugify value) → 180 < String.length slug).
Proof.
  destruct (unique_slugify_free instance value slug_field queryset separator t)
    as (slug & Heq & _ & Hfree & Htaken).
  exists slug. split_and!; [done|..].
  - intros Hbase. rewrite (Hfree Hbase). apply length_slice_to.
  - done.
  - intros Hbase Hlong. specialize (Htaken Hbase).
    assert (String.length (slice_to 180 (slugify value)) = 180) as Hlen; [|lia].
    clear -Hlong. generalize 180 (slugify value) Hlong.
    induction n as [|n IH]; intros [|c s] Hle; simpl in *; try lia.
    rewrite IH; [done|lia].
Qed.

(** ** The admin actions *)

Lemma qs_count_size `{!Environment} {F} (qs : QuerySet F) (t : Table F) :
  qs_count qs t = size (evaluate qs t).
Proof.
  unfold qs_count, evaluate. rewrite <-length_map_to_list.
  apply Permutation_length, NoDup_Permutation.
  - apply NoDup_filter, NoDup_map_to_list.
  - apply NoDup_map_to_list.
  - intros [k r]. rewrite list_elem_of_filter, !elem_of_map_to_list.
    rewrite map_lookup_filter_Some. cbn. tauto.
Qed.

Section admin_actions.
Context `{!Environment}.
Implicit Types (t : Table Person.fields) (queryset : QuerySet Person.fields) (k : uuid).

(** X8. The admin actions never raise.  Their message gives the number of
    stored persons the query set selects.  They add and remove no row, leave
    the persons that are not selected as they are, and change nothing but
    [is_active] and [deleted_at] of those selected: [updated_at] and
    [updated_at_nepali] stay as stored. *)
Theorem admin_actions_frame now queryset t :
  (∃ t', SoftDeleteAdminActionMixin.action_soft_delete now queryset t
         = (t', Returns ("Soft-deleted " +:+ pretty (size (evaluate queryset t))
                         +:+ " objects."))
         ∧ (∀ k, t !! k = None → t' !! k = None)
         ∧ (∀ k r, t !! k = Some r → queryset k r = false → t' !! k = Some r)
         ∧ (∀ k r, t !! k = Some r → ∃ r', t' !! k = Some r' ∧ unchanged_but_flags r r'))
  ∧ (∃ t', SoftDeleteAdminActionMixin.action_restore queryset t
           = (t', Returns ("Restored " +:+ pretty (size (evaluate queryset t))
                           +:+ " objects."))
           ∧ (∀ k, t !! k = None → t' !! k = None)
           ∧ (∀ k r, t !! k = Some r → queryset k r = false → t' !! k = Some r)
           ∧ (∀ k r, t !! k = Some r → ∃ r', t' !! k = Some r' ∧ unchanged_but_flags r r')).
Proof.
  split.
  - exists (final (SoftDeleteAdminActionMixin.action_soft_delete now queryset) t).
    split; [|split_and!].
    + unfold SoftDeleteAdminActionMixin.action_soft_delete, final, bind, ret, qs_update.
      cbn. by rewrite qs_count_size.
    + intros k Hk. by rewrite action_soft_delete_lookup, Hk.
    + intros k r Hk Hq. by rewrite action_soft_delete_lookup, Hk; cbn; rewrite Hq.
    + intros k r Hk. rewrite action_soft_delete_lookup, Hk. cbn.
      eexists; split; [done|].
      unfold unchanged_but_flags, unchanged_outside_flags.
      destruct (queryset k r); split_and!; done.
  - exists (final (SoftDeleteAdminActionMixin.action_restore queryset) t).
    split; [|split_and!].
    + unfold SoftDeleteAdminActionMixin.action_restore, final, bind, ret, qs_update.
      cbn. by rewrite qs_count_size.
    + intros k Hk. by rewrite action_restore_lookup, Hk.
    + intros k r Hk Hq. by rewrite action_restore_lookup, Hk; cbn; rewrite Hq.
    + intros k r Hk. rewrite action_restore_lookup, Hk. cbn.
      eexists; split; [done|].
      unfold unchanged_but_flags, unchanged_outside_flags.
      destruct (queryset k r); split_and!; done.
Qed.

(** X9. After the soft-delete action, [Person.objects.active()] gives the
    persons that were active and not selected, as they were stored; after
    the restore action it gives every selected person, with [is_active]
    true and [deleted_at] empty, and the others that were active. *)
Theorem active_after_admin_actions now queryset t :
  evaluate PersonManager.active
    (final (SoftDeleteAdminActionMixin.action_soft_delete now queryset) t)
  = filter (λ kr, queryset kr.1 kr.2 = false) (evaluate PersonManager.active t)
  ∧ ∀ k r',
      evaluate PersonManager.active
        (final (SoftDeleteAdminActionMixin.action_restore queryset) t) !! k = Some r'
      ↔ ∃ r, t !! k = Some r
             ∧ if queryset k r
               then r' = map_own (λ f, Person.set_deleted_at None
                                         (Person.set_is_active true f)) r
               else r' = r ∧ Person.is_active (own r) = true.
Proof.
  split.
  - apply map_eq. intros k. apply option_eq. intros r'.
    rewrite evaluate_lookup, action_soft_delete_lookup, map_lookup_filter_Some.
    rewrite evaluate_lookup. cbn.
    unfold PersonManager.active, PersonManager.get_queryset, qs_filter, all. cbn.
    destruct (t !! k) as [r|] eqn:Hk; cbn; [|by split; [intros [? _]|intros [[? _] _]]].
    destruct (queryset k r) eqn:Hq.
    + split.
      * intros [[= <-] Hact]. done.
      * intros [[[= <-] _] Hq']. congruence.
    + split.
      * intros [[= <-] Hact]. done.
      * intros [[[= <-] Hact] _]. done.
  - intros k r'. rewrite evaluate_lookup, action_restore_lookup.
    unfold PersonManager.active, PersonManager.get_queryset, qs_filter, all. cbn.
    destruct (t !! k) as [r|] eqn:Hk; cbn; [|by split; [intros [? _]|intros (? & ? & _)]].
    split.
    + intros [[= <-] Hact]. exists r. split; [done|].
      destruct (queryset k r); [done|]. done.
    + intros (r0 & [= <-] & Hr). destruct (queryset k r).
      * by subst r'.
      * by destruct Hr as [-> Hact].
Qed.

(** X10. Restoring undoes soft-deleting.  For a query set that selects by
    key, when every selected person is active with no [deleted_at], the
    restore action after the soft-delete action gives the table back. *)
Theorem action_restore_after_soft_delete now queryset t :
  selects_by_key queryset →
  (∀ k r, t !! k = Some r → queryset k r = true →
     Person.is_active (own r) = true ∧ Person.deleted_at (own r) = None) →
  final (SoftDeleteAdminActionMixin.action_restore queryset)
    (final (SoftDeleteAdminActionMixin.action_soft_delete now queryset) t) = t.
Proof.
  intros Hkey Hactive. apply map_eq. intros k.
  rewrite action_restore_lookup, action_soft_delete_lookup.
  destruct (t !! k) as [r|] eqn:Hk; [|done]. cbn. f_equal.
  destruct (queryset k r) eqn:Hq.
  - rewrite (Hkey k _ r), Hq. destruct (Hactive k r Hk Hq) as [Hact Hdel].
    destruct r as [? ? ? ? ? []]. cbn in *. by subst.
  - by rewrite Hq.
Qed.
End admin_actions.

(** ** Soft delete followed by restore *)

Section soft_delete_round_trip.
Context `{!Environment}.
Implicit Types (t : Table Person.fields) (self : Instance Person.fields) (k : uuid).

(** Saving the soft-delete columns of an object that is not being added:
    the object returned differs from the one given in its slug and its
    [updated_at_nepali] at most. *)
Lemma Person_save_flags_object now fresh self k t stored :
  pk self = Some k → adding self = false → t !! k = Some stored →
  violates k (map_own (with_flags (own (row self))) stored) t = false →
  ∃ self',
    Person.save now fresh (Some ["is_active"; "deleted_at"]) self t
    = (<[k:=flagged self stored]> t, Returns self')
    ∧ pk self' = Some k ∧ adding self' = false
    ∧ updated_at (row self') = updated_at (row self)
    ∧ attr Person.is_active self' = attr Person.is_active self
    ∧ attr Person.deleted_at self' = attr Person.deleted_at self.
Proof.
  intros Hpk Hadd Hk Hv. unfold Person.save.
  destruct (negb (truthy (attr Person.slug self))).
  - unfold bind.
    match goal with
    | |- context [unique_slugify self ?v ?f ?q ?sep t] =>
        destruct (unique_slugify_returns self v f q sep t) as (slug & ->)
    end.
    erewrite AuditableModel_save_flags; [|done..].
    change (adding (update_attr _ self)) with (adding self). rewrite Hadd.
    change (own (row (update_attr _ self)))
      with (setf Person.slug_field slug (own (row self))).
    replace (violates k (map_own (with_flags (setf Person.slug_field slug (own (row self))))
                           stored) t) with false by (by rewrite <-Hv).
    eexists. split; [reflexivity|]. split_and!; done.
  - unfold bind, ret.
    erewrite AuditableModel_save_flags; [|done..]. rewrite Hadd, Hv.
    eexists. split; [reflexivity|]. split_and!; done.
Qed.

(** X11. [restore] undoes [soft_delete].  For an object loaded from a table
    that satisfies the uniqueness constraints, whose stored person is active
    with no [deleted_at] and has the [updated_at_nepali] of the [updated_at]
    the object holds, [soft_delete] returns, [restore] on the object it
    returns returns as well, and the table is then as it was at first. *)
Theorem Person_restore_after_soft_delete now later fresh self k t stored :
  pk self = Some k → adding self = false → t !! k = Some stored → consistent t →
  Person.is_active (own stored) = true → Person.deleted_at (own stored) = None →
  updated_at_nepali stored = gregorian_to_nepali_string (updated_at (row self)) →
  ∃ t1 self1 self2,
    Person.soft_delete now fresh self t = (t1, Returns self1)
    ∧ (∃ r1, t1 !! k = Some r1 ∧ Person.is_active (own r1) = false
             ∧ Person.deleted_at (own r1) = Some now)
    ∧ Person.restore later fresh self1 t1 = (t, Returns self2)
    ∧ attr Person.is_active self2 = true
    ∧ attr Person.deleted_at self2 = None.
Proof.
  intros Hpk Hadd Hk Ht Hact Hdel Hsync.
  unfold Person.soft_delete, Person.restore.
  set (self0 := update_attr (Person.set_deleted_at (Some now))
                  (update_attr (Person.set_is_active false) self)).
  destruct (Person_save_flags_object now fresh self0 k t stored Hpk Hadd Hk)
    as (self1 & Hsave1 & Hpk1 & Hadd1 & Hupd1 & Hact1 & Hdel1).
  { by apply flagged_violates. }
  exists (<[k:=flagged self0 stored]> t), self1.
  set (self1' := update_attr (Person.set_deleted_at None)
                   (update_attr (Person.set_is_active true) self1)).
  destruct (Person_save_flags_object later fresh self1' k
              (<[k:=flagged self0 stored]> t) (flagged self0 stored))
    as (self2 & Hsave2 & Hpk2 & Hadd2 & Hupd2 & Hact2 & Hdel2);
    [done|done|apply lookup_insert_eq| |].
  { rewrite violates_insert. apply violates_false. intros k' r' Hk' Hne.
    rewrite <-(Ht k k' stored r' Hk Hk') by done. done. }
  exists self2. split_and!; [done| |..|done|done].
  - exists (flagged self0 stored). by rewrite lookup_insert_eq.
  - rewrite Hsave2. f_equal. rewrite insert_insert_eq.
    apply insert_id. rewrite Hk. f_equal.
    unfold flagged. change (updated_at (row self1')) with (updated_at (row self1)).
    rewrite Hupd1. change (updated_at (row self0)) with (updated_at (row self)).
    rewrite <-Hsync.
    destruct stored as [c u cn un cb [po n ph cc i s w b a d]]. cbn in *. by subst.
Qed.
End soft_delete_round_trip.

(** ** Search, continued *)

Lemma lower_nil_inv (s : string) : lower s = "" → s = "".
Proof. by destruct s. Qed.

Lemma ci_substring_trans (a b c : string) :
  ci_substring a b → ci_substring b c → ci_substring a c.
Proof.
  intros (b1 & a1 & Hab) (b2 & a2 & Hbc). exists (b2 +:+ b1), (a1 +:+ a2).
  by rewrite Hbc, Hab, !app_assoc_s.
Qed.

Lemma ci_substring_lower (a b : string) : lower a = lower b → ci_substring a b.
Proof. intros Heq. exists "", "". by rewrite Heq, app_nil_r. Qed.

Lemma ci_substring_nil_inv (a : string) : ci_substring a "" → a = "".
Proof.
  intros (b1 & a1 & Heq). apply lower_nil_inv.
  destruct b1; [|done]. rewrite app_nil_l in Heq. by destruct (lower a).
Qed.

Section search_facts.
Context `{!Environment}.
Implicit Types (t : Table Person.fields) (k : uuid).

Lemma search_narrows (q q' : string) k (r : Row Person.fields) :
  ci_substring q' q →
  PersonManager.search (Some q) k r = true → PersonManager.search (Some q') k r = true.
Proof.
  intros Hsub. unfold PersonManager.search, truthy.
  destruct (decide (q' = "")) as [->|Hq']; [done|].
  rewrite (bool_decide_eq_false_2 (q' = "")) by done.
  destruct (decide (q = "")) as [->|Hq]; [by apply ci_substring_nil_inv in Hsub|].
  rewrite (bool_decide_eq_false_2 (q = "")) by done. cbn [negb].
  unfold qs_filter, PersonManager.get_queryset, all. cbn.
  rewrite !orb_true_iff, !icontains_spec.
  intros [[H1|H1]|H1]; eauto using ci_substring_trans.
Qed.

(** X12. Searching for more gives less: when [q'] occurs in [q], case
    ignored, every person that [search q] gives is one that [search q']
    gives.  Search terms that differ in case only give the same persons. *)
Theorem PersonManager_search_narrows (q q' : string) t :
  (ci_substring q' q →
   evaluate (PersonManager.search (Some q)) t ⊆ evaluate (PersonManager.search (Some q')) t)
  ∧ (lower q = lower q' →
     evaluate (PersonManager.search (Some q)) t
     = evaluate (PersonManager.search (Some q')) t).
Proof.
  split.
  - intros Hsub. apply map_subseteq_spec. intros k r.
    rewrite !evaluate_lookup. intros [Hk Hq]. eauto using search_narrows.
  - intros Heq. apply map_eq. intros k. apply option_eq. intros r.
    rewrite !evaluate_lookup.
    split; intros [Hk Hq]; (split; [done|]); revert Hq; apply search_narrows;
      by apply ci_substring_lower.
Qed.

(** X13. The search does not look at [is_active]: a person that the
    soft-delete action has deleted is found by the searches that found it
    before. *)
Theorem search_finds_soft_deleted now (queryset : QuerySet Person.fields)
    (q : option string) t k :
  is_Some (evaluate (PersonManager.search q)
             (final (SoftDeleteAdminActionMixin.action_soft_delete now queryset) t) !! k)
  ↔ is_Some (evaluate (PersonManager.search q) t !! k).
Proof.
  assert (∀ (r : Row Person.fields) g,
            Person.name (g (own r)) = Person.name (own r) →
            Person.identity_no (g (own r)) = Person.identity_no (own r) →
            Person.computer_code (g (own r)) = Person.computer_code (own r) →
            PersonManager.search q k (map_own g r) = PersonManager.search q k r) as Hsame.
  { intros r g H1 H2 H3. unfold PersonManager.search.
    destruct q as [q|]; [|done]. destruct (negb (truthy q)); [done|].
    unfold qs_filter. destruct r. cbn in *. by rewrite H1, H2, H3. }
  unfold is_Some. setoid_rewrite evaluate_lookup.
  setoid_rewrite action_soft_delete_lookup.
  destruct (t !! k) as [r|]; cbn; [|by split; intros (? & ? & _)].
  destruct (queryset k r).
  - split.
    + intros (r' & [= <-] & Hq). exists r. split; [done|].
      by rewrite Hsame in Hq.
    + intros (r' & [= <-] & Hq). eexists. split; [done|]. by rewrite Hsame.
  - done.
Qed.
End search_facts.

(** ** Address of a bank branch *)

Lemma truthy_app_cons (c : ascii) (s1 s2 : string) : truthy (String c s1 +:+ s2) = true.
Proof. unfold truthy. rewrite app_cons. by rewrite bool_decide_eq_false_2. Qed.

Lemma truthy_true (s : string) : truthy s = true ↔ s ≠ "".
Proof. unfold truthy. by rewrite negb_true_iff, bool_decide_eq_false. Qed.

Lemma truthy_false (s : string) : truthy s = false ↔ s = "".
Proof. unfold truthy. by rewrite negb_false_iff, bool_decide_eq_true. Qed.

Section branch_address.
Context `{!Environment}.
Variables (provinces : Table Province.fields) (districts : Table District.fields)
  (municipalities : Table Municipality.fields) (wards : Table Ward.fields).
Implicit Types (self : Instance BankBranch.fields).

(** X14. When the ward of a branch and the municipality, district and
    province above it are found and have names, [BankBranch.full_address] is
    what [Person.full_address] returns for a person whose [branch_address]
    is that ward, after the address line and a comma when the branch has an
    address line. *)
Theorem BankBranch_full_address_resolved self (person : Instance Person.fields) w m d p :
  address_chain provinces districts municipalities wards
    (attr BankBranch.ward self) w m d p →
  Municipality.name (own m) ≠ "" → District.name (own d) ≠ "" →
  Province.name (own p) ≠ "" →
  attr Person.branch_address person = Some (attr BankBranch.ward self) →
  ∃ s,
    Person.full_address provinces districts municipalities wards person = Returns s
    ∧ BankBranch.full_address provinces districts municipalities wards self
      = Returns (if truthy (attr BankBranch.address_line self)
                 then attr BankBranch.address_line self +:+ ", " +:+ s else s).
Proof.
  intros (Hw & Hm & Hd & Hp) Hmn Hdn Hpn Hperson.
  eexists. split.
  - unfold Person.full_address, Person.related. by rewrite Hperson, Hw, Hm, Hd, Hp.
  - unfold BankBranch.full_address, related_object. rewrite Hw. cbn [and_then].
    rewrite Hm. cbn [and_then]. rewrite Hd. cbn [and_then]. rewrite Hp.
    cbn [and_then try_except List.filter].
    rewrite truthy_app_cons.
    rewrite (proj2 (truthy_true _) Hmn), (proj2 (truthy_true _) Hdn),
      (proj2 (truthy_true _) Hpn).
    by destruct (truthy (attr BankBranch.address_line self)).
Qed.

(** X15. When a link of that chain is missing, [BankBranch.full_address]
    returns the address line if there is one.  Without an address line it
    returns "Ward {ward_no}, {municipality name}" when the ward and its
    municipality are found, and raises [DoesNotExist] when the ward or its
    municipality is missing. *)
Theorem BankBranch_full_address_fallback self :
  (¬ ∃ w m d p, address_chain provinces districts municipalities wards
                  (attr BankBranch.ward self) w m d p) →
  (attr BankBranch.address_line self ≠ "" →
   BankBranch.full_address provinces districts municipalities wards self
   = Returns (attr BankBranch.address_line self))
  ∧ (attr BankBranch.address_line self = "" →
     (∀ w m, wards !! attr BankBranch.ward self = Some w →
             municipalities !! Ward.municipality (own w) = Some m →
             BankBranch.full_address provinces districts municipalities wards self
             = Returns ("Ward " +:+ pretty (Ward.ward_no (own w)) +:+ ", "
                        +:+ Municipality.name (own m)))
     ∧ (wards !! attr BankBranch.ward self = None
        ∨ (∃ w, wards !! attr BankBranch.ward self = Some w
                ∧ municipalities !! Ward.municipality (own w) = None) →
        BankBranch.full_address provinces districts municipalities wards self
        = Raises DoesNotExist)).
Proof.
  intros Hchain.
  assert (∃ e, and_then (related_object wards (attr BankBranch.ward self)) (λ w,
     and_then (related_object municipalities (Ward.municipality (own w))) (λ m,
     and_then (related_object districts (Municipality.district (own m))) (λ d,
     and_then (related_object provinces (District.province (own d))) (λ p,
       Returns (join ", " (List.filter truthy
         [attr BankBranch.address_line self;
          "Ward " +:+ pretty (Ward.ward_no (own w));
          Municipality.name (own m); District.name (own d); Province.name (own p)]))))))
     = Raises e) as [e Hbody].
  { unfold related_object.
    destruct (wards !! attr BankBranch.ward self) as [w|] eqn:Hw; [|by eexists].
    cbn [and_then].
    destruct (municipalities !! Ward.municipality (own w)) as [m|] eqn:Hm; [|by eexists].
    cbn [and_then].
    destruct (districts !! Municipality.district (own m)) as [d|] eqn:Hd; [|by eexists].
    cbn [and_then].
    destruct (provinces !! District.province (own d)) as [p|] eqn:Hp; [|by eexists].
    destruct Hchain. by exists w, m, d, p. }
  unfold BankBranch.full_address. cbv zeta. rewrite Hbody. cbn [try_except].
  split.
  - intros Hline. by rewrite (proj2 (truthy_true _) Hline).
  - intros Hline. rewrite (proj2 (truthy_false _) Hline). unfold Ward.__str__, related_object.
    split.
    + intros w m Hw Hm. rewrite Hw. cbn [and_then]. unfold attr. cbn [row].
      by rewrite Hm.
    + intros [Hw|(w & Hw & Hm)]; rewrite Hw; [done|]. cbn [and_then]. unfold attr.
      cbn [row]. by rewrite Hm.
Qed.
End branch_address.

(** ** Contact records: what a save leaves and what it undoes *)

Section partial_save_keeps.
Context `{!Environment} `{!Model F}.
Variable P : F → Prop.
Implicit Types (t : Table F) (self : Instance F) (k : uuid) (r : Row F).

Lemma assign_columns_keeps names src dst dst' :
  (∀ name src dst dst', name ∈ names → assign_column name src dst = Some dst' →
                        P (own dst) → P (own dst')) →
  assign_columns names src dst = Some dst' → P (own dst) → P (own dst').
Proof.
  revert dst. induction names as [|name names IH]; intros dst Hkeep.
  - by intros [= <-].
  - cbn [assign_columns].
    destruct (assign_column name src dst) as [dst1|] eqn:Hcol; [|done]. cbn.
    intros Hrest Hdst. apply (IH dst1); [|done|].
    + intros ? ? ? ? Hin. apply Hkeep. by right.
    + apply (Hkeep name src dst dst1); [by left|done|done].
Qed.

(** Saving columns of an object that is not being added, when its row
    satisfies [P] and the columns written keep [P]: the row still satisfies
    [P], whether the save returns or raises. *)
Lemma Model_save_partial_keeps now fresh names self k t r :
  (∀ name src dst dst', name ∈ names → assign_column name src dst = Some dst' →
                        P (own dst) → P (own dst')) →
  pk self = Some k → adding self = false → t !! k = Some r → P (own r) →
  (∃ r', (Model_save now fresh (Some names) self t).1 !! k = Some r' ∧ P (own r'))
  ∧ ∀ self', (Model_save now fresh (Some names) self t).2 = Returns self' →
      pk self' = Some k ∧ adding self' = false ∧ own (row self') = own (row self).
Proof.
  intros Hkeep Hpk Hadd Hk HP.
  destruct self as [pk0 adding0 row0]. cbn [pk adding row] in *. subst pk0 adding0.
  unfold Model_save. destruct names as [|name names].
  { split; [by exists r|]. by intros self' [= <-]. }
  change (default [] (Some (name :: names))) with (name :: names).
  cbn [pk adding row].
  destruct (assign_columns (name :: names) row0 row0) as [x|] eqn:Hvalid.
  2:{ split; [by exists r|]. done. }
  change (default fresh (Some k)) with k. unfold set_pk. cbn [pk adding row].
  unfold bind, sql_update, ret. rewrite Hk.
  match goal with |- context [violates k ?new t] => set (new_row := new) end.
  destruct (violates k new_row t).
  { split; [by exists r|]. done. }
  cbn. split.
  - exists new_row. rewrite lookup_insert_eq. split; [done|].
    unfold new_row.
    match goal with |- context [assign_columns _ ?src r] =>
      destruct (assign_columns (name :: names) src r) as [y|] eqn:Hy end; [|done].
    cbn. by apply (assign_columns_keeps _ _ _ _ Hkeep Hy).
  - intros self' [= <-]. by destruct (bool_decide _).
Qed.

Lemma updated_at_nepali_keeps name (src dst dst' : Row F) :
  name ∈ ["updated_at_nepali"] → assign_column name src dst = Some dst' →
  P (own dst) → P (own dst').
Proof.
  intros ->%list_elem_of_singleton. unfold assign_column.
  repeat (case_bool_decide; [done|]). case_bool_decide; [|done]. by intros [= <-].
Qed.

Lemma AuditableModel_save_partial_keeps now fresh names self k t r :
  (∀ name src dst dst', name ∈ names → assign_column name src dst = Some dst' →
                        P (own dst) → P (own dst')) →
  pk self = Some k → adding self = false → t !! k = Some r → P (own r) →
  (∃ r', (AuditableModel.save now fresh (Some names) self t).1 !! k = Some r'
         ∧ P (own r'))
  ∧ ∀ self', (AuditableModel.save now fresh (Some names) self t).2 = Returns self' →
      own (row self') = own (row self).
Proof.
  intros Hkeep Hpk Hadd Hk HP. unfold AuditableModel.save. rewrite Hpk.
  rewrite bool_decide_eq_false_2 by done. unfold bind.
  destruct (Model_save_partial_keeps now fresh names self k t r Hkeep Hpk Hadd Hk HP)
    as [(r1 & Hk1 & HP1) Hobj].
  destruct (Model_save now fresh (Some names) self t) as [t1 [self1| |]] eqn:Hsave;
    cbn [fst snd] in *; [|by split; [exists r1|]..].
  destruct (Hobj self1 eq_refl) as (Hpk1 & Hadd1 & Hown1).
  match goal with |- context [Model_save now fresh _ ?s t1] => set (self2 := s) end.
  destruct (Model_save_partial_keeps now fresh ["updated_at_nepali"] self2 k t1 r1
              updated_at_nepali_keeps Hpk1 Hadd1 Hk1 HP1) as [Hrow Hobj2].
  split; [done|]. intros self' Hret. destruct (Hobj2 self' Hret) as (_ & _ & ->).
  done.
Qed.
End partial_save_keeps.

Section contact_saves.
Context `{!Environment}.
Implicit Types (t : Table PhoneNumber.fields) (self : Instance PhoneNumber.fields)
  (k : uuid).

(** X16. What a full [PhoneNumber.save] leaves alone.  No row is removed;
    a row other than the one saved changes only when the object saved is
    primary and the row is a primary number of the same person, and then
    only in [is_primary], which becomes false. *)
Theorem PhoneNumber_save_frame persons now fresh self t k r :
  t !! k = Some r → k ≠ default fresh (pk self) →
  ∃ r', final (PhoneNumber.save persons now fresh None self) t !! k = Some r'
        ∧ (r' = r ∨ r' = map_own (PhoneNumber.set_is_primary false) r)
        ∧ (attr PhoneNumber.is_primary self = false
           ∨ PhoneNumber.person (own r) ≠ attr PhoneNumber.person self
           ∨ PhoneNumber.is_primary (own r) = false → r' = r).
Proof.
  intros Hk Hne. unfold final. rewrite PhoneNumber_save_eq, primary_save_eq.
  destruct (attr PhoneNumber.is_primary self) eqn:Hself;
    [destruct (persons !! attr PhoneNumber.person self) as [owner|]|].
  2:{ exists r. split_and!; [done|by left|done]. }
  2:{ rewrite AuditableModel_save_full_exact.
      destruct (blocked fresh self t); cbn [fst]; rewrite ?lookup_insert_ne by done;
        (exists r; split_and!; [done|by left|done]). }
  set (t1 := cleared _ _ _ _ t).
  assert (∃ r', t1 !! k = Some r'
                ∧ (r' = r ∨ r' = map_own (PhoneNumber.set_is_primary false) r)
                ∧ (true = false
                   ∨ PhoneNumber.person (own r) ≠ attr PhoneNumber.person self
                   ∨ PhoneNumber.is_primary (own r) = false → r' = r)) as Hgoal.
  { unfold t1. rewrite PhoneNumber_cleared_lookup, Hk. cbn. eexists. split; [done|].
    case_bool_decide as Hp; cbn.
    - destruct (PhoneNumber.is_primary (own r)) eqn:Hr.
      + split; [by right|]. intros [?|[?|?]]; done.
      + split; [by left|done].
    - split; [by left|done]. }
  rewrite AuditableModel_save_full_exact.
  destruct (blocked fresh self t1); [done|]. cbn [fst].
  by rewrite lookup_insert_ne.
Qed.

(** X17. The primary numbers are cleared before the row is written, and
    nothing puts them back when the write is refused: a full save of a
    primary number that another row of the same person already has raises
    [IntegrityError] and leaves that person, found in the table of persons,
    without any primary number. *)
Theorem PhoneNumber_refused_save_clears persons now fresh self t k r :
  attr PhoneNumber.is_primary self = true →
  is_Some (persons !! attr PhoneNumber.person self) →
  t !! k = Some r → k ≠ default fresh (pk self) →
  PhoneNumber.person (own r) = attr PhoneNumber.person self →
  PhoneNumber.number (own r) = attr PhoneNumber.number self →
  ∃ t', PhoneNumber.save persons now fresh None self t = (t', Raises IntegrityError)
        ∧ (∀ k', is_Some (t' !! k') ↔ is_Some (t !! k'))
        ∧ ∀ k' r', t' !! k' = Some r' →
            PhoneNumber.person (own r') = attr PhoneNumber.person self →
            PhoneNumber.is_primary (own r') = false.
Proof.
  intros Hprim [owner Howner] Hk Hne Hperson Hnumber.
  rewrite PhoneNumber_save_eq, primary_save_eq, Hprim, Howner.
  set (t1 := cleared _ _ _ _ t).
  exists t1. rewrite AuditableModel_save_full_exact.
  assert (blocked fresh self t1 = true) as ->.
  { apply blocked_true. right.
    exists k, (if bool_decide (PhoneNumber.person (own r) = attr PhoneNumber.person self)
                  && PhoneNumber.is_primary (own r)
               then map_own (PhoneNumber.set_is_primary false) r else r).
    split_and!; [|done|].
    - unfold t1. by rewrite PhoneNumber_cleared_lookup, Hk.
    - unfold attr in *. cbn.
      rewrite andb_true_iff, !bool_decide_eq_true.
      destruct (_ && _); cbn; by split. }
  split_and!; [done|..].
  - intros k'. unfold t1. rewrite PhoneNumber_cleared_lookup.
    by rewrite fmap_is_Some.
  - intros k' r' Hk' Hp. unfold t1 in Hk'.
    apply cleared_lookup in Hk' as (_ & _ & _ & _ & Hnone); [by apply Hnone|done..].
Qed.

Lemma PhoneNumber_assign_keeps (names : list string) name (src dst dst' : Row PhoneNumber.fields) :
  "is_primary" ∉ names → name ∈ names → assign_column name src dst = Some dst' →
  PhoneNumber.is_primary (own dst) = false → PhoneNumber.is_primary (own dst') = false.
Proof.
  intros Hnot Hin. assert (name ≠ "is_primary") as Hname by (by intros ->).
  unfold assign_column.
  repeat (case_bool_decide; [by intros [= <-]|]).
  destruct dst as [? ? ? ? ? [p n i]]. cbn.
  repeat (case_bool_decide; [by intros [= <-]|]).
  by cbn.
Qed.

(** X18. Saving some columns of a primary number of a person found in the
    table of persons, [is_primary] not among the columns, takes the primary
    flag from the stored row: the query that clears
    the primary numbers of the person does not leave out the row of the
    object, and the save does not write the flag back.  The row is not
    primary afterwards, whether the save returns or raises, while the object
    returned still says that it is. *)
Theorem PhoneNumber_partial_save_demotes persons now fresh names self k t stored :
  pk self = Some k → adding self = false → t !! k = Some stored →
  attr PhoneNumber.is_primary self = true →
  is_Some (persons !! attr PhoneNumber.person self) →
  PhoneNumber.person (own stored) = attr PhoneNumber.person self →
  "is_primary" ∉ names →
  (∃ r', final (PhoneNumber.save persons now fresh (Some names) self) t !! k = Some r'
         ∧ PhoneNumber.is_primary (own r') = false)
  ∧ ∀ t' self',
      PhoneNumber.save persons now fresh (Some names) self t = (t', Returns self') →
      attr PhoneNumber.is_primary self' = true.
Proof.
  intros Hpk Hadd Hk Hprim [owner Howner] Hperson Hnot. unfold final.
  rewrite PhoneNumber_save_eq, primary_save_eq, Hprim, Howner.
  set (t1 := cleared _ _ _ _ t).
  assert (∃ r1, t1 !! k = Some r1 ∧ PhoneNumber.is_primary (own r1) = false)
    as (r1 & Hk1 & Hr1).
  { unfold t1. rewrite PhoneNumber_cleared_lookup, Hk. cbn. eexists. split; [done|].
    rewrite bool_decide_eq_true_2 by done. cbn.
    by destruct (PhoneNumber.is_primary (own stored)) eqn:Hs. }
  destruct (AuditableModel_save_partial_keeps
              (λ f, PhoneNumber.is_primary f = false) now fresh names self k t1 r1)
    as [Hrow Hobj]; [|done..|].
  { intros name src dst dst'. by apply PhoneNumber_assign_keeps. }
  split; [done|]. intros t' self' Hsave. rewrite Hsave in Hobj.
  unfold attr. by rewrite (Hobj self' eq_refl).
Qed.
End contact_saves.

(** ** Saving a person without a slug *)

Section person_slug.
Context `{!Environment}.
Implicit Types (t : Table Person.fields) (self : Instance Person.fields).

End person_slug.

(** ** Saving again *)

Section save_again.
Context `{!Environment} `{!Model F}.
Implicit Types (t : Table F) (self : Instance F) (k : uuid).

(** X21. A full [AuditableModel.save] that returned can be repeated: saving
    the object it returned, at a later time, returns as well, and changes
    nothing in the table but [updated_at] and [updated_at_nepali] of the row
    of the object. *)
Theorem AuditableModel_save_again now later fresh self t t' self' :
  AuditableModel.save now fresh None self t = (t', Returns self') →
  ∃ self'',
    AuditableModel.save later fresh None self' t'
    = (<[default fresh (pk self) := row self'']> t', Returns self'')
    ∧ pk self'' = pk self'
    ∧ own (row self'') = own (row self')
    ∧ created_at (row self'') = created_at (row self')
    ∧ created_at_nepali (row self'') = created_at_nepali (row self')
    ∧ created_by (row self'') = created_by (row self')
    ∧ updated_at (row self'') = Some later
    ∧ updated_at_nepali (row self'') = gregorian_to_nepali_string (Some later).
Proof.
  rewrite !AuditableModel_save_full_exact.
  destruct (blocked fresh self t) eqn:Hblocked; [done|]. intros [= <- <-].
  set (k := default fresh (pk self)).
  set (self1 := {| pk := Some k; adding := false; row := saved_row now fresh self t |}).
  change (default fresh (pk self1)) with k.
  assert (own (saved_row now fresh self t) = own (row self)) as Hown.
  { unfold saved_row. cbn. destruct (bool_decide (pk self = None)); apply own_base_row. }
  set (t1 := <[k:=saved_row now fresh self t]> t).
  assert (blocked fresh self1 t1 = false) as ->.
  { apply orb_false_iff in Hblocked as [_ Hv]. unfold blocked. cbn [adding andb orb].
    change (default fresh (pk self1)) with k. unfold t1.
    rewrite violates_insert. by rewrite (violates_own _ _ (row self)). }
  eexists {| pk := _; adding := _; row := _ |}. split; [reflexivity|]. cbn [pk row].
  assert (inserting fresh self1 t1 = false) as Hins.
  { unfold inserting. cbn [adding orb]. change (default fresh (pk self1)) with k.
    unfold t1. rewrite lookup_insert_eq. by apply bool_decide_eq_false. }
  assert (saved_row later fresh self1 t1
          = set_updated_at_nepali (gregorian_to_nepali_string (Some later))
              (set_updated_at (Some later) (row self1))) as ->.
  { unfold saved_row, base_row. rewrite Hins.
    by rewrite (bool_decide_eq_false_2 (pk self1 = None)). }
  split_and!; done.
Qed.
End save_again.

(** ** Soft delete of a person that is not stored *)

Section soft_delete_missing.
Context `{!Environment}.
Implicit Types (t : Table Person.fields) (self : Instance Person.fields) (k : uuid).

Lemma Model_save_missing `{!Model F} now fresh name names (self : Instance F) k
    (t : Table F) :
  is_Some (assign_columns (name :: names) (row self) (row self)) →
  pk self = Some k → adding self = false → t !! k = None →
  Model_save now fresh (Some (name :: names)) self t = (t, Raises DatabaseError).
Proof.
  intros [x Hvalid] Hpk Hadd Hk.
  destruct self as [pk0 adding0 row0]. cbn [pk adding row] in *. subst pk0 adding0.
  unfold Model_save. change (default [] (Some (name :: names))) with (name :: names).
  cbn [pk adding row]. rewrite Hvalid. change (default fresh (Some k)) with k.
  unfold set_pk. cbn [pk adding row]. unfold bind, sql_update, raise.
  by rewrite Hk.
Qed.

Lemma Person_save_flags_missing now fresh self k t :
  pk self = Some k → adding self = false → t !! k = None →
  Person.save now fresh (Some ["is_active"; "deleted_at"]) self t
  = (t, Raises DatabaseError).
Proof.
  intros Hpk Hadd Hk.
  assert (∀ self1 : Instance Person.fields,
            pk self1 = Some k → adding self1 = false →
            AuditableModel.save now fresh (Some ["is_active"; "deleted_at"]) self1 t
            = (t, Raises DatabaseError)) as Hsave.
  { intros self1 Hpk1 Hadd1. unfold AuditableModel.save. rewrite Hpk1.
    rewrite bool_decide_eq_false_2 by done. unfold bind.
    erewrite Model_save_missing; [done|by rewrite assign_flags|done..]. }
  unfold Person.save. destruct (negb (truthy (attr Person.slug self))).
  - unfold bind.
    match goal with
    | |- context [unique_slugify self ?v ?f ?q ?sep t] =>
        destruct (unique_slugify_returns self v f q sep t) as (slug & ->)
    end.
    by apply Hsave.
  - unfold bind, ret. by apply Hsave.
Qed.

(** X22. [soft_delete] and [restore] do not create a person.  Called on an
    object that is not being added and whose row is not in the table, they
    raise [DatabaseError] and leave the table as it is. *)
Theorem soft_delete_of_missing_person now fresh self k t :
  pk self = Some k → adding self = false → t !! k = None →
  Person.soft_delete now fresh self t = (t, Raises DatabaseError)
  ∧ Person.restore now fresh self t = (t, Raises DatabaseError).
Proof.
  intros Hpk Hadd Hk. unfold Person.soft_delete, Person.restore.
  split; by apply (Person_save_flags_missing now fresh _ k).
Qed.
End soft_delete_missing.

(** * More runs on concrete data *)

Section more_sample_facts.
Import Sample Cases.
#[local] Existing Instance Sample.E.

Lemma AuditableModel_save_returns_stored_witness :
  pk phone10_saved = Some 10%N ∧ adding phone10_saved = false
  ∧ phones1 !! 10%N
    = Some (row phone10_saved)
  ∧ updated_at_nepali (row phone10_saved) = "2024-01-01 12:00:00".
Proof.
  assert (AuditableModel.save (F:=PhoneNumber.fields) (Demo.at_noon 1) 0 None phone10 ∅
          = (phones1, Returns phone10_saved)) as Hsave by (vm_compute; reflexivity).
  destruct (@AuditableModel_save_returns_stored E _ _ (Demo.at_noon 1) 0%N phone10 ∅ _ _
              Hsave) as (Hpk & Hadd & Hk & _ & _ & _ & _ & Hnepali & _).
  split_and!; [exact Hpk|exact Hadd|exact Hk|].
  etrans; [exact Hnepali|reflexivity].
Defined.

Lemma AuditableModel_save_all_or_nothing_witness :
  AuditableModel.save (F:=PhoneNumber.fields) (Demo.at_noon 1) 0 None phone10 (phones db2)
  = (phones db2, Raises IntegrityError).
Proof.
  apply (proj1 (@AuditableModel_save_all_or_nothing E _ _ (Demo.at_noon 1) 0%N phone10
                  (phones db2))).
  left. split; [reflexivity|]. vm_compute. eexists. reflexivity.
Defined.

Lemma created_at_nepali_stored_witness :
  created_at_nepali (row phone10_saved) = "".
Proof.
  assert (AuditableModel.save (F:=PhoneNumber.fields) (Demo.at_noon 1) 0 None phone10 ∅
          = (phones1, Returns phone10_saved)) as Hsave by (vm_compute; reflexivity).
  etrans.
  - apply (proj1 (@created_at_nepali_stored E _ _ (Demo.at_noon 1) 0%N phone10 ∅ _ _
                    Hsave)). discriminate.
  - reflexivity.
Defined.

Lemma AuditableModel_save_again_witness :
  ∃ self'',
    AuditableModel.save (F:=PhoneNumber.fields) (Demo.at_noon 2) 0 None phone10_saved
      phones1
    = (<[10%N := row self'']> phones1, Returns self'')
    ∧ own (row self'') = own (row phone10_saved)
    ∧ updated_at (row self'') = Some (Demo.at_noon 2).
Proof.
  assert (AuditableModel.save (F:=PhoneNumber.fields) (Demo.at_noon 1) 0 None phone10 ∅
          = (phones1, Returns phone10_saved)) as Hsave by (vm_compute; reflexivity).
  destruct (@AuditableModel_save_again E _ _ (Demo.at_noon 1) (Demo.at_noon 2) 0%N
              phone10 ∅ _ _ Hsave) as (self'' & Hagain & _ & Hown & _ & _ & _ & Hupd & _).
  exists self''. split_and!; [exact Hagain|exact Hown|exact Hupd].
Defined.

Lemma updated_at_nepali_in_sync_witness : db_in_sync db6.
Proof. apply (@updated_at_nepali_in_sync E db6), reachable_db6. Defined.


Lemma District_save_given_slug_witness :
  District.save bagmati (Demo.at_noon 1) 0 None district32 kathmandu
  = (kathmandu, Raises IntegrityError).
Proof.
  assert (∃ r', kathmandu !! 30%N = Some r' ∧ District.province (own r') = 20%N
                ∧ District.slug (own r') = "kathmandu") as (r' & Hk & Hp & Hs).
  { eexists. split; [vm_compute; reflexivity|]. split; reflexivity. }
  apply (proj2 (@District_save_given_slug E bagmati (Demo.at_noon 1) 0%N district32
                  kathmandu ltac:(discriminate)) 30%N r' Hk);
    [discriminate|exact Hp|exact Hs].
Defined.

Lemma action_restore_after_soft_delete_witness :
  final (SoftDeleteAdminActionMixin.action_restore select_1)
    (final (SoftDeleteAdminActionMixin.action_soft_delete (Demo.at_noon 3) select_1)
       (persons db5))
  = persons db5.
Proof.
  apply (@action_restore_after_soft_delete E (Demo.at_noon 3) select_1 (persons db5)).
  - intros k r r'. reflexivity.
  - assert (map_Forall (λ _ r, Person.is_active (own r) = true
                               ∧ Person.deleted_at (own r) = None) (persons db5)) as Hall.
    { apply map_Forall_to_list. vm_compute. repeat constructor. }
    intros k r Hk _. exact (Hall k r Hk).
Defined.

Lemma Person_restore_after_soft_delete_witness :
  ∃ t1 self1 self2,
    Person.soft_delete (Demo.at_noon 3) 0 hari_reloaded (persons db5) = (t1, Returns self1)
    ∧ (∃ r1, t1 !! 1%N = Some r1 ∧ Person.is_active (own r1) = false
             ∧ Person.deleted_at (own r1) = Some (Demo.at_noon 3))
    ∧ Person.restore (Demo.at_noon 4) 0 self1 t1 = (persons db5, Returns self2)
    ∧ attr Person.is_active self2 = true
    ∧ attr Person.deleted_at self2 = None.
Proof.
  apply (@Person_restore_after_soft_delete E (Demo.at_noon 3) (Demo.at_noon 4) 0%N
           hari_reloaded 1%N (persons db5) hari_row).
  - reflexivity.
  - reflexivity.
  - exact db5_person.
  - apply reachable_consistent, reachable_db5.
  - vm_compute. reflexivity.
  - vm_compute. reflexivity.
  - vm_compute. reflexivity.
Defined.

Lemma PersonManager_search_narrows_witness :
  evaluate (PersonManager.search (Some "Hari Sharma")) (persons db5)
  ⊆ evaluate (PersonManager.search (Some "SHARMA")) (persons db5).
Proof.
  apply (proj1 (@PersonManager_search_narrows E "Hari Sharma" "SHARMA" (persons db5))).
  exists "hari ", "". reflexivity.
Defined.

Lemma BankBranch_full_address_resolved_witness :
  ∃ s,
    Person.full_address bagmati kathmandu kmc ward5 hari_loaded = Returns s
    ∧ BankBranch.full_address bagmati kathmandu kmc ward5 (branch 40 "New Road")
      = Returns ("New Road" +:+ ", " +:+ s).
Proof.
  eapply (@BankBranch_full_address_resolved E bagmati kathmandu kmc ward5
            (branch 40 "New Road") hari_loaded).
  - split_and!; vm_compute; reflexivity.
  - discriminate.
  - discriminate.
  - discriminate.
  - reflexivity.
Defined.

Lemma BankBranch_full_address_fallback_witness :
  BankBranch.full_address bagmati kathmandu kmc ward5 (branch 41 "New Road")
  = Returns "New Road"
  ∧ BankBranch.full_address bagmati kathmandu kmc ward5 (branch 41 "")
    = Raises DoesNotExist.
Proof.
  split.
  - apply (proj1 (@BankBranch_full_address_fallback E bagmati kathmandu kmc ward5
                    (branch 41 "New Road")
                    ltac:(intros (w & m & d & p & Hw & _); vm_compute in Hw;
                          discriminate Hw))).
    discriminate.
  - apply (proj2 (@BankBranch_full_address_fallback E bagmati kathmandu kmc ward5
                    (branch 41 "")
                    ltac:(intros (w & m & d & p & Hw & _); vm_compute in Hw;
                          discriminate Hw))); [reflexivity|].
    left. vm_compute. reflexivity.
Defined.

Lemma PhoneNumber_save_frame_witness :
  ∃ r', final (PhoneNumber.save (persons db3) (Demo.at_noon 1) 0 None phone12)
          (phones db3) !! 11%N
        = Some r'
        ∧ (r' = phone11_row ∨ r' = map_own (PhoneNumber.set_is_primary false) phone11_row)
        ∧ (attr PhoneNumber.is_primary phone12 = false
           ∨ PhoneNumber.person (own phone11_row) ≠ attr PhoneNumber.person phone12
           ∨ PhoneNumber.is_primary (own phone11_row) = false → r' = phone11_row).
Proof.
  apply (@PhoneNumber_save_frame E (persons db3) (Demo.at_noon 1) 0%N phone12
           (phones db3) 11%N phone11_row).
  - vm_compute. reflexivity.
  - discriminate.
Defined.

Lemma PhoneNumber_refused_save_clears_witness :
  ∃ t', PhoneNumber.save (persons db4) (Demo.at_noon 2) 0 None phone13 (phones db4)
        = (t', Raises IntegrityError)
        ∧ (∀ k', is_Some (t' !! k') ↔ is_Some (phones db4 !! k'))
        ∧ ∀ k' r', t' !! k' = Some r' →
            PhoneNumber.person (own r') = 1%N →
            PhoneNumber.is_primary (own r') = false.
Proof.
  apply (@PhoneNumber_refused_save_clears E (persons db4) (Demo.at_noon 2) 0%N phone13
           (phones db4) 10%N (phone_row 10)).
  - reflexivity.
  - vm_compute. eexists. reflexivity.
  - vm_compute. reflexivity.
  - discriminate.
  - reflexivity.
  - reflexivity.
Defined.

Lemma PhoneNumber_partial_save_demotes_witness :
  PhoneNumber.is_primary (own (phone_row 12)) = true
  ∧ (∃ r', final (PhoneNumber.save (persons db4) (Demo.at_noon 2) 0 (Some ["number"])
                    phone12_edited) (phones db4) !! 12%N = Some r'
           ∧ PhoneNumber.is_primary (own r') = false)
  ∧ ∀ t' self',
      PhoneNumber.save (persons db4) (Demo.at_noon 2) 0 (Some ["number"]) phone12_edited
        (phones db4)
      = (t', Returns self') →
      attr PhoneNumber.is_primary self' = true.
Proof.
  split; [reflexivity|].
  apply (@PhoneNumber_partial_save_demotes E (persons db4) (Demo.at_noon 2) 0%N ["number"]
           phone12_edited 12%N (phones db4) (phone_row 12)).
  - reflexivity.
  - reflexivity.
  - vm_compute. reflexivity.
  - reflexivity.
  - vm_compute. eexists. reflexivity.
  - reflexivity.
  - rewrite list_elem_of_singleton. discriminate.
Defined.


Lemma soft_delete_of_missing_person_witness :
  Person.soft_delete (Demo.at_noon 3) 0 hari_reloaded ∅ = (∅, Raises DatabaseError)
  ∧ Person.restore (Demo.at_noon 3) 0 hari_reloaded ∅ = (∅, Raises DatabaseError).
Proof.
  apply (@soft_delete_of_missing_person E (Demo.at_noon 3) 0%N hari_reloaded 1%N ∅);
    reflexivity.
Defined.

Lemma phone12_edited_save :
  PhoneNumber.save (persons db4) (Demo.at_noon 2) 0 (Some ["number"]) phone12_edited
    (phones db4)
  = (phones_edited, Returns phone12_edited_saved).
Proof. vm_compute. reflexivity. Qed.

Lemma phone12_edited_saved_pk : pk phone12_edited_saved = Some 12%N.
Proof. vm_compute. reflexivity. Qed.

Lemma phones_edited_12 r :
  phones_edited !! 12%N = Some r → PhoneNumber.is_primary (own r) = false.
Proof. vm_compute. intros [= <-]. reflexivity. Qed.


Lemma at_most_one_primary_witness :
  db_at_most_one_primary db7
  ∧ ¬ at_most_one_primary PhoneNumber.person PhoneNumber.is_primary
        (final (PhoneNumber.save (persons db7) (Demo.at_noon 3) 0 (Some ["is_primary"])
                  phone10_moved) (phones db7)).
Proof.
  destruct (@at_most_one_primary_in_reachable_states E) as (Hreach & _ & Hpartial).
  split.
  - apply Hreach. unfold db7.
    eapply reachable_step; [|apply step_Person_save]. apply reachable_db5.
  - apply (Hpartial (persons db7) (Demo.at_noon 3) 0%N phone10_moved 10%N 12%N
             (phones db7) (phone_row 10) (phone_row 12)).
    + reflexivity.
    + reflexivity.
    + vm_compute. reflexivity.
    + vm_compute. reflexivity.
    + vm_compute. reflexivity.
    + discriminate.
    + reflexivity.
    + reflexivity.
    + reflexivity.
    + vm_compute. eexists. reflexivity.
    + vm_compute. discriminate.
Defined.
End more_sample_facts.
